(** * Cerise back end: workflow translation, input resolution, staging

    A shallow embedding of the Python back end of the service
    ([cerise/back_end/cwl.py], [input_file.py], [remote_api.py],
    [remote_job_files.py]) together with the properties of it that the
    design document states.

    Python [str] values are modelled as [string]; each [ascii] stands for
    one character (code points 0..255).  Parsed YAML/JSON documents are
    modelled by the tree type [json] where the code only reads them, and
    by a store of objects ([Objects]) where it changes them in place; a
    Python exception is a value of [exn] carried by the [result]
    type. *)

From Stdlib Require Import String Ascii List Bool Arith ZArith Lia DecimalString
  DecimalNat.
Import ListNotations.
Open Scope string_scope.

(** ** Python string primitives *)

Module PyStr.

(** [s.startswith(p)] *)
Fixpoint startswith (s p : string) {struct p} : bool :=
  match p with
  | EmptyString => true
  | String a p' =>
      match s with
      | EmptyString => false
      | String b s' => Ascii.eqb a b && startswith s' p'
      end
  end.

(** [needle in s] for two strings: some suffix of [s] starts with
    [needle]. *)
Fixpoint contains (needle s : string) : bool :=
  startswith s needle ||
  match s with
  | EmptyString => false
  | String _ s' => contains needle s'
  end.

(** [s[n:]] *)
Fixpoint drop (n : nat) (s : string) : string :=
  match n, s with
  | O, _ => s
  | S _, EmptyString => EmptyString
  | S k, String _ s' => drop k s'
  end.

(** [s[:n]] *)
Fixpoint take (n : nat) (s : string) : string :=
  match n, s with
  | O, _ => EmptyString
  | S _, EmptyString => EmptyString
  | S k, String c s' => String c (take k s')
  end.

(** [s[-n:]] for [n > 0]: the last [n] characters, the whole string when
    it is shorter than [n]. *)
Definition take_last (n : nat) (s : string) : string :=
  drop (String.length s - n) s.

(** [sep.join(parts)] *)
Definition join (sep : string) (parts : list string) : string :=
  String.concat sep parts.

(** [s.split(c)] for a one-character separator: never the empty list. *)
Fixpoint split (c : ascii) (s : string) : list string :=
  match s with
  | EmptyString => [EmptyString]
  | String a s' =>
      if Ascii.eqb a c then EmptyString :: split c s'
      else match split c s' with
           | h :: t => String a h :: t
           | [] => [String a EmptyString]
           end
  end.

(** [s.replace(old, new)] and [s.replace(old, new, count)] for a
    non-empty [old] (every call site passes a literal macro token).
    [count = None] is the two-argument form.  The scan is left to right
    and non-overlapping: after a match the next [length old - 1]
    characters are skipped ([skip]). *)
Fixpoint replace_from (old new : string) (count : option nat) (skip : nat)
         (s : string) : string :=
  match s with
  | EmptyString => EmptyString
  | String c s' =>
      match skip with
      | S k => replace_from old new count k s'
      | O =>
          match count with
          | Some O => s
          | _ =>
              if startswith s old
              then new ++ replace_from old new (option_map Nat.pred count)
                                       (String.length old - 1) s'
              else String c (replace_from old new count 0 s')
          end
      end
  end.

Definition replace (old new s : string) : string :=
  replace_from old new None 0 s.

Definition replace_n (old new : string) (count : nat) (s : string) : string :=
  replace_from old new (Some count) 0 s.

(** [str.isspace] on one character, for the code points below 256. *)
Definition isspace (c : ascii) : bool :=
  let n := nat_of_ascii c in
  (((9 <=? n) && (n <=? 13)) || ((28 <=? n) && (n <=? 32))
   || (n =? 133) || (n =? 160))%nat.

(** [s.lstrip()] *)
Fixpoint lstrip (s : string) : string :=
  match s with
  | EmptyString => EmptyString
  | String c s' => if isspace c then lstrip s' else s
  end.

(** Line boundaries of [str.splitlines] below code point 256:
    LF, VT, FF, CR, FS, GS, RS and NEL; CR LF counts as one. *)
Definition is_linebreak (c : ascii) : bool :=
  let n := nat_of_ascii c in
  (((10 <=? n) && (n <=? 13)) || ((28 <=? n) && (n <=? 30))
   || (n =? 133))%nat.

Definition CR : ascii := ascii_of_nat 13.
Definition LF : ascii := ascii_of_nat 10.

(** [s.splitlines()]: [cur] is the line read so far; [after_cr] holds
    when the previous character was a CR that closed a line, so that a
    LF right after it belongs to the same line break.  No empty line is
    produced after a final line break. *)
Fixpoint splitlines_from (after_cr : bool) (cur : string) (s : string)
  : list string :=
  match s with
  | EmptyString =>
      match cur with EmptyString => [] | _ => [cur] end
  | String c s' =>
      if after_cr && Ascii.eqb c LF then splitlines_from false cur s'
      else if is_linebreak c
           then cur :: splitlines_from (Ascii.eqb c CR) EmptyString s'
           else splitlines_from false (cur ++ String c EmptyString) s'
  end.

Definition splitlines (s : string) : list string :=
  splitlines_from false EmptyString s.

End PyStr.

Import PyStr.

(** ** Parsed documents, exceptions *)

(** A value produced by [yaml.safe_load] or [json.loads].  A dict keeps
    its insertion order, so it is an association list. *)
#[warnings="-register-all"]
Inductive json : Type :=
| JNull
| JBool (b : bool)
| JInt (z : Z)
| JFloat (repr : string)
| JStr (s : string)
| JList (items : list json)
| JDict (entries : list (string * json)).

(** The exceptions the modelled code raises or lets through. *)
Inductive exn : Type :=
| RuntimeError (msg : string)
| UnexpectedOutputLocation (location pfx : string)
    (* [Exception('Unexpected output location in cwl-runner output: ...')] *)
| TypeError
| KeyError (key : string)
| AttributeError
| NameError (name : string)
| FileNotFoundError
| FileExistsError
| NotADirectoryError
| IsADirectoryError
| ValueError
| UnicodeDecodeError
| JSONDecodeError.

Inductive result (A : Type) : Type :=
| Ok (a : A)
| Raise (e : exn).
Arguments Ok {A} a.
Arguments Raise {A} e.

Definition bind {A B} (r : result A) (k : A -> result B) : result B :=
  match r with
  | Ok a => k a
  | Raise e => Raise e
  end.

Notation "x <- r ;; k" := (bind r (fun x => k))
  (at level 61, r at next level, right associativity).

Fixpoint mapM {A B} (f : A -> result B) (l : list A) : result (list B) :=
  match l with
  | [] => Ok []
  | a :: l' => b <- f a ;; bs <- mapM f l' ;; Ok (b :: bs)
  end.

Module Dict.

Definition t := list (string * json).

(** [d.get(key)] / [key in d] *)
Fixpoint get (key : string) (d : t) : option json :=
  match d with
  | [] => None
  | (k, v) :: d' => if String.eqb k key then Some v else get key d'
  end.

Definition mem (key : string) (d : t) : bool :=
  match get key d with Some _ => true | None => false end.

(** [d[key]] *)
Definition getitem (key : string) (d : t) : result json :=
  match get key d with
  | Some v => Ok v
  | None => Raise (KeyError key)
  end.

(** [d[key] = v]: an existing key keeps its position, a new key goes
    last. *)
Fixpoint set (key : string) (v : json) (d : t) : t :=
  match d with
  | [] => [(key, v)]
  | (k, w) :: d' =>
      if String.eqb k key then (k, v) :: d' else (k, w) :: set key v d'
  end.

(** The continuation [f] applied to the value bound to [key], or [dflt]
    when the key is absent.  Recursive callers go through this so that
    the value they recurse on is visibly a part of the dict. *)
Definition get_with {A} (key : string) (f : json -> A) (dflt : A)
  : t -> A :=
  fix go (d : t) : A :=
    match d with
    | [] => dflt
    | (k, v) :: d' => if String.eqb k key then f v else go d'
    end.

End Dict.

(** [value['class'] == cls], for a dict [d]. *)
Definition class_is (cls : string) (d : Dict.t) : bool :=
  match Dict.get "class" d with
  | Some (JStr c) => String.eqb c cls
  | _ => false
  end.

(** ** [input_file.py] *)

(** The attributes [InputFile.__init__] sets.  [location] is stored as
    given, whatever its type. *)
#[warnings="-register-all"]
Inductive InputFile : Type :=
| mkInputFile (name : option string) (location : json)
              (content : option string) (secondary_files : list InputFile).

Definition if_name (f : InputFile) : option string :=
  let 'mkInputFile n _ _ _ := f in n.
Definition if_location (f : InputFile) : json :=
  let 'mkInputFile _ l _ _ := f in l.
Definition if_content (f : InputFile) : option string :=
  let 'mkInputFile _ _ c _ := f in c.
Definition if_secondary_files (f : InputFile) : list InputFile :=
  let 'mkInputFile _ _ _ s := f in s.

(** The call [InputFile(name, location, content, secondary_files, *extra)].
    [__init__] declares exactly four parameters besides [self]; Python
    raises [TypeError] when a call passes more positional arguments. *)
Definition InputFile_init (name : option string) (location : json)
           (content : option string) (secondary_files : list InputFile)
           (extra : list json) : result InputFile :=
  match extra with
  | [] => Ok (mkInputFile name location content secondary_files)
  | _ :: _ => Raise TypeError
  end.

(** ** [cwl.py] *)

(** Modelled from the spec: [cerise/job_store/job_state.py] is not among
    the sources; these are the states that section 4.7 of the design
    lists.  The classifier only ever returns four of them. *)
Inductive JobState : Type :=
| SUBMITTED | STAGING_IN | WAITING | RUNNING | FINISHED | STAGING_OUT
| SUCCESS | PERMANENT_FAILURE | TEMPORARY_FAILURE | SYSTEM_ERROR | CANCELLED
| STAGING_IN_CR | WAITING_CR | RUNNING_CR | STAGING_OUT_CR.

Definition MSG_DIRECTORY : string :=
  "Directory inputs are not yet supported, sorry".
Definition MSG_INVALID_SECONDARY : string :=
  "Invalid secondaryFiles entry: must be a File or a Directory".

(** [get_secondary_files(secondary_files)].  The [for] loop accepts any
    iterable: a list gives its items; a dict gives its keys and a string
    its characters, all of them strings, which the loop body skips; any
    other value is not iterable. *)
Fixpoint get_secondary_files (secondary_files : json)
  : result (list InputFile) :=
  match secondary_files with
  | JList items =>
      (fix loop (vs : list json) : result (list InputFile) :=
         match vs with
         | [] => Ok []
         | value :: rest =>
             match value with
             | JDict d =>
                 if class_is "File" d then
                   location <- Dict.getitem "location" d ;;
                   sec <- Dict.get_with "secondaryFiles"
                            get_secondary_files (Ok []) d ;;
                   new_file <- Ok (mkInputFile None location None sec) ;;
                   tl <- loop rest ;;
                   Ok (new_file :: tl)
                 else if class_is "Directory" d then
                   Raise (RuntimeError MSG_DIRECTORY)
                 else
                   Raise (RuntimeError MSG_INVALID_SECONDARY)
             | _ => loop rest
             end
         end) items
  | JDict _ | JStr _ => Ok []
  | JNull | JBool _ | JInt _ | JFloat _ => Raise TypeError
  end.

(** [value.get('secondaryFiles', [])] followed by [get_secondary_files]. *)
Definition secondary_files_of (d : Dict.t) : result (list InputFile) :=
  match Dict.get "secondaryFiles" d with
  | Some v => get_secondary_files v
  | None => get_secondary_files (JList [])
  end.

(** The inner loop of [get_files_from_binding] over a list value, [i]
    being the position of the head of [vals]. *)
Fixpoint files_from_list (name : string) (i : nat) (vals : list json)
  : result (list InputFile) :=
  match vals with
  | [] => Ok []
  | val :: rest =>
      match val with
      | JDict d =>
          if class_is "File" d then
            secondary_files <- secondary_files_of d ;;
            location <- Dict.getitem "location" d ;;
            input_file <- InputFile_init (Some name) location None
                            secondary_files [JInt (Z.of_nat i)] ;;
            tl <- files_from_list name (S i) rest ;;
            Ok (input_file :: tl)
          else files_from_list name (S i) rest
      | _ => files_from_list name (S i) rest
      end
  end.

(** The outer loop of [get_files_from_binding] over [cwl_binding.items()]. *)
Fixpoint files_from_items (items : Dict.t) : result (list InputFile) :=
  match items with
  | [] => Ok []
  | (name, value) :: rest =>
      here <-
        match value with
        | JDict d =>
            if class_is "File" d then
              secondary_files <- secondary_files_of d ;;
              location <- Dict.getitem "location" d ;;
              f <- InputFile_init (Some name) location None
                     secondary_files [] ;;
              Ok [f]
            else Ok []
        | JList vals => files_from_list name 0 vals
        | _ => Ok []
        end ;;
      tl <- files_from_items rest ;;
      Ok (here ++ tl)%list
  end.

(** [get_files_from_binding(cwl_binding)] *)
Definition get_files_from_binding (cwl_binding : json)
  : result (list InputFile) :=
  match cwl_binding with
  | JNull => Ok []
  | JDict items => files_from_items items
  | _ => Raise AttributeError
  end.

Definition MARK_VALIDATION : string := "Tool definition failed validation:".
Definition MARK_PERMANENT : string := "Final process status is permanentFail".
Definition MARK_TEMPORARY : string := "Final process status is temporaryFail".
Definition MARK_SUCCESS : string := "Final process status is success".

(** [get_cwltool_result(cwltool_log)] *)
Definition get_cwltool_result (cwltool_log : string) : JobState :=
  if contains MARK_VALIDATION cwltool_log then PERMANENT_FAILURE
  else if contains MARK_PERMANENT cwltool_log then PERMANENT_FAILURE
  else if contains MARK_TEMPORARY cwltool_log then TEMPORARY_FAILURE
  else if contains MARK_SUCCESS cwltool_log then SUCCESS
  else SYSTEM_ERROR.

(** ** The remote file system capability *)

Module Cerulean.

(** Modelled from the spec: the file system capability of section 6
    (hierarchical paths with [mkdir(mode, parents, exists_ok)],
    [read_bytes], [exists]) is provided by the external cerulean
    library, whose paths follow [pathlib.PurePosixPath].  A path is the
    list of its segments below the root. *)
Definition Path := list string.

(** [str(path)] *)
Definition str (p : Path) : string :=
  match p with
  | [] => "/"
  | _ => String.concat "" (map (fun seg => "/" ++ seg) p)
  end.

Definition segments (s : string) : list string :=
  filter (fun seg => negb (String.eqb seg "") && negb (String.eqb seg "."))
         (split "/" s).

(** [path / s]: cerulean strips the slashes at both ends of the operand
    and joins what is left to the path, so every operand, one with a
    leading slash too, is appended to [p].  The segments of the operand
    are those between its slashes, the empty ones and [.] dropped; a
    [..] segment is kept as it is written. *)
Definition div (p : Path) (s : string) : Path := (p ++ segments s)%list.

Definition parent (p : Path) : Path := removelast p.

Definition path_eqb (p q : Path) : bool :=
  if list_eq_dec string_dec p q then true else false.

(** Directories and regular files that exist, each listed under its
    path from the root, which has no [..] segment; the root always
    exists.  Permission bits are not modelled. *)
Record FileSystem : Type := mkFS {
  dirs : list Path;
  files : list (Path * string)
}.

(** The entry listed under [p], [p] taken as it is written. *)
Definition is_dir (fs : FileSystem) (p : Path) : bool :=
  match p with
  | [] => true
  | _ => existsb (path_eqb p) (dirs fs)
  end.

Fixpoint lookup_file (p : Path) (l : list (Path * string)) : option string :=
  match l with
  | [] => None
  | (q, data) :: l' => if path_eqb p q then Some data else lookup_file p l'
  end.

Definition is_file (fs : FileSystem) (p : Path) : bool :=
  match lookup_file p (files fs) with Some _ => true | None => false end.

(** Where following a path from the root ends. *)
Inductive reached : Type :=
| At (q : Path)
| NoEntry
| NotADirectory.

(** Following [segs] from the place [cur]: a [..] segment leads to the
    parent of the place (the root is its own parent), any other segment
    to the name below it; to go on from a place the place must be a
    directory.  [At q] is the place the last segment leads to, which
    has no [..] segment, whether something is there or not; [NoEntry]
    and [NotADirectory] say why the way ended before: nothing is at a
    place it should go on from, or a regular file is. *)
Fixpoint walk (fs : FileSystem) (cur : Path) (segs : list string) : reached :=
  match segs with
  | [] => At cur
  | seg :: rest =>
      if is_dir fs cur
      then walk fs (if String.eqb seg ".." then removelast cur
                    else (cur ++ [seg])%list) rest
      else if is_file fs cur then NotADirectory else NoEntry
  end.

Definition resolve (fs : FileSystem) (p : Path) : reached := walk fs [] p.

(** [path.exists()] *)
Definition exists_ (fs : FileSystem) (p : Path) : bool :=
  match resolve fs p with
  | At q => is_dir fs q || is_file fs q
  | NoEntry | NotADirectory => false
  end.

Definition add_dir (p : Path) (fs : FileSystem) : FileSystem :=
  if is_dir fs p then fs else mkFS (p :: dirs fs) (files fs).

(** All prefixes of a path, the root first and the path itself last. *)
Fixpoint prefixes (p : Path) : list Path :=
  match p with
  | [] => [[]]
  | seg :: p' => [] :: map (cons seg) (prefixes p')
  end.

(** [path.mkdir(mode, parents, exists_ok)]: with [parents] every missing
    ancestor is created as well; without it a missing parent is an
    error. *)
Definition mkdir (fs : FileSystem) (p : Path) (mode : nat)
           (parents exists_ok : bool) : result FileSystem :=
  if is_dir fs p then
    if exists_ok then Ok fs else Raise FileExistsError
  else if is_file fs p then Raise FileExistsError
  else if existsb (is_file fs) (prefixes p) then Raise NotADirectoryError
  else if is_dir fs (parent p) then Ok (add_dir p fs)
  else if parents
       then Ok (fold_left (fun acc q => add_dir q acc) (prefixes p) fs)
       else Raise FileNotFoundError.

(** [path.read_bytes()]: [FileNotFoundError] is for a name that is not
    there, [NotADirectoryError] for a way that a regular file blocks. *)
Definition read_bytes (fs : FileSystem) (p : Path) : result string :=
  match resolve fs p with
  | At q =>
      match lookup_file q (files fs) with
      | Some data => Ok data
      | None => if is_dir fs q then Raise IsADirectoryError
                else Raise FileNotFoundError
      end
  | NoEntry => Raise FileNotFoundError
  | NotADirectory => Raise NotADirectoryError
  end.

End Cerulean.

(** ** Documents as objects *)

(** [yaml.safe_load] builds Python objects, and a mapping or a sequence
    that the document names with an anchor is one object in every place
    where an alias refers to it.  Code that only reads a document
    cannot tell one object reached twice from two equal objects, and
    for such code a document is a [json] tree.  Code that changes an
    object in place changes it for every place that refers to it: for
    that code a document is a store of objects together with the value
    that stands for the whole document. *)
Module Objects.

Definition ref := nat.

(** A value as a variable or an entry holds it: a scalar, or a reference
    to a container object.  [VOther] is a scalar of a type that
    [json.dumps] does not serialise: a date, a time, bytes. *)
Inductive value : Type :=
| VNull
| VBool (b : bool)
| VInt (z : Z)
| VFloat (repr : string)
| VStr (s : string)
| VOther (repr : string)
| VRef (r : ref).

(** A key of a dict.  A key that is a number, a truth value or [None]
    is held as the string that [json.dumps] writes for it: the code
    looks entries up under ['steps'] and ['run'] only, which no such key
    equals.  [KOther] is a key of a type that [json.dumps] refuses: a
    date, a tuple, bytes. *)
Inductive key : Type :=
| KStr (s : string)
| KOther (repr : string).

Definition key_is (s : string) (k : key) : bool :=
  match k with
  | KStr x => String.eqb x s
  | KOther _ => false
  end.

(** The containers [yaml.safe_load] builds: dicts and lists, and, for
    the tags [!!set], [!!omap] and [!!pairs], sets and tuples.  The
    entries of a dict are in the order of the document. *)
Inductive object : Type :=
| ODict (entries : list (key * value))
| OList (items : list value)
| OTuple (items : list value)
| OSet (items : list value).

(** The object of reference [r] is at position [r]. *)
Definition store := list object.

Definition deref (h : store) (r : ref) : option object := nth_error h r.

(** The store with the object of reference [r] replaced. *)
Fixpoint put (r : ref) (o : object) (h : store) : store :=
  match h, r with
  | [], _ => []
  | _ :: h', O => o :: h'
  | x :: h', S r' => x :: put r' o h'
  end.

(** [d.get(key)] on the entries of a dict object *)
Fixpoint lookup (name : string) (d : list (key * value)) : option value :=
  match d with
  | [] => None
  | (k, v) :: d' => if key_is name k then Some v else lookup name d'
  end.

(** [d[key] = v] on the entries: an existing key keeps its position, a
    new key goes last. *)
Fixpoint assign (name : string) (v : value) (d : list (key * value))
  : list (key * value) :=
  match d with
  | [] => [(KStr name, v)]
  | (k, w) :: d' =>
      if key_is name k then (k, v) :: d' else (k, w) :: assign name v d'
  end.

Definition is_str (s : string) (v : value) : bool :=
  match v with
  | VStr x => String.eqb x s
  | _ => false
  end.

(** [key in v] for a string [key]; a reference always has its object in
    the store it comes with. *)
Definition contains_key (h : store) (key : string) (v : value) : result bool :=
  match v with
  | VStr s => Ok (contains key s)
  | VRef r =>
      match deref h r with
      | Some (ODict d) =>
          Ok (match lookup key d with Some _ => true | None => false end)
      | Some (OList items) | Some (OTuple items) | Some (OSet items) =>
          Ok (existsb (is_str key) items)
      | None => Raise TypeError
      end
  | VNull | VBool _ | VInt _ | VFloat _ | VOther _ => Raise TypeError
  end.

(** [v[key]] for a string [key] *)
Definition getitem (h : store) (key : string) (v : value) : result value :=
  match v with
  | VRef r =>
      match deref h r with
      | Some (ODict d) =>
          match lookup key d with
          | Some x => Ok x
          | None => Raise (KeyError key)
          end
      | _ => Raise TypeError
      end
  | _ => Raise TypeError
  end.

(** [v.items()] *)
Definition items (h : store) (v : value) : result (list (key * value)) :=
  match v with
  | VRef r =>
      match deref h r with
      | Some (ODict d) => Ok d
      | _ => Raise AttributeError
      end
  | _ => Raise AttributeError
  end.

(** [v[key] = x] for a string [key]: the dict object that [v] refers to
    is changed, for everyone who holds a reference to it. *)
Definition setitem (h : store) (key : string) (x : value) (v : value)
  : result store :=
  match v with
  | VRef r =>
      match deref h r with
      | Some (ODict d) => Ok (put r (ODict (assign key x d)) h)
      | _ => Raise TypeError
      end
  | _ => Raise TypeError
  end.

(** What [json.dumps] reads off a value: the tree below it, an object
    that is referred to twice read twice and a tuple read as a list.  A
    scalar or a key that JSON cannot express, or a set, is a
    [TypeError]; an object that contains itself is a [ValueError] (the
    circular reference check): [fuel] bounds the number of objects on
    the way down, and a way down that is longer than the store has
    objects goes through one of them twice.  A key is looked at before
    its value, as [json.dumps] does. *)
Fixpoint tree (fuel : nat) (h : store) (v : value) : result json :=
  match v with
  | VNull => Ok JNull
  | VBool b => Ok (JBool b)
  | VInt z => Ok (JInt z)
  | VFloat repr => Ok (JFloat repr)
  | VStr s => Ok (JStr s)
  | VOther _ => Raise TypeError
  | VRef r =>
      match fuel with
      | O => Raise ValueError
      | S fuel' =>
          match deref h r with
          | Some (ODict d) =>
              entries <- mapM (fun kv =>
                                 match fst kv with
                                 | KStr k =>
                                     t <- tree fuel' h (snd kv) ;; Ok (k, t)
                                 | KOther _ => Raise TypeError
                                 end) d ;;
              Ok (JDict entries)
          | Some (OList l) | Some (OTuple l) =>
              elements <- mapM (tree fuel' h) l ;;
              Ok (JList elements)
          | Some (OSet _) | None => Raise TypeError
          end
      end
  end.

End Objects.

(** ** Parsers and codecs outside the back end *)

(** [yaml.safe_load], [json.loads], [json.dumps] and [bytes.decode] belong
    to the Python libraries; the back end only calls them.
    [yaml_safe_load] is the call as the code that only reads the
    document sees it; [yaml_safe_load_objects] is the same call with
    the objects it builds, for the code that changes them; the document
    that the first gives is the tree of the objects that the second
    gives ([yaml_safe_load_view]).  [json_dumps] is the printer on
    trees; on objects it is applied to [Objects.tree]. *)
Class Externals : Type := {
  yaml_safe_load : string -> result json;
  yaml_safe_load_objects : string -> result (Objects.store * Objects.value);
  json_loads : string -> result json;
  json_dumps : json -> string;
  decode_utf8 : string -> result string;
  yaml_safe_load_view :
    forall text doc,
      yaml_safe_load text = Ok doc ->
      exists h v,
        yaml_safe_load_objects text = Ok (h, v)
        /\ Objects.tree (List.length h) h v = Ok doc
}.

(** ** Operations on untyped values *)

Fixpoint json_eqb (a b : json) {struct a} : bool :=
  match a, b with
  | JNull, JNull => true
  | JBool x, JBool y => Bool.eqb x y
  | JInt x, JInt y => Z.eqb x y
  | JFloat x, JFloat y => String.eqb x y
  | JStr x, JStr y => String.eqb x y
  | JList xs, JList ys =>
      (fix go (xs ys : list json) : bool :=
         match xs, ys with
         | [], [] => true
         | x :: xs', y :: ys' => json_eqb x y && go xs' ys'
         | _, _ => false
         end) xs ys
  | JDict xs, JDict ys =>
      (fix go (xs ys : list (string * json)) : bool :=
         match xs, ys with
         | [], [] => true
         | (k, x) :: xs', (l, y) :: ys' =>
             String.eqb k l && json_eqb x y && go xs' ys'
         | _, _ => false
         end) xs ys
  | _, _ => false
  end.

(** [v[key]] for a string [key] *)
Definition py_getitem (key : string) (v : json) : result json :=
  match v with
  | JDict d => Dict.getitem key d
  | _ => Raise TypeError
  end.

(** [v.get(key)], [None] when absent *)
Definition py_get (key : string) (v : json) : result json :=
  match v with
  | JDict d => Ok (match Dict.get key d with Some x => x | None => JNull end)
  | _ => Raise AttributeError
  end.

(** ** [remote_api.py] *)

Definition CERISE_API : string := "$CERISE_API".
Definition CERISE_USERNAME : string := "$CERISE_USERNAME".
Definition CERISE_API_FILES : string := "$CERISE_API_FILES".

Module RemoteApi.
Section WithExternals.
Context {ext : Externals}.

Record Config : Type := mkConfig {
  get_username : option string;
  get_basedir : Cerulean.Path
}.

Record t : Type := mkRemoteApi {
  _username : option string;
  _basedir : Cerulean.Path;
  _api_dir : Cerulean.Path
}.

(** [RemoteApi.__init__(config)], run against the remote file system
    [fs]. *)
Definition __init__ (config : Config) (fs : Cerulean.FileSystem)
  : result (t * Cerulean.FileSystem) :=
  let basedir := get_basedir config in
  let api_dir := Cerulean.div basedir "api" in
  fs' <- Cerulean.mkdir fs api_dir 488 (* 0o750 *) true true ;;
  Ok (mkRemoteApi (get_username config) basedir api_dir, fs').

(** [_make_remote_project(name)] *)
Definition _make_remote_project (self : t) (name : string)
           (fs : Cerulean.FileSystem)
  : result (Cerulean.Path * Cerulean.FileSystem) :=
  let remote_project_dir := Cerulean.div (_api_dir self) name in
  fs' <- Cerulean.mkdir fs remote_project_dir 448 (* 0o700 *) false true ;;
  Ok (remote_project_dir, fs').

(** [translate_runner_location(runner_location)] *)
Definition translate_runner_location (self : t) (runner_location : string)
  : string :=
  let actual_location :=
    replace CERISE_API (Cerulean.str (_api_dir self)) runner_location in
  match _username self with
  | Some (String c u) =>
      replace CERISE_USERNAME (String c u) actual_location
  | _ => actual_location
  end.

(** [json.dumps(v)] for a value whose objects are in [h]. *)
Definition dumps (h : Objects.store) (v : Objects.value) : result string :=
  t <- Objects.tree (List.length h) h v ;;
  Ok (json_dumps t).

(** The body of the loop of [translate_workflow] for one step: the step
    object is changed in place. *)
Definition translate_step (self : t) (h : Objects.store)
           (step : Objects.value) : result Objects.store :=
  run <- Objects.getitem h "run" step ;;
  match run with
  | Objects.VStr r =>
      let step_parts := split "/" r in
      let project := hd "" step_parts in
      let steps_dir :=
        Cerulean.div (Cerulean.div (_api_dir self) project) "steps" in
      Objects.setitem h "run"
        (Objects.VStr (Cerulean.str steps_dir ++ "/" ++ join "/" step_parts))
        step
  | _ => Raise (RuntimeError "Invalid step in workflow")
  end.

(** The loop over [workflow['steps'].items()].  The items are taken
    once: the loop changes no entry of the mapping it runs over, except
    that, when the mapping is one of its own steps, it replaces the
    string under [run] by another string; and a step that is a string
    ends the loop with [TypeError] whichever string it is. *)
Fixpoint translate_steps (self : t) (items : list (Objects.key * Objects.value))
         (h : Objects.store) : result Objects.store :=
  match items with
  | [] => Ok h
  | (_, step) :: rest =>
      h' <- translate_step self h step ;;
      translate_steps self rest h'
  end.

(** [translate_workflow(workflow_content)].  [json.dumps] escapes every
    non-ASCII character, so encoding its result is the identity. *)
Definition translate_workflow (self : t) (workflow_content : string)
  : result string :=
  text <- decode_utf8 workflow_content ;;
  loaded <- yaml_safe_load_objects text ;;
  let '(h, workflow) := loaded in
  has_steps <- Objects.contains_key h "steps" workflow ;;
  if negb has_steps then Raise (RuntimeError "Workflow contains no steps")
  else
    steps <- Objects.getitem h "steps" workflow ;;
    items <- Objects.items h steps ;;
    h' <- translate_steps self items h ;;
    dumps h' workflow.

(** One iteration of the loop over [cwlfile['arguments']]. *)
Definition translate_argument (files_dir : Cerulean.Path) (argument : json)
  : result json :=
  match argument with
  | JStr a => Ok (JStr (replace CERISE_API_FILES (Cerulean.str files_dir) a))
  | JList _ | JDict _ | JNull | JBool _ | JInt _ | JFloat _ =>
      Raise AttributeError
  end.

(** [_translate_api_step(workflow_path, remote_project_dir)]; [text] is
    what [workflow_path.read_text()] returned.  The message of the
    error for a non-list [arguments] mentions [filename], a name that
    is bound neither in the method nor in the module. *)
Definition _translate_api_step (text : string)
           (remote_project_dir : Cerulean.Path) : result json :=
  let files_dir := Cerulean.div remote_project_dir "files" in
  cwlfile <- yaml_safe_load text ;;
  cls <- py_get "class" cwlfile ;;
  match cwlfile with
  | JDict d =>
      if json_eqb cls (JStr "CommandLineTool") then
        d1 <- match Dict.get "baseCommand" d with
              | None => Ok d
              | Some (JStr bc) =>
                  if startswith (lstrip bc) CERISE_API_FILES
                  then Ok (Dict.set "baseCommand"
                             (JStr (replace_n CERISE_API_FILES
                                      (Cerulean.str files_dir) 1 bc)) d)
                  else Ok d
              | Some _ => Raise AttributeError
              end ;;
        d2 <- match Dict.get "arguments" d1 with
              | None => Ok d1
              | Some (JList arguments) =>
                  newargs <- mapM (translate_argument files_dir) arguments ;;
                  Ok (Dict.set "arguments" (JList newargs) d1)
              | Some _ => Raise (NameError "filename")
              end ;;
        Ok (JDict d2)
      else Ok cwlfile
  | _ => Ok cwlfile
  end.

End WithExternals.
End RemoteApi.

(** ** [remote_job_files.py] *)

(** Characters the regular expression [[^a-zA-Z0-9_.-]] does not match. *)
Definition safe_char (c : ascii) : bool :=
  let n := nat_of_ascii c in
  (((97 <=? n) && (n <=? 122)) || ((65 <=? n) && (n <=? 90))
   || ((48 <=? n) && (n <=? 57))
   || (n =? 95) || (n =? 46) || (n =? 45))%nat.

(** [re.compile('[^a-zA-Z0-9_.-]+').sub('_', s)]: every maximal run of
    unsafe characters becomes one underscore; [in_run] holds inside such a
    run. *)
Fixpoint sub_unsafe (in_run : bool) (s : string) : string :=
  match s with
  | EmptyString => EmptyString
  | String c s' =>
      if safe_char c then String c (sub_unsafe false s')
      else if in_run then sub_unsafe true s'
           else String "_" (sub_unsafe true s')
  end.

(** [_create_input_filename(unique_prefix, orig_path)].  The four
    [result.replace(...)] statements discard their value and leave
    [result] as it was. *)
Definition _create_input_filename (unique_prefix orig_path : string) : string :=
  let result := orig_path in
  let result := sub_unsafe false result in
  let result :=
    if (39 <? String.length result)%nat
    then take 18 result ++ "___" ++ take_last 18 result
    else result in
  unique_prefix ++ "_" ++ result.

Module RemoteJobFiles.
Section WithExternals.
Context {ext : Externals}.

(** The fields of a job record that staging and polling touch.
    [debug_calls] lists the arguments of the calls [job.debug(...)], the
    oldest first; the job class itself belongs to the job store. *)
Record Job : Type := mkJob {
  name : string;
  remote_output : string;
  remote_error : string;
  debug_calls : list (list string)
}.

Definition set_remote_output (v : string) (job : Job) : Job :=
  mkJob (name job) v (remote_error job) (debug_calls job).
Definition set_remote_error (v : string) (job : Job) : Job :=
  mkJob (name job) (remote_output job) v (debug_calls job).
Definition debug (message : list string) (job : Job) : Job :=
  mkJob (name job) (remote_output job) (remote_error job)
        (debug_calls job ++ [message])%list.

Record t : Type := mkRemoteJobFiles {
  _username : option string;
  _basedir : Cerulean.Path
}.

(** What [destage_job_output] returns for one file: the resolved file
    with its [location] made relative and a [source] attribute added. *)
Record OutputFile : Type := mkOutputFile {
  file_name : option string;
  location : string;
  content : option string;
  secondary_files : list InputFile;
  source : Cerulean.Path
}.

(** [_abs_path(job_id, rel_path)] *)
Definition _abs_path (self : t) (job_id rel_path : string) : Cerulean.Path :=
  let ret := Cerulean.div (Cerulean.div (_basedir self) "jobs") job_id in
  if negb (String.eqb rel_path "") then Cerulean.div ret rel_path else ret.

(** [_read_remote_file(job_id, rel_path)] *)
Definition _read_remote_file (self : t) (fs : Cerulean.FileSystem)
           (job_id rel_path : string) : result string :=
  match Cerulean.read_bytes fs (_abs_path self job_id rel_path) with
  | Raise FileNotFoundError => Ok EmptyString
  | r => r
  end.

(** The loop of [destage_job_output] over the resolved files. *)
Fixpoint destage_files (work_dir : Cerulean.Path) (fs : list InputFile)
  : result (list OutputFile) :=
  match fs with
  | [] => Ok []
  | output_file :: rest =>
      let pfx := "file://" ++ Cerulean.str work_dir ++ "/" in
      match if_location output_file with
      | JStr loc =>
          if negb (startswith loc pfx)
          then Raise (UnexpectedOutputLocation loc pfx)
          else
            let loc' := drop (String.length pfx) loc in
            tl <- destage_files work_dir rest ;;
            Ok (mkOutputFile (if_name output_file) loc'
                             (if_content output_file)
                             (if_secondary_files output_file)
                             (Cerulean.div work_dir loc') :: tl)
      | _ => Raise AttributeError
      end
  end.

Definition work_dir_of (self : t) (job_id : string) : Cerulean.Path :=
  Cerulean.div (Cerulean.div (Cerulean.div (_basedir self) "jobs") job_id)
               "work".

(** [destage_job_output(job_id)], [job] being the record the store
    returns for [job_id]. *)
Definition destage_job_output (self : t) (job_id : string) (job : Job)
  : result (list OutputFile) :=
  let work_dir := work_dir_of self job_id in
  if negb (String.eqb (remote_output job) "") then
    outputs <- json_loads (remote_output job) ;;
    resolved <- get_files_from_binding outputs ;;
    destage_files work_dir resolved
  else Ok [].

(** [update_job(job_id)]: the job record as the call leaves it, and how
    the call ended. *)
Definition update_job (self : t) (fs : Cerulean.FileSystem)
           (job_id : string) (job : Job) : Job * result unit :=
  match _read_remote_file self fs job_id "stdout.txt" with
  | Raise e => (job, Raise e)
  | Ok output =>
      let after_output :=
        if (0 <? String.length output)%nat
        then match decode_utf8 output with
             | Ok text => (set_remote_output text job, Ok tt)
             | Raise e => (job, Raise e)
             end
        else (job, Ok tt) in
      match after_output with
      | (job1, Raise e) => (job1, Raise e)
      | (job1, Ok _) =>
          match _read_remote_file self fs job_id "stderr.txt" with
          | Raise e => (job1, Raise e)
          | Ok log =>
              if (0 <? String.length log)%nat
              then match decode_utf8 log with
                   | Raise e => (job1, Raise e)
                   | Ok text =>
                       let lines := splitlines text in
                       let last_lines := splitlines (remote_error job1) in
                       let first_new_line := List.length last_lines in
                       let job2 := debug (skipn first_new_line lines) job1 in
                       (set_remote_error text job2, Ok tt)
                   end
              else (job1, Ok tt)
          end
      end
  end.

End WithExternals.
End RemoteJobFiles.

(** * Further parts of the back end *)

(** ** [cwl.py]: workflow inspection *)

Section WorkflowInspection.
Context {ext : Externals}.

(** [is_workflow(workflow_content)] *)
Definition is_workflow (workflow_content : string) : result bool :=
  workflow <- yaml_safe_load workflow_content ;;
  process_class <- py_get "class" workflow ;;
  Ok (json_eqb process_class (JStr "Workflow")).

(** [get_required_num_cores(workflow_content)]; the value of a hint is
    returned as it stands in the document. *)
Definition get_required_num_cores (workflow_content : string) : result json :=
  workflow <- yaml_safe_load workflow_content ;;
  hints <- py_get "hints" workflow ;;
  match hints with
  | JNull => Ok (JInt 0)
  | _ =>
      resource_requirement <- py_get "ResourceRequirement" hints ;;
      match resource_requirement with
      | JNull => Ok (JInt 0)
      | _ =>
          cores_min <- py_get "coresMin" resource_requirement ;;
          cores_max <- py_get "coresMax" resource_requirement ;;
          match cores_min with
          | JNull =>
              match cores_max with
              | JNull => Ok (JInt 0)
              | _ => Ok cores_max
              end
          | _ => Ok cores_min
          end
      end
  end.

End WorkflowInspection.

(** ** [remote_api.py], [remote_job_files.py]: directories *)

Module CeruleanTree.

(** [p] is [q] or an ancestor of [q]. *)
Fixpoint is_prefix (p q : Cerulean.Path) : bool :=
  match p, q with
  | [], _ => true
  | _ :: _, [] => false
  | a :: p', b :: q' => String.eqb a b && is_prefix p' q'
  end.

(** The file system without the directory [q] and everything below
    it. *)
Definition prune (fs : Cerulean.FileSystem) (q : Cerulean.Path)
  : Cerulean.FileSystem :=
  Cerulean.mkFS
    (filter (fun d => negb (is_prefix q d)) (Cerulean.dirs fs))
    (filter (fun fd => negb (is_prefix q (fst fd))) (Cerulean.files fs)).

(** Modelled from the spec: [rmdir(recursive)] of the file system
    capability of section 6, as [pathlib] and cerulean have it: the
    directory the path leads to goes with everything below it; a path
    that does not lead to a directory is an error. *)
Definition rmdir_recursive (fs : Cerulean.FileSystem) (p : Cerulean.Path)
  : result Cerulean.FileSystem :=
  match Cerulean.resolve fs p with
  | Cerulean.At q =>
      if Cerulean.is_file fs q then Raise NotADirectoryError
      else if Cerulean.is_dir fs q then Ok (prune fs q)
      else Raise FileNotFoundError
  | Cerulean.NoEntry => Raise FileNotFoundError
  | Cerulean.NotADirectory => Raise NotADirectoryError
  end.

End CeruleanTree.

(** [RemoteJobFiles.delete_job(job_id)] *)
Definition delete_job (self : RemoteJobFiles.t) (job_id : string)
           (fs : Cerulean.FileSystem) : result Cerulean.FileSystem :=
  let job_dir := RemoteJobFiles._abs_path self job_id "" in
  if Cerulean.exists_ fs job_dir
  then CeruleanTree.rmdir_recursive fs job_dir
  else Ok fs.

(** ** [remote_job_files.py]: staging *)

Module Staging.

(** Modelled from the spec: [cerise/back_end/file.py] is not among the
    sources.  These are the attributes [stage_job] and
    [_stage_input_file] read: the fields of the input file of section 3
    (name, index, location, secondary files) and the local [source] the
    file is copied from. *)
#[warnings="-register-all"]
Inductive File : Type :=
| mkFile (name : option string) (index : option nat) (location : string)
         (source : Cerulean.Path) (secondary_files : list File).

Definition file_name (f : File) : option string :=
  let 'mkFile n _ _ _ _ := f in n.
Definition file_index (f : File) : option nat :=
  let 'mkFile _ i _ _ _ := f in i.
Definition file_location (f : File) : string :=
  let 'mkFile _ _ l _ _ := f in l.
Definition file_source (f : File) : Cerulean.Path :=
  let 'mkFile _ _ _ s _ := f in s.
Definition file_secondary_files (f : File) : list File :=
  let 'mkFile _ _ _ _ s := f in s.

(** The exceptions of the first part and the one that indexing a list
    adds. *)
Inductive failure : Type :=
| Python (e : exn)
| IndexError.

Inductive outcome (A : Type) : Type :=
| Done (a : A)
| Fail (f : failure).
Arguments Done {A} a.
Arguments Fail {A} f.

Definition and_then {A B} (r : outcome A) (k : A -> outcome B) : outcome B :=
  match r with
  | Done a => k a
  | Fail f => Fail f
  end.

Notation "x <~ r ;; k" := (and_then r (fun x => k))
  (at level 61, r at next level, right associativity).
Notation "' p <~ r ;; k" := (and_then r (fun x => let 'p := x in k))
  (at level 61, p pattern, r at next level, right associativity).

Definition lift {A} (r : result A) : outcome A :=
  match r with
  | Ok a => Done a
  | Raise e => Fail (Python e)
  end.

(** [str(n)] for a count that is not negative. *)
Definition str_of_nat (n : nat) : string :=
  DecimalString.NilZero.string_of_uint (Nat.to_uint n).

Fixpoint zeros (k : nat) : string :=
  match k with
  | O => EmptyString
  | S k' => String "0" (zeros k')
  end.

(** [s.zfill(width)]: zeros go after a leading sign. *)
Definition zfill (width : nat) (s : string) : string :=
  let fill := zeros (width - String.length s) in
  match s with
  | String c s' =>
      if Ascii.eqb c "+" || Ascii.eqb c "-"
      then String c (fill ++ s')
      else fill ++ s
  | EmptyString => fill
  end.

(** [v[i]] for an integer [i] that is not negative. *)
Definition py_index (i : nat) (v : json) : outcome json :=
  match v with
  | JList items =>
      match nth_error items i with
      | Some x => Done x
      | None => Fail IndexError
      end
  | JStr s =>
      match String.get i s with
      | Some c => Done (JStr (String c EmptyString))
      | None => Fail IndexError
      end
  | JDict _ => Fail (Python (KeyError (str_of_nat i)))
  | JNull | JBool _ | JInt _ | JFloat _ => Fail (Python TypeError)
  end.

(** [v[key] = x] for a string [key]: only a dict takes it. *)
Definition py_setitem (key : string) (x : json) (v : json) : outcome json :=
  match v with
  | JDict d => Done (JDict (Dict.set key x d))
  | _ => Fail (Python TypeError)
  end.

(** The list with its item [i] replaced; the counterpart, on values, of
    changing in place an object that the list holds. *)
Fixpoint list_put {A} (i : nat) (x : A) (l : list A) : list A :=
  match l, i with
  | [], _ => []
  | _ :: l', O => x :: l'
  | y :: l', S i' => y :: list_put i' x l'
  end.

Definition put_index (i : nat) (x : json) (v : json) : json :=
  match v with
  | JList items => JList (list_put i x items)
  | _ => v
  end.

(** The remote side as staging sees it: cerulean's [copy], [mkdir] and
    [write_bytes] on some state of the remote resource, and the UTF-8
    encoder. *)
Class Remote : Type := {
  world : Type;
  copy : Cerulean.Path -> Cerulean.Path -> world -> result world;
  mkdir : Cerulean.Path -> nat -> bool -> bool -> world -> result world;
  write_bytes : Cerulean.Path -> string -> world -> result world;
  encode_utf8 : string -> string
}.

Section WithRemote.
Context {ext : Externals} {rem : Remote}.

(** The remote resource together with a record of what staging asked of
    it: the calls of [cerulean.copy] (source, target), the files written,
    and the messages given to [job.info], all oldest first. *)
Record state : Type := mkState {
  remote : world;
  copied : list (Cerulean.Path * Cerulean.Path);
  written : list (Cerulean.Path * string);
  info_calls : list string
}.

Definition info (message : string) (st : state) : state :=
  mkState (remote st) (copied st) (written st) (info_calls st ++ [message])%list.

Definition do_copy (src dst : Cerulean.Path) (st : state) : outcome state :=
  w <~ lift (copy src dst (remote st)) ;;
  Done (mkState w (copied st ++ [(src, dst)])%list (written st) (info_calls st)).

Definition do_mkdir (p : Cerulean.Path) (mode : nat) (parents exists_ok : bool)
           (st : state) : outcome state :=
  w <~ lift (mkdir p mode parents exists_ok (remote st)) ;;
  Done (mkState w (copied st) (written st) (info_calls st)).

Variable self : RemoteJobFiles.t.

(** [_add_file_to_job(job_id, rel_path, data)] *)
Definition _add_file_to_job (job_id rel_path data : string) (st : state)
  : outcome state :=
  let remote_path := RemoteJobFiles._abs_path self job_id rel_path in
  w <~ lift (write_bytes remote_path data (remote st)) ;;
  Done (mkState w (copied st) (written st ++ [(remote_path, data)])%list
                (info_calls st)).

(** The loop over [input_file.secondary_files] in [_stage_input_file];
    [stage_one] is the recursive call and [i] the position of the head of
    [files]. *)
Definition stage_secondary_files
           (stage_one : nat -> File -> json -> state
                        -> outcome (nat * json * state))
  : nat -> list File -> nat -> json -> state -> outcome (nat * json * state) :=
  fix loop (i : nat) (files : list File) (count : nat) (input_desc : json)
           (st : state) : outcome (nat * json * state) :=
    match files with
    | [] => Done (count, input_desc, st)
    | secondary_file :: rest =>
        sfs <~ lift (py_getitem "secondaryFiles" input_desc) ;;
        sec_input_desc <~ py_index i sfs ;;
        '(count', sec_input_desc', st') <~
          stage_one count secondary_file sec_input_desc st ;;
        input_desc' <~ py_setitem "secondaryFiles"
                         (put_index i sec_input_desc' sfs) input_desc ;;
        loop (S i) rest count' input_desc' st'
    end.

(** [_stage_input_file(count, job_id, input_file, input_desc)]: the new
    count, the input description as the call leaves it, and the state.
    When the call raises, what it had done by then is not reported. *)
Fixpoint _stage_input_file (count : nat) (job_id : string) (input_file : File)
         (input_desc : json) (st : state) {struct input_file}
  : outcome (nat * json * state) :=
  match input_file with
  | mkFile _ _ location source secondary_files =>
      let staged_name :=
        _create_input_filename (zfill 2 (str_of_nat count)) location in
      let count := S count in
      let st := info ("Staging input file " ++ location) st in
      let target_path :=
        RemoteJobFiles._abs_path self job_id ("work/" ++ staged_name) in
      st <~ do_copy source target_path st ;;
      input_desc <~
        py_setitem "location"
          (JStr (Cerulean.str
                   (RemoteJobFiles._abs_path self job_id
                                             ("work/" ++ staged_name))))
          input_desc ;;
      stage_secondary_files
        (fun c f d s => _stage_input_file c job_id f d s)
        0 secondary_files count input_desc st
  end.

(** The loop of [stage_job] over [input_files]. *)
Fixpoint stage_input_files (count : nat) (job_id : string)
         (input_files : list File) (inputs : json) (st : state)
  : outcome (nat * json * state) :=
  match input_files with
  | [] => Done (count, inputs, st)
  | input_file :: rest =>
      match file_name input_file with
      | None =>
          match inputs with
          | JDict _ => Fail (Python (KeyError "None"))
          | _ => Fail (Python TypeError)
          end
      | Some name =>
          entry <~ lift (py_getitem name inputs) ;;
          '(count', entry', st') <~
            match file_index input_file with
            | Some index =>
                input_desc <~ py_index index entry ;;
                '(count', input_desc', st') <~
                  _stage_input_file count job_id input_file input_desc st ;;
                Done (count', put_index index input_desc' entry, st')
            | None => _stage_input_file count job_id input_file entry st
            end ;;
          inputs' <~ py_setitem name entry' inputs ;;
          stage_input_files count' job_id rest inputs' st'
      end
  end.

(** The fields of a job record that [stage_job] reads and sets. *)
Record Job : Type := mkJob {
  name : string;
  local_input : string;
  remote_workdir_path : string;
  remote_workflow_path : string;
  remote_input_path : string;
  remote_stdout_path : string;
  remote_stderr_path : string;
  remote_system_out_path : string;
  remote_system_err_path : string
}.

(** [stage_job(job_id, input_files, workflow_content)], [job] being the
    record the store returns for [job_id]. *)
Definition stage_job (job_id : string) (input_files : list File)
           (workflow_content : string) (job : Job) (st : state)
  : outcome (Job * state) :=
  let path rel := Cerulean.str (RemoteJobFiles._abs_path self job_id rel) in
  st <~ do_mkdir (RemoteJobFiles._abs_path self job_id "") 448 true true st ;;
  st <~ do_mkdir (RemoteJobFiles._abs_path self job_id "work") 448 true true st ;;
  st <~ _add_file_to_job job_id "name.txt" (encode_utf8 (name job)) st ;;
  st <~ _add_file_to_job job_id "workflow.cwl" workflow_content st ;;
  inputs <~ lift (json_loads (local_input job)) ;;
  '(count, inputs', st) <~ stage_input_files 1 job_id input_files inputs st ;;
  let inputs_json := encode_utf8 (json_dumps inputs') in
  st <~ _add_file_to_job job_id "input.json" inputs_json st ;;
  Done (mkJob (name job) (local_input job)
              (path "work") (path "workflow.cwl") (path "input.json")
              (path "stdout.txt") (path "stderr.txt")
              (path "sysout.txt") (path "syserr.txt"),
        st).

End WithRemote.
End Staging.

(** ** [default_controller.py]: cancelling and deleting *)

Module Controller.

Definition JobState_eqb (a b : JobState) : bool :=
  match a, b with
  | SUBMITTED, SUBMITTED | STAGING_IN, STAGING_IN | WAITING, WAITING
  | RUNNING, RUNNING | FINISHED, FINISHED | STAGING_OUT, STAGING_OUT
  | SUCCESS, SUCCESS | PERMANENT_FAILURE, PERMANENT_FAILURE
  | TEMPORARY_FAILURE, TEMPORARY_FAILURE | SYSTEM_ERROR, SYSTEM_ERROR
  | CANCELLED, CANCELLED | STAGING_IN_CR, STAGING_IN_CR
  | WAITING_CR, WAITING_CR | RUNNING_CR, RUNNING_CR
  | STAGING_OUT_CR, STAGING_OUT_CR => true
  | _, _ => false
  end.

(** The fields of a stored job that the two requests change. *)
Record Job : Type := mkJob {
  state : JobState;
  please_delete : bool
}.

(** Modelled from the spec: [Job.try_transition] belongs to the job
    store, which is not among the sources.  Section 4.7: a transition
    attempt names a required current state and a target state, and does
    nothing when the job is not in the required state. *)
Definition try_transition (from_state to_state : JobState) (job : Job) : Job :=
  if JobState_eqb (state job) from_state
  then mkJob to_state (please_delete job)
  else job.

(** What [cancel_job_by_id(jobId)] does to the stored job it finds. *)
Definition cancel_job_by_id (job : Job) : Job :=
  let job := try_transition SUBMITTED CANCELLED job in
  let job := try_transition STAGING_IN STAGING_IN_CR job in
  let job := try_transition WAITING WAITING_CR job in
  let job := try_transition RUNNING RUNNING_CR job in
  let job := try_transition FINISHED CANCELLED job in
  let job := try_transition STAGING_OUT STAGING_OUT_CR job in
  job.

(** What [delete_job_by_id(jobId)] does to the stored job it finds. *)
Definition delete_job_by_id (job : Job) : Job :=
  let job := cancel_job_by_id job in
  mkJob (state job) true.

End Controller.

(** * Vocabulary of the properties *)

(** [occurs m log]: the marker [m] is a substring of [log]. *)
Definition occurs (m log : string) : Prop := exists a b, log = a ++ m ++ b.

(** A File object as it appears in a binding. *)
Definition File_object (location : string) : json :=
  JDict [("class", JStr "File"); ("location", JStr location)].

(** A Directory object sits in a secondaryFiles list, at the top or below
    File objects. *)
Inductive directory_within : json -> Prop :=
| directory_here (items : list json) (d : Dict.t) :
    In (JDict d) items ->
    class_is "File" d = false -> class_is "Directory" d = true ->
    directory_within (JList items)
| directory_below (items : list json) (d : Dict.t) (sub : json) :
    In (JDict d) items ->
    class_is "File" d = true ->
    Dict.get "secondaryFiles" d = Some sub ->
    directory_within sub ->
    directory_within (JList items).

(** The characters of [r] before its first slash. *)
Fixpoint first_segment (r : string) : string :=
  match r with
  | EmptyString => EmptyString
  | String a r' =>
      if Ascii.eqb a "/" then EmptyString else String a (first_segment r')
  end.

(** What a step reference [r] is rewritten to: the [steps] directory of
    the project named by the first segment of [r], a slash, and all of
    [r]. *)
Definition installed_run (self : RemoteApi.t) (r : string) : string :=
  Cerulean.str
    (Cerulean.div (Cerulean.div (RemoteApi._api_dir self) (first_segment r))
                  "steps")
  ++ "/" ++ r.

(** A step that is a mapping object with a string [run] reference. *)
Definition step_with_run (h : Objects.store) (kv : Objects.key * Objects.value)
  : Prop :=
  exists a sd r,
    snd kv = Objects.VRef a
    /\ Objects.deref h a = Some (Objects.ODict sd)
    /\ Objects.lookup "run" sd = Some (Objects.VStr r).

(** The objects that are steps, in the order of the steps. *)
Definition step_refs (steps : list (Objects.key * Objects.value))
  : list Objects.ref :=
  flat_map (fun kv => match snd kv with
                      | Objects.VRef a => [a]
                      | _ => []
                      end) steps.

(** No dollar sign in [s]: no macro token starts inside [s]. *)
Fixpoint no_dollar (s : string) : bool :=
  match s with
  | EmptyString => true
  | String c s' => negb (Ascii.eqb c "$") && no_dollar s'
  end.

(** [old] occurs in [s] right after [a] and not before: [s] is [a], [old]
    and [b], and no occurrence of [old] starts further left. *)
Definition first_occurrence (old a b s : string) : Prop :=
  s = a ++ old ++ b
  /\ forall a' b', s = a' ++ old ++ b' -> String.length a <= String.length a'.

(** [t] is [s] with occurrences of [old] replaced by [new]: the
    occurrences are found from left to right, each search starting
    after the occurrence found before; all of them are replaced when
    [limit] is [None], the first [n] when it is [Some n]. *)
Inductive substituted (old new : string)
  : option nat -> string -> string -> Prop :=
| substituted_done (limit : option nat) (s : string) :
    ~ occurs old s -> substituted old new limit s s
| substituted_limit (s : string) : substituted old new (Some 0) s s
| substituted_next (limit : option nat) (a b t s : string) :
    limit <> Some 0 ->
    first_occurrence old a b s ->
    substituted old new (option_map Nat.pred limit) b t ->
    substituted old new limit s (a ++ new ++ t).

Fixpoint all_space (s : string) : bool :=
  match s with
  | EmptyString => true
  | String c s' => isspace c && all_space s'
  end.

(** Every directory of the file system has its parent in it. *)
Definition closed_under_parent (fs : Cerulean.FileSystem) : bool :=
  forallb (fun p => Cerulean.is_dir fs (Cerulean.parent p)) (Cerulean.dirs fs).

(** The prefix every output location must have: [file://], the work
    directory of the job, and a slash. *)
Definition output_prefix (self : RemoteJobFiles.t) (job_id : string) : string :=
  "file://" ++ Cerulean.str (RemoteJobFiles.work_dir_of self job_id) ++ "/".

Definition has_string_location (f : InputFile) : Prop :=
  exists loc, if_location f = JStr loc.

Definition inside (pfx : string) (f : InputFile) : Prop :=
  exists rel, if_location f = JStr (pfx ++ rel).

(** [o] is the resolved file [f] with its location made relative to the
    work directory and the remote source path attached. *)
Definition destaged (pfx : string) (work_dir : Cerulean.Path)
           (f : InputFile) (o : RemoteJobFiles.OutputFile) : Prop :=
  if_location f = JStr (pfx ++ RemoteJobFiles.location o)
  /\ RemoteJobFiles.file_name o = if_name f
  /\ RemoteJobFiles.content o = if_content f
  /\ RemoteJobFiles.secondary_files o = if_secondary_files f
  /\ RemoteJobFiles.source o = Cerulean.div work_dir (RemoteJobFiles.location o).

(** The content of the regular file the path leads to, if it leads to
    one. *)
Definition content_at (fs : Cerulean.FileSystem) (p : Cerulean.Path)
  : option string :=
  match Cerulean.resolve fs p with
  | Cerulean.At q => Cerulean.lookup_file q (Cerulean.files fs)
  | _ => None
  end.

(** A remote file that is not there, or is there with no content. *)
Definition missing_or_empty (fs : Cerulean.FileSystem) (p : Cerulean.Path)
  : Prop :=
  Cerulean.exists_ fs p = false \/ content_at fs p = Some "".

(** A regular file stands where a directory of the path [p] should be:
    the path cannot be followed to its end. *)
Definition blocked (fs : Cerulean.FileSystem) (p : Cerulean.Path) : bool :=
  match Cerulean.resolve fs p with
  | Cerulean.NotADirectory => true
  | _ => false
  end.

Definition NEWLINE : string := String LF "".

(** ** Stand-ins for the parsers, for worked examples *)

Definition DQUOTE : string := String (ascii_of_nat 34) EmptyString.

Fixpoint escape (s : string) : string :=
  match s with
  | EmptyString => EmptyString
  | String c s' =>
      if Ascii.eqb c (ascii_of_nat 34) || Ascii.eqb c (ascii_of_nat 92)
      then String (ascii_of_nat 92) (String c (escape s'))
      else String c (escape s')
  end.

Definition quoted (s : string) : string := DQUOTE ++ escape s ++ DQUOTE.

(** A printer in the layout of [json.dumps], for documents whose strings
    are printable ASCII. *)
Fixpoint render (j : json) : string :=
  match j with
  | JNull => "null"
  | JBool true => "true"
  | JBool false => "false"
  | JInt z => DecimalString.NilZero.string_of_int (Z.to_int z)
  | JFloat repr => repr
  | JStr s => quoted s
  | JList items =>
      "[" ++ (fix go (l : list json) : string :=
                match l with
                | [] => ""
                | [x] => render x
                | x :: l' => render x ++ ", " ++ go l'
                end) items ++ "]"
  | JDict entries =>
      "{" ++ (fix go (l : list (string * json)) : string :=
                match l with
                | [] => ""
                | [(k, x)] => quoted k ++ ": " ++ render x
                | (k, x) :: l' => quoted k ++ ": " ++ render x ++ ", " ++ go l'
                end) entries ++ "}"
  end.

Fixpoint lookup_doc (docs : list (string * json)) (text : string)
  : result json :=
  match docs with
  | [] => Raise JSONDecodeError
  | (t, j) :: docs' => if String.eqb t text then Ok j else lookup_doc docs' text
  end.

(** The objects of a document in which nothing is shared: every mapping
    and every sequence of the tree [j] becomes an object of its own,
    added to the store [h]. *)
Fixpoint objects_of (j : json) (h : Objects.store)
  : Objects.value * Objects.store :=
  match j with
  | JNull => (Objects.VNull, h)
  | JBool b => (Objects.VBool b, h)
  | JInt z => (Objects.VInt z, h)
  | JFloat repr => (Objects.VFloat repr, h)
  | JStr s => (Objects.VStr s, h)
  | JList items =>
      let '(vs, h1) :=
        (fix go (l : list json) (h : Objects.store)
           : list Objects.value * Objects.store :=
           match l with
           | [] => ([], h)
           | x :: l' =>
               let '(v, h1) := objects_of x h in
               let '(vs, h2) := go l' h1 in
               (v :: vs, h2)
           end) items h in
      (Objects.VRef (List.length h1), (h1 ++ [Objects.OList vs])%list)
  | JDict entries =>
      let '(kvs, h1) :=
        (fix go (l : list (string * json)) (h : Objects.store)
           : list (Objects.key * Objects.value) * Objects.store :=
           match l with
           | [] => ([], h)
           | (k, x) :: l' =>
               let '(v, h1) := objects_of x h in
               let '(kvs, h2) := go l' h1 in
               ((Objects.KStr k, v) :: kvs, h2)
           end) entries h in
      (Objects.VRef (List.length h1), (h1 ++ [Objects.ODict kvs])%list)
  end.

Definition load_objects (docs : list (string * json)) (text : string)
  : result (Objects.store * Objects.value) :=
  doc <- lookup_doc docs text ;;
  let '(v, h) := objects_of doc [] in
  Ok (h, v).

(** The document as the code that only reads it sees it. *)
Definition load_tree (docs : list (string * json)) (text : string)
  : result json :=
  loaded <- load_objects docs text ;;
  Objects.tree (List.length (fst loaded)) (fst loaded) (snd loaded).

(** Parsers that know the listed texts only and share no object, ASCII
    decoding, and [render] as the printer. *)
Definition table_externals (docs : list (string * json)) : Externals :=
  {| yaml_safe_load := load_tree docs;
     yaml_safe_load_objects := load_objects docs;
     json_loads := lookup_doc docs;
     json_dumps := render;
     decode_utf8 := fun b => Ok b;
     yaml_safe_load_view :=
       fun text doc =>
         match load_objects docs text as r
               return (loaded <- r ;;
                       Objects.tree (List.length (fst loaded)) (fst loaded)
                                    (snd loaded)) = Ok doc ->
                      exists h v, r = Ok (h, v)
                                  /\ Objects.tree (List.length h) h v = Ok doc
         with
         | Ok (h, v) => fun H => ex_intro _ h (ex_intro _ v (conj eq_refl H))
         | Raise e =>
             fun H => match H in (_ = r) return
                              match r with Ok _ => _ | Raise _ => True end
                      with eq_refl => I end
         end |}.

(** ** Worked examples *)

Definition example_api : RemoteApi.t :=
  RemoteApi.mkRemoteApi None ["home"; "cerise"] ["home"; "cerise"; "api"].

(** The workflow of the end-to-end scenario: two steps of project
    [projA]. *)
Definition example_workflow : json :=
  JDict [("cwlVersion", JStr "v1.0");
         ("class", JStr "Workflow");
         ("steps",
          JDict [("step1", JDict [("run", JStr "projA/tool1.cwl")]);
                 ("step2", JDict [("run", JStr "projA/tool2.cwl");
                                  ("out", JList [JStr "result"])])])].

(** The same workflow with each [run] replaced by the [steps] directory
    followed by the segments after the project name only. *)
Definition example_workflow_without_project : json :=
  JDict [("cwlVersion", JStr "v1.0");
         ("class", JStr "Workflow");
         ("steps",
          JDict [("step1",
                  JDict [("run", JStr "/home/cerise/api/projA/steps/tool1.cwl")]);
                 ("step2",
                  JDict [("run", JStr "/home/cerise/api/projA/steps/tool2.cwl");
                         ("out", JList [JStr "result"])])])].

(** A workflow written with an anchor and an alias: its two steps are
    one mapping object.
<<
    class: Workflow
    steps:
      step1: &tool {run: projA/tool.cwl}
      step2: *tool
>> *)
Definition example_shared_steps : Objects.store * Objects.value :=
  ([Objects.ODict [(Objects.KStr "run", Objects.VStr "projA/tool.cwl")];
    Objects.ODict [(Objects.KStr "step1", Objects.VRef 0);
                   (Objects.KStr "step2", Objects.VRef 0)];
    Objects.ODict [(Objects.KStr "class", Objects.VStr "Workflow");
                   (Objects.KStr "steps", Objects.VRef 1)]],
   Objects.VRef 2).

(** What [translate_workflow] makes of it: the [run] of the one object
    was rewritten twice. *)
Definition example_shared_steps_translated : json :=
  JDict
    [("class", JStr "Workflow");
     ("steps",
      JDict
        [("step1",
          JDict
            [("run",
              JStr "/home/cerise/api/steps//home/cerise/api/projA/steps/projA/tool.cwl")]);
         ("step2",
          JDict
            [("run",
              JStr "/home/cerise/api/steps//home/cerise/api/projA/steps/projA/tool.cwl")])])].

(** A workflow with a date among its entries.
<<
    class: Workflow
    released: 2020-01-01
    steps:
      step1: {run: projA/tool.cwl}
>> *)
Definition example_dated_workflow : Objects.store * Objects.value :=
  ([Objects.ODict [(Objects.KStr "run", Objects.VStr "projA/tool.cwl")];
    Objects.ODict [(Objects.KStr "step1", Objects.VRef 0)];
    Objects.ODict [(Objects.KStr "class", Objects.VStr "Workflow");
                   (Objects.KStr "released", Objects.VOther "2020-01-01");
                   (Objects.KStr "steps", Objects.VRef 1)]],
   Objects.VRef 2).

(** A loader that knows these two documents. *)
Definition object_externals : Externals :=
  {| yaml_safe_load := fun _ => Raise JSONDecodeError;
     yaml_safe_load_objects :=
       fun text => if String.eqb text "<shared.cwl>"
                   then Ok example_shared_steps
                   else if String.eqb text "<dated.cwl>"
                        then Ok example_dated_workflow
                        else Raise JSONDecodeError;
     json_loads := fun _ => Raise JSONDecodeError;
     json_dumps := render;
     decode_utf8 := fun b => Ok b;
     yaml_safe_load_view :=
       fun text doc (H : Raise JSONDecodeError = Ok doc) =>
         match H in (_ = r) return
               match r with Ok _ => _ | Raise _ => True end
         with eq_refl => I end |}.

(** An API step whose command and argument each mention the files macro
    twice. *)
Definition example_step : Dict.t :=
  [("cwlVersion", JStr "v1.0");
   ("class", JStr "CommandLineTool");
   ("baseCommand", JStr " $CERISE_API_FILES/bin/run --lib=$CERISE_API_FILES/lib");
   ("arguments", JList [JStr "-I$CERISE_API_FILES/a:$CERISE_API_FILES/b";
                        JStr "--verbose"])].

(** Output bindings of a runner: one inside the work directory of job
    [job1], one that points elsewhere after a good one. *)
Definition example_output : json :=
  JDict [("count", JInt 3);
         ("out", File_object "file:///home/cerise/jobs/job1/work/result/out.txt")].

Definition example_stray_output : json :=
  JDict [("out", File_object "file:///home/cerise/jobs/job1/work/out.txt");
         ("log", File_object "file:///etc/passwd")].

Definition example_externals : Externals :=
  table_externals [("<workflow.cwl>", example_workflow);
                   ("<step.cwl>", JDict example_step);
                   ("<output>", example_output);
                   ("<stray output>", example_stray_output)].

Definition example_job_files : RemoteJobFiles.t :=
  RemoteJobFiles.mkRemoteJobFiles None ["home"; "cerise"].

(** A remote file system with the home directory of the user and nothing
    below it. *)
Definition example_fs : Cerulean.FileSystem :=
  Cerulean.mkFS [["home"; "user"]; ["home"]] [].

Definition example_config : RemoteApi.Config :=
  RemoteApi.mkConfig None ["home"; "user"; ".cerise"].

(** A job whose recorded error text has two lines, and a remote job
    directory whose [stderr.txt] was replaced by a shorter file. *)
Definition example_job : RemoteJobFiles.Job :=
  RemoteJobFiles.mkJob "wc" "" ("line one" ++ NEWLINE ++ "line two" ++ NEWLINE) [].

Definition example_replaced_log : Cerulean.FileSystem :=
  Cerulean.mkFS
    [["home"; "cerise"; "jobs"; "job1"]; ["home"; "cerise"; "jobs"];
     ["home"; "cerise"]; ["home"]]
    [(["home"; "cerise"; "jobs"; "job1"; "stderr.txt"], "restarted" ++ NEWLINE)].

(** The same directory when the file has grown by one line instead. *)
Definition example_grown_log : Cerulean.FileSystem :=
  Cerulean.mkFS
    [["home"; "cerise"; "jobs"; "job1"]; ["home"; "cerise"; "jobs"];
     ["home"; "cerise"]; ["home"]]
    [(["home"; "cerise"; "jobs"; "job1"; "stderr.txt"],
      "line one" ++ NEWLINE ++ "line two" ++ NEWLINE ++ "line three" ++ NEWLINE)].

(** A job directory before the runner wrote anything. *)
Definition example_fresh_job_dir : Cerulean.FileSystem :=
  Cerulean.mkFS
    [["home"; "cerise"; "jobs"; "job1"]; ["home"; "cerise"; "jobs"];
     ["home"; "cerise"]; ["home"]]
    [(["home"; "cerise"; "jobs"; "job1"; "stdout.txt"], "")].


(** A remote resource on which the name of the job directory is taken by
    a regular file. *)
Definition example_job_dir_is_a_file : Cerulean.FileSystem :=
  Cerulean.mkFS
    [["home"; "cerise"; "jobs"]; ["home"; "cerise"]; ["home"]]
    [(["home"; "cerise"; "jobs"; "job1"], "not a directory")].
(** ** Vocabulary of the further properties *)

(** The value [d.get(key)] gives: [None] for an absent key. *)
Definition get_or_null (key : string) (d : Dict.t) : json :=
  match Dict.get key d with Some v => v | None => JNull end.

Definition is_null (v : json) : bool :=
  match v with JNull => true | _ => false end.

(** A workflow with both core hints, one with a null minimum, and one
    whose hints are written as a list. *)
Definition example_hints_both : json :=
  JDict [("class", JStr "Workflow");
         ("hints", JDict [("ResourceRequirement",
                           JDict [("coresMax", JInt 8); ("coresMin", JInt 2)])])].

Definition example_hints_list : json :=
  JDict [("class", JStr "Workflow");
         ("hints", JList [JDict [("class", JStr "ResourceRequirement");
                                 ("coresMin", JInt 2)]])].

Definition inspection_externals : Externals :=
  table_externals [("<both>", example_hints_both);
                   ("<list>", example_hints_list);
                   ("<workflow>", example_workflow);
                   ("<tool>", JDict example_step);
                   ("<empty>", JNull)].

Definition is_file_object (v : json) : bool :=
  match v with
  | JDict d => class_is "File" d
  | _ => false
  end.

(** The entries of a binding whose value is a File object, in order. *)
Fixpoint scalar_file_entries (items : Dict.t) : list (string * Dict.t) :=
  match items with
  | [] => []
  | (k, JDict d) :: rest =>
      if class_is "File" d then (k, d) :: scalar_file_entries rest
      else scalar_file_entries rest
  | _ :: rest => scalar_file_entries rest
  end.

(** [f] is what the entry [k: d] of a binding resolves to. *)
Definition resolves (kd : string * Dict.t) (f : InputFile) : Prop :=
  if_name f = Some (fst kd)
  /\ Dict.get "location" (snd kd) = Some (if_location f)
  /\ if_content f = None
  /\ secondary_files_of (snd kd) = Ok (if_secondary_files f).

(** No File object among the elements of a list value. *)
Definition list_without_files (v : json) : bool :=
  match v with
  | JList vals => forallb (fun x => negb (is_file_object x)) vals
  | _ => true
  end.

(** A secondary file and all the files below it have neither a name nor
    a content. *)
Fixpoint nameless (f : InputFile) : bool :=
  match f with
  | mkInputFile None _ None sec => forallb nameless sec
  | mkInputFile _ _ _ _ => false
  end.

(** Only characters of [[a-zA-Z0-9_.-]]. *)
Fixpoint all_safe (s : string) : bool :=
  match s with
  | EmptyString => true
  | String c s' => safe_char c && all_safe s'
  end.

(** A step whose [run] is not a string: an embedded tool, say. *)
Definition inline_step (kv : string * json) : Prop :=
  exists sd v, snd kv = JDict sd /\ Dict.get "run" sd = Some v
               /\ forall r, v <> JStr r.

(** A step that is a mapping with a [run] entry of any kind. *)
Definition step_has_run (kv : string * json) : Prop :=
  exists sd v, snd kv = JDict sd /\ Dict.get "run" sd = Some v.

(** The same two, of the step objects in a store. *)
Definition inline_step_object (h : Objects.store)
           (kv : Objects.key * Objects.value) : Prop :=
  exists a sd v,
    snd kv = Objects.VRef a
    /\ Objects.deref h a = Some (Objects.ODict sd)
    /\ Objects.lookup "run" sd = Some v
    /\ forall r, v <> Objects.VStr r.

Definition step_object_has_run (h : Objects.store)
           (kv : Objects.key * Objects.value) : Prop :=
  exists a sd v,
    snd kv = Objects.VRef a
    /\ Objects.deref h a = Some (Objects.ODict sd)
    /\ Objects.lookup "run" sd = Some v.

(** An entry of a dict object and the entry of the tree read off it. *)
Definition entry_view (fuel : nat) (h : Objects.store)
           (kv : Objects.key * Objects.value) (kt : string * json) : Prop :=
  fst kv = Objects.KStr (fst kt)
  /\ Objects.tree fuel h (snd kv) = Ok (snd kt).

(** A workflow with an embedded tool as its second step, and tools whose
    command does not start with the files macro or is a list. *)
Definition example_inline_workflow : Dict.t :=
  [("class", JStr "Workflow");
   ("steps",
    JDict [("step1", JDict [("run", JStr "projA/tool1.cwl")]);
           ("step2", JDict [("run", JDict [("class", JStr "CommandLineTool")])])])].

Definition example_plain_tool : Dict.t :=
  [("class", JStr "CommandLineTool");
   ("baseCommand", JStr "python3 $CERISE_API_FILES/run.py")].

Definition example_list_tool : Dict.t :=
  [("class", JStr "CommandLineTool");
   ("baseCommand", JList [JStr "$CERISE_API_FILES/run.sh"; JStr "-v"])].

Definition translator_externals : Externals :=
  table_externals [("<inline>", JDict example_inline_workflow);
                   ("<plain tool>", JDict example_plain_tool);
                   ("<list tool>", JDict example_list_tool);
                   ("<workflow>", example_workflow);
                   ("<tool>", JDict example_step);
                   ("<empty>", JNull)].

(** ** Vocabulary of staging *)

Section StagingVocabulary.
Variable self : RemoteJobFiles.t.
Variable job_id : string.

(** The number of files in the tree of an input file: the file and all
    its secondary files, at every depth. *)
Fixpoint tree_size (f : Staging.File) : nat :=
  match f with
  | Staging.mkFile _ _ _ _ secs => S (list_sum (map tree_size secs))
  end.

(** The name a file gets when it is staged with counter [count], and the
    remote path it is copied to. *)
Definition staged_name (count : nat) (location : string) : string :=
  _create_input_filename (Staging.zfill 2 (Staging.str_of_nat count)) location.

Definition staged_target (count : nat) (location : string) : Cerulean.Path :=
  RemoteJobFiles._abs_path self job_id ("work/" ++ staged_name count location).

(** The copies staging a tree asks for, depth first, the counter rising
    by one with every file. *)
Fixpoint planned_copies (count : nat) (f : Staging.File)
  : list (Cerulean.Path * Cerulean.Path) :=
  match f with
  | Staging.mkFile _ _ location source secs =>
      (source, staged_target count location)
        :: (fix go (c : nat) (l : list Staging.File) :=
              match l with
              | [] => []
              | x :: r => (planned_copies c x ++ go (c + tree_size x) r)%list
              end) (S count) secs
  end.

Fixpoint planned_copies_list (count : nat) (l : list Staging.File)
  : list (Cerulean.Path * Cerulean.Path) :=
  match l with
  | [] => []
  | x :: r =>
      (planned_copies count x
       ++ planned_copies_list (count + tree_size x) r)%list
  end.

(** The entry of an input description under [key]; none when the
    description is not a mapping. *)
Definition entry_of (key : string) (inputs : json) : option json :=
  match inputs with
  | JDict d => Dict.get key d
  | _ => None
  end.

(** Where the description of an input file sits in the input
    description: under the name of the file, or at the index of the file
    in the list under that name. *)
Definition slot_of (name : string) (index : option nat) (inputs : json)
  : option json :=
  match index with
  | None => entry_of name inputs
  | Some i =>
      match entry_of name inputs with
      | Some (JList items) => nth_error items i
      | _ => None
      end
  end.

(** [inputs'] is the input description [inputs] rewritten for the staged
    [input_files]: a mapping keeps its keys in their order, an entry
    that names no input file is as it was, and the description of each
    file (the last one, where two files have the same name and index)
    was a mapping and is a mapping, whose [location] is the remote path
    the file was copied to and whose entries other than [location] and
    [secondaryFiles] are as they were. *)
Definition rewritten_inputs (input_files : list Staging.File)
           (inputs inputs' : json) : Prop :=
  (input_files = [] -> inputs' = inputs)
  /\ (forall d, inputs = JDict d ->
                exists d', inputs' = JDict d' /\ map fst d' = map fst d)
  /\ (forall key,
         (forall f, In f input_files -> Staging.file_name f <> Some key) ->
         entry_of key inputs' = entry_of key inputs)
  /\ (forall before f after name,
         input_files = (before ++ f :: after)%list ->
         Staging.file_name f = Some name ->
         (forall g, In g after ->
                    ~ (Staging.file_name g = Some name
                       /\ Staging.file_index g = Staging.file_index f)) ->
         exists d0 d,
           slot_of name (Staging.file_index f) inputs = Some (JDict d0)
           /\ slot_of name (Staging.file_index f) inputs' = Some (JDict d)
           /\ Dict.get "location" d
              = Some (JStr (Cerulean.str
                              (staged_target
                                 (1 + list_sum (map tree_size before))
                                 (Staging.file_location f))))
           /\ forall key, key <> "location" -> key <> "secondaryFiles" ->
                          Dict.get key d = Dict.get key d0).

End StagingVocabulary.

Definition is_digit (c : ascii) : bool :=
  let n := nat_of_ascii c in ((48 <=? n) && (n <=? 57))%nat.

Fixpoint all_digits (s : string) : bool :=
  match s with
  | EmptyString => true
  | String c s' => is_digit c && all_digits s'
  end.

(** The number a string of digits writes, leading zeros allowed. *)
Definition digits_value (s : string) : option nat :=
  option_map Nat.of_uint (DecimalString.NilEmpty.uint_of_string s).

(** A remote resource on which every request succeeds and nothing is
    kept, for worked examples. *)
Definition obliging_remote : Staging.Remote :=
  {| Staging.world := unit;
     Staging.copy := fun _ _ w => Ok w;
     Staging.mkdir := fun _ _ _ _ w => Ok w;
     Staging.write_bytes := fun _ _ w => Ok w;
     Staging.encode_utf8 := fun s => s |}.

Definition fresh_state : Staging.state (rem := obliging_remote) :=
  Staging.mkState (rem := obliging_remote) tt [] [] [].

(** An input file with one secondary file, and the description it was
    resolved from. *)
Definition example_input_file : Staging.File :=
  Staging.mkFile (Some "genome") None "file:///data/genome.fa" ["data"; "genome.fa"]
    [Staging.mkFile None None "file:///data/genome.fa.fai"
                    ["data"; "genome.fa.fai"] []].

Definition example_input_desc : json :=
  JDict [("class", JStr "File");
         ("location", JStr "file:///data/genome.fa");
         ("secondaryFiles", JList [File_object "file:///data/genome.fa.fai"])].

Section StagingOutcome.
Context {rem : Staging.Remote}.
Variable self : RemoteJobFiles.t.
Variable job_id : string.

(** What a successful call has done: the count has risen by the number
    of files, and the copies asked for are the planned ones. *)
Definition staged_as (count : nat) (f : Staging.File) (st : Staging.state)
           (r : nat * json * Staging.state) : Prop :=
  let '(count', _, st') := r in
  count' = count + tree_size f
  /\ Staging.copied st'
     = (Staging.copied st ++ planned_copies self job_id count f)%list
  /\ Staging.written st' = Staging.written st.

End StagingOutcome.

(** [desc] can take the staging of [f]: it is a mapping and, when [f]
    has secondary files, its [secondaryFiles] entry is a list that
    starts with one such mapping for each of them, in order. *)
Fixpoint describes (f : Staging.File) (desc : json) : bool :=
  match f, desc with
  | Staging.mkFile _ _ _ _ secs, JDict d =>
      match secs with
      | [] => true
      | _ :: _ =>
          match Dict.get "secondaryFiles" d with
          | Some (JList sfs) =>
              (fix go (secs : list Staging.File) (sfs : list json) : bool :=
                 match secs, sfs with
                 | [], _ => true
                 | _ :: _, [] => false
                 | s :: secs', x :: sfs' => describes s x && go secs' sfs'
                 end) secs sfs
          | _ => false
          end
      end
  | _, _ => false
  end.

Fixpoint describes_all (secs : list Staging.File) (sfs : list json) : bool :=
  match secs, sfs with
  | [], _ => true
  | _ :: _, [] => false
  | s :: secs', x :: sfs' => describes s x && describes_all secs' sfs'
  end.

(** A job to stage, with the binding [example_input_desc] under the key
    [genome]. *)
Definition example_staging_job : Staging.Job :=
  Staging.mkJob "align" "<input>" "" "" "" "" "" "" "".

Definition staging_externals : Externals :=
  table_externals [("<input>", JDict [("threads", JInt 4);
                                       ("genome", example_input_desc)])].

(** A name that is one path segment: not empty, not [.], no slash. *)
Definition plain_segment (s : string) : bool :=
  negb (contains "/" s) && negb (String.eqb s "") && negb (String.eqb s ".").

(** No [..] segment: the path names every directory as the file system
    has it, so that a path which starts with the segments of another
    lies at or below it. *)
Definition canonical (p : Cerulean.Path) : bool :=
  forallb (fun seg => negb (String.eqb seg "..")) p.

(** Output bindings with a location inside the work directory of job
    [job1] and one that leaves it through [..] segments. *)
Definition example_escaping_output : json :=
  JDict [("out", File_object "file:///home/cerise/jobs/job1/work/result/out.txt");
         ("log",
          File_object
            "file:///home/cerise/jobs/job1/work/../../job2/work/secret.txt")].

Definition destaging_externals : Externals :=
  table_externals [("<output>", example_escaping_output)].

(** A remote file system with two staged jobs. *)
Definition example_two_jobs : Cerulean.FileSystem :=
  Cerulean.mkFS
    [["home"; "cerise"; "jobs"; "job2"; "work"];
     ["home"; "cerise"; "jobs"; "job2"];
     ["home"; "cerise"; "jobs"; "job1"; "work"];
     ["home"; "cerise"; "jobs"; "job1"]; ["home"; "cerise"; "jobs"];
     ["home"; "cerise"]; ["home"]]
    [(["home"; "cerise"; "jobs"; "job1"; "work"; "01_in.txt"], "data");
     (["home"; "cerise"; "jobs"; "job1"; "stdout.txt"], "{}");
     (["home"; "cerise"; "jobs"; "job2"; "stdout.txt"], "{}")].

(** The terminal states of section 4.7 and the states that record a
    pending cancellation. *)
Definition is_terminal (s : JobState) : bool :=
  match s with
  | SUCCESS | PERMANENT_FAILURE | TEMPORARY_FAILURE | SYSTEM_ERROR
  | CANCELLED => true
  | _ => false
  end.

Definition is_cancel_requested (s : JobState) : bool :=
  match s with
  | STAGING_IN_CR | WAITING_CR | RUNNING_CR | STAGING_OUT_CR => true
  | _ => false
  end.

(** The state a cancellation request leads to, as one table. *)
Definition cancelled_state (s : JobState) : JobState :=
  match s with
  | SUBMITTED | FINISHED => CANCELLED
  | STAGING_IN => STAGING_IN_CR
  | WAITING => WAITING_CR
  | RUNNING => RUNNING_CR
  | STAGING_OUT => STAGING_OUT_CR
  | _ => s
  end.

(** * Properties *)

(** ** Facts about strings *)

Section StringFacts.

Lemma append_nil_r (s : string) : s ++ "" = s.
Proof. induction s as [|c s IH]; simpl; [reflexivity | now rewrite IH]. Qed.

Lemma append_assoc (a b c : string) : (a ++ b) ++ c = a ++ (b ++ c).
Proof. induction a as [|x a IH]; simpl; [reflexivity | now rewrite IH]. Qed.

Lemma length_append (a b : string) :
  String.length (a ++ b) = String.length a + String.length b.
Proof. induction a as [|x a IH]; simpl; [reflexivity | now rewrite IH]. Qed.

Lemma append_inv_head (a b c : string) : a ++ b = a ++ c -> b = c.
Proof.
  induction a as [|x a IH]; simpl; intro H; [exact H|].
  injection H as H. now apply IH.
Qed.

Lemma append_inv_tail (a b t : string) : a ++ t = b ++ t -> a = b.
Proof.
  revert b. induction a as [|x a IH]; intros [|y b] H; simpl in H.
  - reflexivity.
  - apply (f_equal String.length) in H. simpl in H.
    rewrite length_append in H. lia.
  - apply (f_equal String.length) in H. simpl in H.
    rewrite length_append in H. lia.
  - injection H as Hxy H. subst y. f_equal. now apply IH.
Qed.

Lemma startswith_append (p r : string) : startswith (p ++ r) p = true.
Proof.
  induction p as [|c p IH]; simpl; [reflexivity|].
  now rewrite Ascii.eqb_refl, IH.
Qed.

Lemma startswith_iff (s p : string) :
  startswith s p = true <-> exists r, s = p ++ r.
Proof.
  split.
  - revert s. induction p as [|c p IH]; intros s H.
    + now exists s.
    + destruct s as [|b s]; simpl in H; [discriminate|].
      apply andb_true_iff in H as [Hc Hp].
      apply Ascii.eqb_eq in Hc. subst b.
      destruct (IH _ Hp) as [r ->]. now exists r.
  - intros [r ->]. apply startswith_append.
Qed.

Lemma startswith_contains (needle s : string) :
  startswith s needle = true -> contains needle s = true.
Proof. intro H. destruct s; simpl; now rewrite H. Qed.

Lemma contains_iff (needle s : string) :
  contains needle s = true <-> exists a b, s = a ++ needle ++ b.
Proof.
  split.
  - induction s as [|c s IH]; simpl; intro H.
    + rewrite orb_false_r in H. apply startswith_iff in H as [r Hr].
      now exists "", r.
    + apply orb_true_iff in H as [H|H].
      * apply startswith_iff in H as [r Hr]. now exists "", r.
      * destruct (IH H) as (a & b & ->). now exists (String c a), b.
  - intros (a & b & ->). induction a as [|c a IH].
    + apply startswith_contains. simpl. apply startswith_append.
    + simpl. rewrite IH. apply orb_true_r.
Qed.

Lemma drop_append_length (a b : string) : drop (String.length a) (a ++ b) = b.
Proof. induction a as [|c a IH]; simpl; [now destruct b | exact IH]. Qed.

Lemma take_drop (n : nat) (s : string) : take n s ++ drop n s = s.
Proof.
  revert s. induction n as [|n IH]; intros [|c s]; simpl; try reflexivity.
  now rewrite IH.
Qed.

Lemma length_take (n : nat) (s : string) :
  n <= String.length s -> String.length (take n s) = n.
Proof.
  revert s. induction n as [|n IH]; intros [|c s]; simpl; intro H;
    try reflexivity; try lia.
  rewrite IH; [reflexivity | lia].
Qed.

Lemma length_drop (n : nat) (s : string) :
  String.length (drop n s) = String.length s - n.
Proof.
  revert s. induction n as [|n IH]; intros [|c s]; simpl; try reflexivity.
  apply IH.
Qed.

Lemma length_take_last (n : nat) (s : string) :
  n <= String.length s -> String.length (take_last n s) = n.
Proof. intro H. unfold take_last. rewrite length_drop. lia. Qed.

End StringFacts.

(** ** Result classifier *)

Lemma contains_false_iff (m log : string) :
  contains m log = false <-> ~ occurs m log.
Proof.
  unfold occurs. rewrite <- contains_iff.
  destruct (contains m log); split; intro H; try reflexivity;
    try discriminate; try (intro; discriminate).
  exfalso. now apply H.
Qed.

(** C5: [get_cwltool_result] classifies a log by strict priority:
    permanent failure when the validation-failure marker or the
    permanentFail marker occurs; otherwise temporary failure when the
    temporaryFail marker occurs; otherwise success when the success marker
    occurs; otherwise system error.  So a log with both the validation
    marker and the success marker is a permanent failure, and a log with
    none of the four markers is a system error. *)
Theorem get_cwltool_result_priority (log : string) :
  (occurs MARK_VALIDATION log \/ occurs MARK_PERMANENT log ->
   get_cwltool_result log = PERMANENT_FAILURE) /\
  (~ occurs MARK_VALIDATION log -> ~ occurs MARK_PERMANENT log ->
   occurs MARK_TEMPORARY log ->
   get_cwltool_result log = TEMPORARY_FAILURE) /\
  (~ occurs MARK_VALIDATION log -> ~ occurs MARK_PERMANENT log ->
   ~ occurs MARK_TEMPORARY log -> occurs MARK_SUCCESS log ->
   get_cwltool_result log = SUCCESS) /\
  (~ occurs MARK_VALIDATION log -> ~ occurs MARK_PERMANENT log ->
   ~ occurs MARK_TEMPORARY log -> ~ occurs MARK_SUCCESS log ->
   get_cwltool_result log = SYSTEM_ERROR) /\
  (occurs MARK_VALIDATION log -> occurs MARK_SUCCESS log ->
   get_cwltool_result log = PERMANENT_FAILURE).
Proof.
  unfold get_cwltool_result.
  repeat split.
  - intros [H|H]; apply contains_iff in H.
    + now rewrite H.
    + rewrite H. now destruct (contains MARK_VALIDATION log).
  - intros V P T. apply contains_false_iff in V, P. apply contains_iff in T.
    now rewrite V, P, T.
  - intros V P T S. apply contains_false_iff in V, P, T. apply contains_iff in S.
    now rewrite V, P, T, S.
  - intros V P T S. apply contains_false_iff in V, P, T, S.
    now rewrite V, P, T, S.
  - intros V _. apply contains_iff in V. now rewrite V.
Qed.

Lemma get_cwltool_result_priority_witness :
  get_cwltool_result
    "Tool definition failed validation: x; Final process status is success"
  = PERMANENT_FAILURE.
Proof.
  apply (get_cwltool_result_priority
           "Tool definition failed validation: x; Final process status is success").
  - exists "", " x; Final process status is success". reflexivity.
  - exists "Tool definition failed validation: x; ", "". reflexivity.
Defined.

(** ** Filename sanitizer *)

(** C7: (1) with the original path fixed, two different counter prefixes
    never give the same file name; (2) when the collapsed form of the path
    is longer than 39 characters, what follows the counter prefix and its
    underscore is the first 18 characters of the collapsed form, three
    underscores, and its last 18 characters. *)
Theorem create_input_filename_distinct_and_truncated (orig_path : string) :
  (forall p1 p2 : string,
      p1 <> p2 ->
      _create_input_filename p1 orig_path <> _create_input_filename p2 orig_path)
  /\
  (forall unique_prefix : string,
      39 < String.length (sub_unsafe false orig_path) ->
      let collapsed := sub_unsafe false orig_path in
      _create_input_filename unique_prefix orig_path
      = unique_prefix ++ "_" ++ take 18 collapsed ++ "___"
                      ++ take_last 18 collapsed
      /\ String.length (take 18 collapsed) = 18
      /\ String.length (take_last 18 collapsed) = 18
      /\ (exists rest, collapsed = take 18 collapsed ++ rest)
      /\ (exists front, collapsed = front ++ take_last 18 collapsed)).
Proof.
  split.
  - intros p1 p2 Hne Heq. apply Hne.
    unfold _create_input_filename in Heq.
    now apply append_inv_tail in Heq.
  - intros unique_prefix Hlen collapsed. subst collapsed.
    unfold _create_input_filename.
    apply Nat.ltb_lt in Hlen as Hb. rewrite Hb.
    repeat split.
    + apply length_take. lia.
    + apply length_take_last. lia.
    + exists (drop 18 (sub_unsafe false orig_path)).
      symmetry. apply take_drop.
    + exists (take (String.length (sub_unsafe false orig_path) - 18)
                   (sub_unsafe false orig_path)).
      symmetry. apply take_drop.
Qed.

Lemma create_input_filename_distinct_and_truncated_witness :
  _create_input_filename "01" "in/data.txt" <> _create_input_filename "02" "in/data.txt"
  /\ _create_input_filename "07"
       "file:///home/user/some dir/this_is_a_very_long_file_name.txt"
     = "07_file_home_user_som___long_file_name.txt".
Proof.
  split.
  - apply (create_input_filename_distinct_and_truncated "in/data.txt").
    discriminate.
  - apply (create_input_filename_distinct_and_truncated
             "file:///home/user/some dir/this_is_a_very_long_file_name.txt" ).
    vm_compute. lia.
Defined.

(** ** Input resolver *)

Lemma files_from_list_no_file (name : string) (vals : list json) (i : nat)
      (fs : list InputFile) :
  files_from_list name i vals = Ok fs -> fs = [].
Proof.
  revert i fs. induction vals as [|val rest IH]; intros i fs H; simpl in H.
  - now injection H as <-.
  - destruct val; try (now apply IH in H).
    destruct (class_is "File" entries); [|now apply IH in H].
    destruct (secondary_files_of entries); simpl in H; [|discriminate].
    destruct (Dict.getitem "location" entries); simpl in H; discriminate.
Qed.

(** C1: on the binding of the design document,
    [{"a": File f1, "b": [File f2, File f3]}], the resolver does not return
    three entries: the call that builds the entry for an array element
    passes the index as a fifth argument to a constructor that takes four,
    and the resolver ends with a [TypeError].  A binding with only the
    scalar file is resolved as described. *)
Theorem get_files_from_binding_array_of_files :
  get_files_from_binding
    (JDict [("a", File_object "f1");
            ("b", JList [File_object "f2"; File_object "f3"])])
  = Raise TypeError
  /\ get_files_from_binding (JDict [("b", JList [File_object "f2"])])
     = Raise TypeError
  /\ get_files_from_binding (JDict [("a", File_object "f1")])
     = Ok [mkInputFile (Some "a") (JStr "f1") None []].
Proof. repeat split. Qed.

(** One step of the loop of [get_secondary_files]. *)
Lemma get_secondary_files_cons (value : json) (rest : list json) :
  get_secondary_files (JList (value :: rest)) =
  match value with
  | JDict d =>
      if class_is "File" d then
        location <- Dict.getitem "location" d ;;
        sec <- Dict.get_with "secondaryFiles" get_secondary_files (Ok []) d ;;
        tl <- get_secondary_files (JList rest) ;;
        Ok (mkInputFile None location None sec :: tl)
      else if class_is "Directory" d then Raise (RuntimeError MSG_DIRECTORY)
      else Raise (RuntimeError MSG_INVALID_SECONDARY)
  | _ => get_secondary_files (JList rest)
  end.
Proof. destruct value; reflexivity. Qed.

Lemma get_with_get {A} (key : string) (f : json -> A) (dflt : A) (d : Dict.t) :
  Dict.get_with key f dflt d =
  match Dict.get key d with Some v => f v | None => dflt end.
Proof.
  induction d as [|[k v] d IH]; simpl; [reflexivity|].
  destruct (String.eqb k key); [reflexivity | exact IH].
Qed.

(** The rest of the list raises ([He]): so does the list with one more
    entry in front, whatever that entry is. *)
Ltac raise_after He :=
  match goal with
  | |- exists _, match ?x with _ => _ end = Raise _ =>
      destruct x; try (eexists; exact He);
      repeat match goal with
             | |- exists _, (if ?b then _ else _) = Raise _ => destruct b
             | |- exists _, bind ?r _ = Raise _ =>
                 first [ rewrite He; cbn [bind] | destruct r; cbn [bind] ]
             end;
      eauto
  end.

(** The part of the design that holds: a Directory object anywhere in
    the list makes the resolver raise. *)
Lemma get_secondary_files_directory (v : json) :
  directory_within v -> exists e, get_secondary_files v = Raise e.
Proof.
  induction 1 as [items d Hin HF HD | items d sub Hin HF Hsub _ [e0 He0]];
    induction items as [|x items IHi]; try contradiction;
    rewrite get_secondary_files_cons;
    (destruct Hin as [->|Hin];
     [| destruct (IHi Hin) as [e He]; raise_after He]).
  - rewrite HF, HD. eauto.
  - rewrite HF. destruct (Dict.getitem "location" d); cbn [bind]; eauto.
    rewrite get_with_get, Hsub, He0. cbn [bind]. eauto.
Qed.

(** C6: an entry that is not an object at all is dropped without an
    error: the list [["extra.txt", File x]] resolves to the one File, and
    [[3]] to nothing.  (An object of another class does raise, see
    [get_secondary_files_cons], and so does a Directory,
    [get_secondary_files_directory].) *)
Theorem get_secondary_files_drops_non_objects :
  get_secondary_files (JList [JStr "extra.txt"; File_object "x"])
  = Ok [mkInputFile None (JStr "x") None []]
  /\ get_secondary_files (JList [JInt 3]) = Ok []
  /\ get_secondary_files (JList [JDict [("class", JStr "Other")]])
     = Raise (RuntimeError MSG_INVALID_SECONDARY)
  /\ get_secondary_files
       (JList [JDict [("class", JStr "File"); ("location", JStr "x");
                      ("secondaryFiles",
                       JList [JDict [("class", JStr "Directory")]])]])
     = Raise (RuntimeError MSG_DIRECTORY).
Proof. repeat split. Qed.

(** ** Dictionaries *)

Lemma get_set_same (key : string) (v : json) (d : Dict.t) :
  Dict.get key (Dict.set key v d) = Some v.
Proof.
  induction d as [|[k w] d IH]; simpl.
  - now rewrite String.eqb_refl.
  - destruct (String.eqb k key) eqn:E; simpl; rewrite E; [reflexivity | exact IH].
Qed.

Lemma get_set_other (key key' : string) (v : json) (d : Dict.t) :
  key <> key' -> Dict.get key' (Dict.set key v d) = Dict.get key' d.
Proof.
  intro Hne. induction d as [|[k w] d IH]; simpl.
  - apply String.eqb_neq in Hne. now rewrite Hne.
  - destruct (String.eqb k key) eqn:E; simpl.
    + apply String.eqb_eq in E. subst k.
      apply String.eqb_neq in Hne. now rewrite Hne.
    + destruct (String.eqb k key'); [reflexivity | exact IH].
Qed.

(** ** Workflow translator *)

Lemma keys_set_present (key : string) (v w : json) (d : Dict.t) :
  Dict.get key d = Some w -> map fst (Dict.set key v d) = map fst d.
Proof.
  induction d as [|[k x] d IH]; [discriminate|].
  cbn [Dict.get Dict.set]. destruct (String.eqb k key); [reflexivity|].
  intro H. cbn [map fst]. now rewrite (IH H).
Qed.

Lemma option_eq_zero (limit : option nat) : limit = Some 0 \/ limit <> Some 0.
Proof. destruct limit as [[|n]|]; [now left | right | right]; discriminate. Qed.

Lemma split_not_nil (c : ascii) (s : string) : split c s <> [].
Proof.
  destruct s as [|a s]; simpl; [discriminate|].
  destruct (Ascii.eqb a c); [discriminate|].
  destruct (split c s); discriminate.
Qed.

(** Splitting on a character and joining on it again gives the string
    back. *)
Lemma join_split (c : ascii) (s : string) :
  join (String c "") (split c s) = s.
Proof.
  unfold join. induction s as [|a s IH]; [reflexivity|].
  simpl split. destruct (Ascii.eqb a c) eqn:E.
  - apply Ascii.eqb_eq in E. subst a.
    pose proof (split_not_nil c s) as Hn.
    destruct (split c s) as [|h t]; [contradiction|].
    change (String.concat (String c "") ("" :: h :: t))
      with ("" ++ String c "" ++ String.concat (String c "") (h :: t)).
    now rewrite IH.
  - pose proof (split_not_nil c s) as Hn.
    destruct (split c s) as [|h t]; [contradiction|].
    destruct t as [|h' t].
    + simpl in *. now rewrite IH.
    + change (String.concat (String c "") (String a h :: h' :: t))
        with (String a (h ++ String c "" ++ String.concat (String c "") (h' :: t))).
      f_equal. exact IH.
Qed.

Lemma hd_split_first_segment (r : string) :
  hd "" (split "/" r) = first_segment r.
Proof.
  induction r as [|a r IH]; [reflexivity|].
  simpl. destruct (Ascii.eqb a "/"); [reflexivity|].
  pose proof (split_not_nil "/" r) as Hn.
  destruct (split "/" r) as [|h t]; [contradiction|].
  simpl in *. now rewrite IH.
Qed.

(** *** The object store *)

Lemma deref_put_same (h : Objects.store) (r : Objects.ref)
      (o o0 : Objects.object) :
  Objects.deref h r = Some o0 -> Objects.deref (Objects.put r o h) r = Some o.
Proof.
  unfold Objects.deref. revert r.
  induction h as [|x h IH]; intros [|r] H; try discriminate.
  - reflexivity.
  - cbn. now apply IH.
Qed.

Lemma deref_put_other (h : Objects.store) (r b : Objects.ref)
      (o : Objects.object) :
  b <> r -> Objects.deref (Objects.put r o h) b = Objects.deref h b.
Proof.
  unfold Objects.deref. revert r b.
  induction h as [|x h IH]; intros [|r] [|b] H; cbn;
    try reflexivity; try congruence.
  apply IH. congruence.
Qed.

Lemma length_put (h : Objects.store) (r : Objects.ref) (o : Objects.object) :
  List.length (Objects.put r o h) = List.length h.
Proof.
  revert r. induction h as [|x h IH]; intros [|r]; cbn; try reflexivity.
  now rewrite IH.
Qed.

Lemma key_is_str (key key' : string) :
  Objects.key_is key (Objects.KStr key') = String.eqb key' key.
Proof. reflexivity. Qed.

Lemma lookup_assign_same (key : string) (v : Objects.value)
      (d : list (Objects.key * Objects.value)) :
  Objects.lookup key (Objects.assign key v d) = Some v.
Proof.
  induction d as [|[k w] d IH]; cbn.
  - now rewrite String.eqb_refl.
  - destruct (Objects.key_is key k) eqn:E; cbn; now rewrite E.
Qed.

Lemma lookup_assign_other (key key' : string) (v : Objects.value)
      (d : list (Objects.key * Objects.value)) :
  key' <> key ->
  Objects.lookup key' (Objects.assign key v d) = Objects.lookup key' d.
Proof.
  intro Hne. induction d as [|[k w] d IH]; cbn.
  - apply String.eqb_neq in Hne. rewrite String.eqb_sym in Hne. now rewrite Hne.
  - destruct (Objects.key_is key k) eqn:E; cbn.
    + destruct k as [k|repr]; [|discriminate].
      apply String.eqb_eq in E. subst k. cbn.
      apply String.eqb_neq in Hne. rewrite String.eqb_sym in Hne.
      now rewrite Hne.
    + now rewrite IH.
Qed.

Lemma keys_assign_present (key : string) (v w : Objects.value)
      (d : list (Objects.key * Objects.value)) :
  Objects.lookup key d = Some w ->
  map fst (Objects.assign key v d) = map fst d.
Proof.
  induction d as [|[k x] d IH]; [discriminate|].
  cbn [Objects.lookup Objects.assign]. destruct (Objects.key_is key k);
    [reflexivity|].
  intro H. cbn [map fst]. now rewrite (IH H).
Qed.

Lemma lookup_in (key : string) (v : Objects.value)
      (d : list (Objects.key * Objects.value)) :
  Objects.lookup key d = Some v -> In (Objects.KStr key, v) d.
Proof.
  induction d as [|[k x] d IH]; [discriminate|].
  cbn [Objects.lookup]. destruct (Objects.key_is key k) eqn:E.
  - destruct k as [k|repr]; [|discriminate].
    apply String.eqb_eq in E. subst k. intro H. injection H as ->. now left.
  - intro H. right. now apply IH.
Qed.

Lemma in_step_refs (steps : list (Objects.key * Objects.value))
      (name : Objects.key) (a : Objects.ref) :
  In (name, Objects.VRef a) steps -> In a (step_refs steps).
Proof.
  intro H. unfold step_refs. apply in_flat_map.
  exists (name, Objects.VRef a). split; [exact H | now left].
Qed.

Section WorkflowTranslator.
Context {ext : Externals}.
Variable self : RemoteApi.t.

Lemma translate_step_run (h : Objects.store) (a : Objects.ref)
      (sd : list (Objects.key * Objects.value)) (r : string) :
  Objects.deref h a = Some (Objects.ODict sd) ->
  Objects.lookup "run" sd = Some (Objects.VStr r) ->
  RemoteApi.translate_step self h (Objects.VRef a)
  = Ok (Objects.put a
          (Objects.ODict
             (Objects.assign "run" (Objects.VStr (installed_run self r)) sd))
          h).
Proof.
  intros Ha Hrun.
  unfold RemoteApi.translate_step, Objects.getitem, Objects.setitem.
  rewrite Ha, Hrun. cbn [bind].
  rewrite hd_split_first_segment, join_split. reflexivity.
Qed.

(** The loop over steps that are separate objects: each is rewritten
    once, from what it was when the loop began, and nothing else is
    touched. *)
Lemma translate_steps_separate (steps : list (Objects.key * Objects.value)) :
  forall h,
    Forall (step_with_run h) steps ->
    NoDup (step_refs steps) ->
    exists h',
      RemoteApi.translate_steps self steps h = Ok h'
      /\ List.length h' = List.length h
      /\ (forall name a sd r,
             In (name, Objects.VRef a) steps ->
             Objects.deref h a = Some (Objects.ODict sd) ->
             Objects.lookup "run" sd = Some (Objects.VStr r) ->
             Objects.deref h' a
             = Some (Objects.ODict
                       (Objects.assign "run"
                          (Objects.VStr (installed_run self r)) sd)))
      /\ (forall b, ~ In b (step_refs steps) ->
                    Objects.deref h' b = Objects.deref h b).
Proof.
  induction steps as [|[name step] rest IH]; intros h Hall Hnodup.
  - exists h. split; [reflexivity|]. split; [reflexivity|]. split.
    + intros ? ? ? ? [].
    + reflexivity.
  - inversion Hall as [|? ? (a & sd & r & Hstep & Ha & Hrun) Hrest]; subst.
    cbn [snd] in Hstep. subst step.
    cbn [step_refs flat_map snd app] in Hnodup.
    fold (step_refs rest) in Hnodup.
    inversion Hnodup as [|? ? Hfresh Hnodup']; subst.
    set (h1 := Objects.put a
                 (Objects.ODict
                    (Objects.assign "run"
                       (Objects.VStr (installed_run self r)) sd)) h).
    assert (Hother : forall b, b <> a -> Objects.deref h1 b = Objects.deref h b)
      by (intros b Hb; now apply deref_put_other).
    assert (Hrest1 : Forall (step_with_run h1) rest).
    { rewrite Forall_forall in Hrest |- *. intros [n v] Hin.
      destruct (Hrest _ Hin) as (b & sdb & rb & Hv & Hb & Hrunb).
      cbn [snd] in Hv. subst v.
      exists b, sdb, rb. repeat split; [|exact Hrunb].
      rewrite Hother; [exact Hb|].
      intros ->. apply Hfresh. now apply (in_step_refs _ n). }
    destruct (IH h1 Hrest1 Hnodup') as (h' & Hloop & Hlen & Hsteps & Hframe).
    exists h'. split; [|split; [|split]].
    + cbn [RemoteApi.translate_steps].
      rewrite (translate_step_run _ _ _ _ Ha Hrun). cbn [bind]. exact Hloop.
    + rewrite Hlen. apply length_put.
    + intros n b sdb rb [E|Hin] Hb Hrunb.
      * injection E as <- <-. rewrite Ha in Hb. injection Hb as <-.
        rewrite Hrun in Hrunb. injection Hrunb as <-.
        rewrite (Hframe a Hfresh). apply (deref_put_same _ _ _ _ Ha).
      * apply (Hsteps n); [exact Hin | | exact Hrunb].
        rewrite Hother; [exact Hb|].
        intros ->. apply Hfresh. now apply (in_step_refs _ n).
    + intros b Hb. cbn [step_refs flat_map snd app] in Hb.
      fold (step_refs rest) in Hb.
      rewrite Hframe by (intro; apply Hb; now right).
      apply Hother. intros ->. apply Hb. now left.
Qed.

(** C2, as amended: for a workflow document that is a mapping whose
    [steps] entry is a mapping of steps, the steps being separate
    mapping objects with a string [run] reference each,
    [translate_workflow] replaces, in place, the [run] value [r] of every
    step by the installed [steps] directory of the project named by the
    first segment of [r], followed by a slash and all of [r], the
    project segment included; it keeps the other entries of every step
    and the order of their keys, changes no other object of the
    document, the mapping of the steps among them, and returns what
    [json.dumps] makes of the document after that: its JSON text, or the
    error of [json.dumps] where the document holds a value that JSON
    cannot express or an object that contains itself. *)
Theorem translate_workflow_rewrites_runs
        (workflow_content text : string) (h : Objects.store)
        (root s : Objects.ref) (d steps : list (Objects.key * Objects.value)) :
  decode_utf8 workflow_content = Ok text ->
  yaml_safe_load_objects text = Ok (h, Objects.VRef root) ->
  Objects.deref h root = Some (Objects.ODict d) ->
  Objects.lookup "steps" d = Some (Objects.VRef s) ->
  Objects.deref h s = Some (Objects.ODict steps) ->
  Forall (step_with_run h) steps ->
  NoDup (step_refs steps) ->
  exists h',
    RemoteApi.translate_workflow self workflow_content
    = RemoteApi.dumps h' (Objects.VRef root)
    /\ List.length h' = List.length h
    /\ (forall name a sd r,
           In (name, Objects.VRef a) steps ->
           Objects.deref h a = Some (Objects.ODict sd) ->
           Objects.lookup "run" sd = Some (Objects.VStr r) ->
           exists sd',
             Objects.deref h' a = Some (Objects.ODict sd')
             /\ Objects.lookup "run" sd'
                = Some (Objects.VStr (installed_run self r))
             /\ map fst sd' = map fst sd
             /\ forall key, key <> "run" ->
                            Objects.lookup key sd' = Objects.lookup key sd)
    /\ (forall b, ~ In b (step_refs steps) ->
                  Objects.deref h' b = Objects.deref h b)
    /\ Objects.deref h' s = Some (Objects.ODict steps).
Proof.
  intros Hdec Hyaml Hroot Hsteps Hs Hall Hnodup.
  destruct (translate_steps_separate steps h Hall Hnodup)
    as (h' & Hloop & Hlen & Hrun & Hframe).
  exists h'. split; [|split; [|split; [|split]]].
  - unfold RemoteApi.translate_workflow.
    rewrite Hdec. cbn [bind]. rewrite Hyaml. cbn [bind].
    unfold Objects.contains_key, Objects.getitem, Objects.items.
    rewrite Hroot, Hsteps. cbn [bind negb]. rewrite Hs. cbn [bind].
    rewrite Hloop. reflexivity.
  - exact Hlen.
  - intros name a sd r Hin Ha Hr.
    eexists. split; [exact (Hrun name a sd r Hin Ha Hr)|]. repeat split.
    + apply lookup_assign_same.
    + exact (keys_assign_present _ _ _ _ Hr).
    + intros key Hne. now apply lookup_assign_other.
  - exact Hframe.
  - rewrite Hframe; [exact Hs|].
    intro Hin. unfold step_refs in Hin. apply in_flat_map in Hin.
    destruct Hin as ([n v] & Hin & Hv).
    rewrite Forall_forall in Hall.
    destruct (Hall _ Hin) as (a & sd & r & E & Ha & Hr).
    cbn [snd] in E, Hv. subst v. destruct Hv as [<-|[]].
    rewrite Hs in Ha. injection Ha as <-.
    apply lookup_in in Hr.
    destruct (Hall _ Hr) as (? & ? & ? & E & _). discriminate.
Qed.

End WorkflowTranslator.

Lemma translate_workflow_rewrites_runs_witness :
  exists h',
    RemoteApi.translate_workflow (ext := example_externals) example_api
                                 "<workflow.cwl>"
    = RemoteApi.dumps (ext := example_externals) h' (Objects.VRef 4)
    /\ RemoteApi.dumps (ext := example_externals) h' (Objects.VRef 4)
       = Ok (render
               (JDict
                  [("cwlVersion", JStr "v1.0");
                   ("class", JStr "Workflow");
                   ("steps",
                    JDict
                      [("step1",
                        JDict
                          [("run",
                            JStr "/home/cerise/api/projA/steps/projA/tool1.cwl")]);
                       ("step2",
                        JDict
                          [("run",
                            JStr "/home/cerise/api/projA/steps/projA/tool2.cwl");
                           ("out", JList [JStr "result"])])])])).
Proof.
  destruct (translate_workflow_rewrites_runs (ext := example_externals)
              example_api "<workflow.cwl>" "<workflow.cwl>"
              [Objects.ODict
                 [(Objects.KStr "run", Objects.VStr "projA/tool1.cwl")];
               Objects.OList [Objects.VStr "result"];
               Objects.ODict
                 [(Objects.KStr "run", Objects.VStr "projA/tool2.cwl");
                  (Objects.KStr "out", Objects.VRef 1)];
               Objects.ODict [(Objects.KStr "step1", Objects.VRef 0);
                              (Objects.KStr "step2", Objects.VRef 2)];
               Objects.ODict [(Objects.KStr "cwlVersion", Objects.VStr "v1.0");
                              (Objects.KStr "class", Objects.VStr "Workflow");
                              (Objects.KStr "steps", Objects.VRef 3)]]
              4 3
              [(Objects.KStr "cwlVersion", Objects.VStr "v1.0");
               (Objects.KStr "class", Objects.VStr "Workflow");
               (Objects.KStr "steps", Objects.VRef 3)]
              [(Objects.KStr "step1", Objects.VRef 0);
               (Objects.KStr "step2", Objects.VRef 2)]
              eq_refl eq_refl eq_refl eq_refl eq_refl)
    as (h' & Hcall & _).
  - repeat constructor.
    + exists 0, [(Objects.KStr "run", Objects.VStr "projA/tool1.cwl")],
             "projA/tool1.cwl".
      repeat split.
    + exists 2, [(Objects.KStr "run", Objects.VStr "projA/tool2.cwl");
                 (Objects.KStr "out", Objects.VRef 1)], "projA/tool2.cwl".
      repeat split.
  - repeat constructor; cbn; intuition discriminate.
  - exists h'. split; [exact Hcall|].
    rewrite <- Hcall. reflexivity.
Defined.

(** C2 as stated fails: ['projA/tool1.cwl'] does not become
    ['<api_dir>/projA/steps/tool1.cwl'], the project segment stays in the
    path; where two steps are one mapping object, the [run] of that
    object is rewritten twice; and a document with a date in it is not
    returned as JSON: [json.dumps] raises [TypeError]. *)
Lemma translate_workflow_keeps_project_segment :
  RemoteApi.translate_workflow (ext := example_externals) example_api
                               "<workflow.cwl>"
  <> Ok (render example_workflow_without_project)
  /\ RemoteApi.translate_workflow (ext := object_externals) example_api
                                  "<shared.cwl>"
     = Ok (render example_shared_steps_translated)
  /\ RemoteApi.translate_workflow (ext := object_externals) example_api
                                  "<dated.cwl>"
     = Raise TypeError.
Proof.
  split; [|split]; vm_compute; [discriminate | reflexivity | reflexivity].
Qed.

(** ** Macro substitution *)

Lemma replace_from_zero (old new s : string) :
  replace_from old new (Some 0) 0 s = s.
Proof. now destruct s. Qed.

Lemma replace_from_skip (old new : string) (count : option nat)
      (a rest : string) :
  replace_from old new count (String.length a) (a ++ rest)
  = replace_from old new count 0 rest.
Proof. induction a as [|c a IH]; simpl; [now destruct rest | exact IH]. Qed.

(** At an occurrence of the token the replacement is emitted and the scan
    resumes right after the token, with one replacement fewer allowed. *)
Lemma replace_from_token (c : ascii) (old' new : string) (count : option nat)
      (rest : string) :
  count <> Some 0 ->
  replace_from (String c old') new count 0 (String c old' ++ rest)
  = new ++ replace_from (String c old') new (option_map Nat.pred count) 0 rest.
Proof.
  intro Hc.
  pose proof (startswith_append (String c old') rest) as Hs.
  cbn [append] in Hs.
  cbn [append replace_from]. rewrite Hs.
  replace (String.length (String c old') - 1) with (String.length old')
    by (simpl; lia).
  rewrite replace_from_skip.
  destruct count as [[|n]|]; [congruence| reflexivity | reflexivity].
Qed.

(** Text without a dollar sign is copied: no token starts in it. *)
Lemma replace_from_no_dollar (old' new : string) (count : option nat)
      (a rest : string) :
  no_dollar a = true ->
  replace_from (String "$" old') new count 0 (a ++ rest)
  = a ++ replace_from (String "$" old') new count 0 rest.
Proof.
  intro Ha.
  destruct count as [[|n]|].
  - now rewrite !replace_from_zero.
  - induction a as [|c a IH]; [reflexivity|].
    simpl in Ha. apply andb_true_iff in Ha as [Hc Ha].
    apply negb_true_iff in Hc.
    cbn [append replace_from startswith].
    rewrite Ascii.eqb_sym, Hc. cbn [andb]. now rewrite IH.
  - induction a as [|c a IH]; [reflexivity|].
    simpl in Ha. apply andb_true_iff in Ha as [Hc Ha].
    apply negb_true_iff in Hc.
    cbn [append replace_from startswith].
    rewrite Ascii.eqb_sym, Hc. cbn [andb]. now rewrite IH.
Qed.

Lemma replace_no_dollar_id (old' new s : string) :
  no_dollar s = true -> replace (String "$" old') new s = s.
Proof.
  intro H. unfold replace.
  rewrite <- (append_nil_r s) at 1.
  rewrite (replace_from_no_dollar _ _ _ _ _ H). simpl. apply append_nil_r.
Qed.

(** With a count of one only the first occurrence is replaced; what
    follows it is kept, further occurrences included. *)
Lemma replace_n_first (old' new ws tail : string) :
  no_dollar ws = true ->
  replace_n (String "$" old') new 1 (ws ++ String "$" old' ++ tail)
  = ws ++ new ++ tail.
Proof.
  intro H. unfold replace_n.
  rewrite (replace_from_no_dollar _ _ _ _ _ H).
  rewrite replace_from_token by discriminate.
  cbn [option_map Nat.pred]. now rewrite replace_from_zero.
Qed.

Lemma all_space_no_dollar (ws : string) :
  all_space ws = true -> no_dollar ws = true.
Proof.
  induction ws as [|c ws IH]; [reflexivity|].
  simpl. intro H. apply andb_true_iff in H as [Hc H].
  rewrite (IH H), andb_true_r.
  destruct (Ascii.eqb_spec c "$") as [->|]; [discriminate | reflexivity].
Qed.

(** *** [str.replace] against its description *)

Lemma replace_from_absent (old new : string) (limit : option nat) (s : string) :
  contains old s = false -> replace_from old new limit 0 s = s.
Proof.
  induction s as [|c s IH]; [reflexivity|].
  cbn [contains]. intro H. apply orb_false_iff in H as [Hs Hc].
  cbn [replace_from]. rewrite Hs, (IH Hc).
  now destruct limit as [[|n]|].
Qed.

Lemma first_occurrence_exists (old s : string) :
  contains old s = true -> exists a b, first_occurrence old a b s.
Proof.
  induction s as [|c s IH]; cbn [contains]; intro H.
  - rewrite orb_false_r in H. apply startswith_iff in H as [r Hr].
    exists "", r. split; [exact Hr|]. intros. cbn. lia.
  - destruct (startswith (String c s) old) eqn:Hs.
    + apply startswith_iff in Hs as [r Hr].
      exists "", r. split; [exact Hr|]. intros. cbn. lia.
    + cbn [orb] in H. destruct (IH H) as (a & b & -> & Hmin).
      exists (String c a), b. split; [reflexivity|].
      intros [|c' a'] b' E.
      * cbn [append] in E. rewrite E, startswith_append in Hs. discriminate.
      * cbn [append] in E. injection E as <- E.
        specialize (Hmin _ _ E). cbn. lia.
Qed.

Lemma first_occurrence_tail (old : string) (c : ascii) (a b : string) :
  first_occurrence old (String c a) b (String c a ++ old ++ b) ->
  startswith (String c a ++ old ++ b) old = false
  /\ first_occurrence old a b (a ++ old ++ b).
Proof.
  intros [_ Hmin]. split.
  - destruct (startswith (String c a ++ old ++ b) old) eqn:Hs; [|reflexivity].
    apply startswith_iff in Hs as [r Hr].
    specialize (Hmin "" r Hr). cbn in Hmin. lia.
  - split; [reflexivity|]. intros a' b' E.
    specialize (Hmin (String c a') b'). cbn [append] in Hmin.
    rewrite E in Hmin. specialize (Hmin eq_refl). cbn in Hmin. lia.
Qed.

(** At the first occurrence the text before it is copied, the
    replacement is put, and the scan goes on after the occurrence with
    one replacement fewer to make. *)
Lemma replace_from_first (o : ascii) (old' new : string) (limit : option nat)
      (a b : string) :
  limit <> Some 0 ->
  first_occurrence (String o old') a b (a ++ String o old' ++ b) ->
  replace_from (String o old') new limit 0 (a ++ String o old' ++ b)
  = a ++ new
      ++ replace_from (String o old') new (option_map Nat.pred limit) 0 b.
Proof.
  intro Hl. induction a as [|c a IH]; intro Hfirst.
  - cbn [append]. now apply replace_from_token.
  - apply first_occurrence_tail in Hfirst as [Hs Hfirst].
    specialize (IH Hfirst).
    change (String c a ++ String o old' ++ b)
      with (String c (a ++ String o old' ++ b)) in Hs |- *.
    remember (a ++ String o old' ++ b) as s1 eqn:Hs1.
    cbn [replace_from]. rewrite Hs, IH.
    destruct limit as [[|n]|]; [congruence | reflexivity | reflexivity].
Qed.

Lemma length_after_occurrence (o : ascii) (old' a b : string) :
  String.length b < String.length (a ++ String o old' ++ b).
Proof. rewrite !length_append. cbn. lia. Qed.

(** [str.replace] does what its description says: it replaces the
    occurrences found from left to right, each search starting after the
    occurrence found before, as many of them as the count allows. *)
Lemma replace_from_substituted (o : ascii) (old' new : string) (s : string) :
  forall limit,
    substituted (String o old') new limit s
                (replace_from (String o old') new limit 0 s).
Proof.
  remember (String.length s) as n eqn:Hn. revert s Hn.
  induction n as [n IH] using lt_wf_ind. intros s Hn limit.
  destruct (option_eq_zero limit) as [->|Hl].
  - rewrite replace_from_zero. apply substituted_limit.
  - destruct (contains (String o old') s) eqn:Hc.
    + destruct (first_occurrence_exists _ _ Hc) as (a & b & Hfirst).
      pose proof Hfirst as [-> _].
      rewrite (replace_from_first _ _ _ _ _ _ Hl Hfirst).
      apply (substituted_next _ _ _ a b); [exact Hl | exact Hfirst |].
      apply (IH (String.length b)); [|reflexivity].
      subst n. apply length_after_occurrence.
    + rewrite (replace_from_absent _ _ _ _ Hc).
      apply substituted_done. now apply contains_false_iff.
Qed.

Lemma lstrip_starts (bc p : string) (c : ascii) :
  isspace c = false ->
  startswith (lstrip bc) (String c p) = true ->
  exists ws tail, bc = ws ++ String c p ++ tail /\ all_space ws = true.
Proof.
  intros Hc. induction bc as [|x bc IH]; cbn [lstrip]; intro H.
  - discriminate.
  - destruct (isspace x) eqn:Hx.
    + destruct (IH H) as (ws & tail & -> & Hws).
      exists (String x ws), tail. split; [reflexivity|].
      cbn [all_space]. now rewrite Hx.
    + apply startswith_iff in H as [tail Htail].
      exists "", tail. split; [exact Htail | reflexivity].
Qed.

Lemma map_JStr_inj (a b : list string) : map JStr a = map JStr b -> a = b.
Proof.
  revert b. induction a as [|x a IH]; intros [|y b] E; try discriminate;
    [reflexivity|].
  injection E as -> E. now rewrite (IH _ E).
Qed.

Section MacroSubstitution.
Context {ext : Externals}.

Lemma mapM_translate_arguments (files_dir : Cerulean.Path) (args : list string) :
  mapM (RemoteApi.translate_argument files_dir) (map JStr args)
  = Ok (map JStr (map (replace CERISE_API_FILES (Cerulean.str files_dir)) args)).
Proof.
  induction args as [|a args IH]; [reflexivity|].
  cbn [map mapM RemoteApi.translate_argument bind].
  rewrite IH. reflexivity.
Qed.

Lemma arguments_substituted (files : string) (args : list string) :
  Forall2 (substituted CERISE_API_FILES files None) args
          (map (replace CERISE_API_FILES files) args).
Proof.
  induction args as [|a args IH]; constructor; [|exact IH].
  apply replace_from_substituted.
Qed.

(** The [baseCommand] part of [_translate_api_step]. *)
Lemma translate_base_command (files_dir : Cerulean.Path) (d : Dict.t) :
  (forall v, Dict.get "baseCommand" d = Some v -> exists bc, v = JStr bc) ->
  exists d1,
    match Dict.get "baseCommand" d with
    | None => Ok d
    | Some (JStr bc) =>
        if startswith (lstrip bc) CERISE_API_FILES
        then Ok (Dict.set "baseCommand"
                   (JStr (replace_n CERISE_API_FILES
                            (Cerulean.str files_dir) 1 bc)) d)
        else Ok d
    | Some _ => Raise AttributeError
    end = Ok d1
    /\ map fst d1 = map fst d
    /\ (forall key, key <> "baseCommand" -> Dict.get key d1 = Dict.get key d)
    /\ (Dict.get "baseCommand" d = None -> Dict.get "baseCommand" d1 = None)
    /\ (forall bc,
           Dict.get "baseCommand" d = Some (JStr bc) ->
           if startswith (lstrip bc) CERISE_API_FILES
           then exists ws tail,
                  bc = ws ++ CERISE_API_FILES ++ tail
                  /\ all_space ws = true
                  /\ Dict.get "baseCommand" d1
                     = Some (JStr (ws ++ Cerulean.str files_dir ++ tail))
           else Dict.get "baseCommand" d1 = Some (JStr bc)).
Proof.
  intro Hstr. destruct (Dict.get "baseCommand" d) as [v|] eqn:Hbc.
  - destruct (Hstr v eq_refl) as [bc ->].
    destruct (startswith (lstrip bc) CERISE_API_FILES) eqn:Hs.
    + eexists. split; [reflexivity|]. repeat split.
      * exact (keys_set_present _ _ _ _ Hbc).
      * intros key Hk. apply get_set_other. congruence.
      * discriminate.
      * intros bc' E. injection E as <-. rewrite Hs.
        destruct (lstrip_starts bc "CERISE_API_FILES" "$" eq_refl Hs)
          as (ws & tail & -> & Hws).
        exists ws, tail. repeat split; [exact Hws|].
        rewrite get_set_same. unfold CERISE_API_FILES.
        now rewrite (replace_n_first _ _ _ _ (all_space_no_dollar _ Hws)).
    + exists d. repeat split; try congruence.
      intros bc' E. injection E as <-. now rewrite Hs.
  - exists d. repeat split; intros; try reflexivity; congruence.
Qed.

(** The [arguments] part of [_translate_api_step]. *)
Lemma translate_arguments (files_dir : Cerulean.Path) (d1 : Dict.t) :
  (forall v, Dict.get "arguments" d1 = Some v ->
             exists args, v = JList (map JStr args)) ->
  exists d2,
    match Dict.get "arguments" d1 with
    | None => Ok d1
    | Some (JList arguments) =>
        newargs <- mapM (RemoteApi.translate_argument files_dir) arguments ;;
        Ok (Dict.set "arguments" (JList newargs) d1)
    | Some _ => Raise (NameError "filename")
    end = Ok d2
    /\ map fst d2 = map fst d1
    /\ (forall key, key <> "arguments" -> Dict.get key d2 = Dict.get key d1)
    /\ (Dict.get "arguments" d1 = None -> Dict.get "arguments" d2 = None)
    /\ (forall args,
           Dict.get "arguments" d1 = Some (JList (map JStr args)) ->
           exists args',
             Dict.get "arguments" d2 = Some (JList (map JStr args'))
             /\ Forall2 (substituted CERISE_API_FILES
                                     (Cerulean.str files_dir) None)
                        args args').
Proof.
  intro Hlist. destruct (Dict.get "arguments" d1) as [v|] eqn:Hargs.
  - destruct (Hlist v eq_refl) as [args ->].
    rewrite mapM_translate_arguments. cbn [bind].
    eexists. split; [reflexivity|]. repeat split.
    + exact (keys_set_present _ _ _ _ Hargs).
    + intros key Hk. apply get_set_other. congruence.
    + discriminate.
    + intros args' E. injection E as E.
      eexists. split; [apply get_set_same|].
      apply map_JStr_inj in E. subst args'.
      apply arguments_substituted.
  - exists d1. repeat split; intros; try reflexivity; congruence.
Qed.

(** C8, as amended: [translate_runner_location] replaces every occurrence
    of [$CERISE_API] in the location by the API directory and then, when
    a user name is configured, every occurrence of [$CERISE_USERNAME] in
    the result by it.  In a tool whose [baseCommand], if any, is a
    string and whose [arguments], if any, are strings,
    [$CERISE_API_FILES] is replaced at its first occurrence only in a
    [baseCommand] that starts with it (leading white space aside), a
    [baseCommand] that does not start with it is kept, and in every
    element of [arguments] every occurrence is replaced, whatever the
    [baseCommand] is; the other entries and the order of the keys are
    kept.  Occurrences are taken left to right, each search starting
    after the occurrence found before. *)
Theorem macro_substitution :
  (forall (self : RemoteApi.t) (runner_location : string),
      exists t,
        substituted CERISE_API (Cerulean.str (RemoteApi._api_dir self)) None
                    runner_location t
        /\ match RemoteApi._username self with
           | Some u =>
               if String.eqb u ""
               then RemoteApi.translate_runner_location self runner_location = t
               else substituted CERISE_USERNAME u None t
                      (RemoteApi.translate_runner_location self runner_location)
           | None =>
               RemoteApi.translate_runner_location self runner_location = t
           end)
  /\
  (forall (text : string) (d : Dict.t) (remote_project_dir : Cerulean.Path),
      yaml_safe_load text = Ok (JDict d) ->
      Dict.get "class" d = Some (JStr "CommandLineTool") ->
      (forall v, Dict.get "baseCommand" d = Some v -> exists bc, v = JStr bc) ->
      (forall v, Dict.get "arguments" d = Some v ->
                 exists args, v = JList (map JStr args)) ->
      let files := Cerulean.str (Cerulean.div remote_project_dir "files") in
      exists d',
        RemoteApi._translate_api_step text remote_project_dir = Ok (JDict d')
        /\ map fst d' = map fst d
        /\ (forall key, key <> "baseCommand" -> key <> "arguments" ->
                        Dict.get key d' = Dict.get key d)
        /\ (Dict.get "baseCommand" d = None -> Dict.get "baseCommand" d' = None)
        /\ (forall bc,
               Dict.get "baseCommand" d = Some (JStr bc) ->
               if startswith (lstrip bc) CERISE_API_FILES
               then exists ws tail,
                      bc = ws ++ CERISE_API_FILES ++ tail
                      /\ all_space ws = true
                      /\ Dict.get "baseCommand" d'
                         = Some (JStr (ws ++ files ++ tail))
               else Dict.get "baseCommand" d' = Some (JStr bc))
        /\ (Dict.get "arguments" d = None -> Dict.get "arguments" d' = None)
        /\ (forall args,
               Dict.get "arguments" d = Some (JList (map JStr args)) ->
               exists args',
                 Dict.get "arguments" d' = Some (JList (map JStr args'))
                 /\ Forall2 (substituted CERISE_API_FILES files None)
                            args args')).
Proof.
  split.
  - intros self runner_location.
    exists (replace CERISE_API (Cerulean.str (RemoteApi._api_dir self))
                    runner_location).
    split; [apply replace_from_substituted|].
    unfold RemoteApi.translate_runner_location.
    destruct (RemoteApi._username self) as [[|c u]|]; try reflexivity.
    cbn [String.eqb]. apply replace_from_substituted.
  - intros text d dir Hyaml Hclass Hbase Hargs files.
    destruct (translate_base_command (Cerulean.div dir "files") d Hbase)
      as (d1 & Hd1 & Hk1 & Ho1 & Hn1 & Hb1).
    assert (Hargs1 : forall v, Dict.get "arguments" d1 = Some v ->
                               exists args, v = JList (map JStr args))
      by (intro v; rewrite Ho1 by discriminate; apply Hargs).
    destruct (translate_arguments (Cerulean.div dir "files") d1 Hargs1)
      as (d2 & Hd2 & Hk2 & Ho2 & Hn2 & Ha2).
    exists d2. split; [|split; [|split; [|split; [|split; [|split]]]]].
    + unfold RemoteApi._translate_api_step.
      rewrite Hyaml. cbn [bind py_get]. rewrite Hclass.
      cbn [json_eqb]. rewrite (String.eqb_refl "CommandLineTool").
      match goal with
      | |- bind ?m _ = _ =>
          replace m with (Ok (A := Dict.t) d1) by (symmetry; exact Hd1)
      end.
      cbn [bind].
      match goal with
      | |- bind ?m _ = _ =>
          replace m with (Ok (A := Dict.t) d2) by (symmetry; exact Hd2)
      end.
      reflexivity.
    + now rewrite Hk2, Hk1.
    + intros key Hb Ha. now rewrite (Ho2 key Ha), (Ho1 key Hb).
    + intro H. rewrite Ho2 by discriminate. now apply Hn1.
    + intros bc H. specialize (Hb1 bc H).
      destruct (startswith (lstrip bc) CERISE_API_FILES).
      * destruct Hb1 as (ws & tail & E & Hws & Hget).
        exists ws, tail. repeat split; try assumption.
        now rewrite Ho2 by discriminate.
      * now rewrite Ho2 by discriminate.
    + intro H. apply Hn2. now rewrite Ho1 by discriminate.
    + intros args H. apply Ha2. now rewrite Ho1 by discriminate.
Qed.

End MacroSubstitution.

Lemma macro_substitution_witness :
  (exists t,
      substituted CERISE_API "/home/cerise/api" None
                  "$CERISE_API/bin/cwltiny --lib=$CERISE_API/lib" t
      /\ RemoteApi.translate_runner_location example_api
           "$CERISE_API/bin/cwltiny --lib=$CERISE_API/lib"
         = t)
  /\ (exists d',
         RemoteApi._translate_api_step (ext := example_externals) "<step.cwl>"
           ["home"; "cerise"; "api"; "projA"]
         = Ok (JDict d')
         /\ exists args',
              Dict.get "arguments" d' = Some (JList (map JStr args'))
              /\ Forall2 (substituted CERISE_API_FILES
                            "/home/cerise/api/projA/files" None)
                         ["-I$CERISE_API_FILES/a:$CERISE_API_FILES/b";
                          "--verbose"]
                         args').
Proof.
  split.
  - exact (proj1 (macro_substitution (ext := example_externals)) example_api
             "$CERISE_API/bin/cwltiny --lib=$CERISE_API/lib").
  - destruct (proj2 (macro_substitution (ext := example_externals))
                "<step.cwl>" example_step ["home"; "cerise"; "api"; "projA"]
                eq_refl eq_refl)
      as (d' & Hstep & _ & _ & _ & _ & _ & Hargs).
    + intros v H. injection H as <-. eexists. reflexivity.
    + intros v H. injection H as <-.
      exists ["-I$CERISE_API_FILES/a:$CERISE_API_FILES/b"; "--verbose"].
      reflexivity.
    + exists d'. split; [exact Hstep|].
      apply (Hargs ["-I$CERISE_API_FILES/a:$CERISE_API_FILES/b"; "--verbose"]).
      reflexivity.
Defined.

(** C8 as stated fails: [translate_runner_location] does not stop after
    the first [$CERISE_API], and an element of [arguments] does not keep
    its second [$CERISE_API_FILES]. *)
Lemma translate_runner_location_replaces_all :
  RemoteApi.translate_runner_location example_api
    "$CERISE_API/bin/cwltiny --lib=$CERISE_API/lib"
  <> replace_n CERISE_API (Cerulean.str (RemoteApi._api_dir example_api)) 1
       "$CERISE_API/bin/cwltiny --lib=$CERISE_API/lib"
  /\ RemoteApi.translate_argument ["home"; "cerise"; "api"; "projA"; "files"]
       (JStr "-I$CERISE_API_FILES/a:$CERISE_API_FILES/b")
     <> Ok (JStr (replace_n CERISE_API_FILES "/home/cerise/api/projA/files" 1
                    "-I$CERISE_API_FILES/a:$CERISE_API_FILES/b")).
Proof. split; vm_compute; discriminate. Qed.

(** ** API installer and the base directory *)

Lemma path_eqb_refl (p : Cerulean.Path) : Cerulean.path_eqb p p = true.
Proof. unfold Cerulean.path_eqb. now destruct (list_eq_dec string_dec p p). Qed.

Lemma path_eqb_eq (p q : Cerulean.Path) : Cerulean.path_eqb p q = true -> p = q.
Proof.
  unfold Cerulean.path_eqb.
  now destruct (list_eq_dec string_dec p q).
Qed.

Lemma is_dir_add_dir_same (p : Cerulean.Path) (fs : Cerulean.FileSystem) :
  Cerulean.is_dir (Cerulean.add_dir p fs) p = true.
Proof.
  unfold Cerulean.add_dir.
  destruct (Cerulean.is_dir fs p) eqn:E; [exact E|].
  destruct p as [|seg p]; [reflexivity|].
  unfold Cerulean.is_dir. cbn [Cerulean.dirs existsb].
  now rewrite path_eqb_refl.
Qed.

Lemma is_dir_add_dir_mono (p q : Cerulean.Path) (fs : Cerulean.FileSystem) :
  Cerulean.is_dir fs q = true -> Cerulean.is_dir (Cerulean.add_dir p fs) q = true.
Proof.
  intro H. unfold Cerulean.add_dir.
  destruct (Cerulean.is_dir fs p); [exact H|].
  destruct q as [|seg q]; [reflexivity|].
  unfold Cerulean.is_dir in *. cbn [Cerulean.dirs existsb].
  rewrite H. apply orb_true_r.
Qed.

Lemma is_dir_makedirs (l : list Cerulean.Path) (fs : Cerulean.FileSystem)
      (q : Cerulean.Path) :
  In q l \/ Cerulean.is_dir fs q = true ->
  Cerulean.is_dir (fold_left (fun acc p => Cerulean.add_dir p acc) l fs) q = true.
Proof.
  revert fs. induction l as [|p l IH]; intros fs [Hin|Hdir]; simpl.
  - contradiction.
  - exact Hdir.
  - destruct Hin as [->|Hin].
    + apply IH. right. apply is_dir_add_dir_same.
    + apply IH. now left.
  - apply IH. right. now apply is_dir_add_dir_mono.
Qed.

Lemma prefixes_app (a b : Cerulean.Path) :
  In a (Cerulean.prefixes (a ++ b)%list).
Proof.
  induction a as [|seg a IH]; simpl.
  - destruct b; simpl; now left.
  - right. apply in_map. exact IH.
Qed.

Lemma prefixes_self (p : Cerulean.Path) : In p (Cerulean.prefixes p).
Proof. pose proof (prefixes_app p []) as H. now rewrite app_nil_r in H. Qed.

Lemma closed_parent_is_dir (fs : Cerulean.FileSystem) (p : Cerulean.Path) :
  closed_under_parent fs = true ->
  Cerulean.is_dir fs p = true -> Cerulean.is_dir fs (Cerulean.parent p) = true.
Proof.
  intros Hc Hp. destruct p as [|seg p]; [reflexivity|].
  unfold Cerulean.is_dir in Hp. apply existsb_exists in Hp as (q & Hq & Heq).
  apply path_eqb_eq in Heq. subst q.
  unfold closed_under_parent in Hc. rewrite forallb_forall in Hc.
  now apply Hc.
Qed.

Lemma div_api (basedir : Cerulean.Path) :
  Cerulean.div basedir "api" = (basedir ++ ["api"])%list.
Proof. reflexivity. Qed.

(** Without [parents] the same call refuses to create a directory whose
    parent is missing. *)
Lemma mkdir_without_parents_refuses (fs : Cerulean.FileSystem)
      (p : Cerulean.Path) (mode : nat) (exists_ok : bool) :
  Cerulean.is_dir fs p = false ->
  Cerulean.is_dir fs (Cerulean.parent p) = false ->
  exists e, Cerulean.mkdir fs p mode false exists_ok = Raise e.
Proof.
  intros Hp Hpar. unfold Cerulean.mkdir. rewrite Hp, Hpar.
  destruct (Cerulean.is_file fs p); eauto.
  destruct (existsb (Cerulean.is_file fs) (Cerulean.prefixes p)); eauto.
Qed.

(** C9: setting up the installer on a remote file system in which the
    configured base directory does not exist does not fail: the call
    [mkdir(0o750, parents=True, exists_ok=True)] on [<base>/api] creates
    the base directory along the way. *)
Theorem init_creates_missing_base_directory
        (config : RemoteApi.Config) (fs : Cerulean.FileSystem) :
  closed_under_parent fs = true ->
  Cerulean.is_dir fs (RemoteApi.get_basedir config) = false ->
  existsb (Cerulean.is_file fs)
          (Cerulean.prefixes (Cerulean.div (RemoteApi.get_basedir config) "api"))
  = false ->
  exists self fs',
    RemoteApi.__init__ config fs = Ok (self, fs')
    /\ Cerulean.is_dir fs' (RemoteApi.get_basedir config) = true
    /\ Cerulean.is_dir fs' (RemoteApi._api_dir self) = true.
Proof.
  intros Hclosed Hbase Hfiles.
  set (basedir := RemoteApi.get_basedir config) in *.
  assert (Hparent : Cerulean.parent (Cerulean.div basedir "api") = basedir)
    by (rewrite div_api; unfold Cerulean.parent; apply removelast_last).
  assert (Hapi : Cerulean.is_dir fs (Cerulean.div basedir "api") = false).
  { destruct (Cerulean.is_dir fs (Cerulean.div basedir "api")) eqn:E;
      [|reflexivity].
    apply (closed_parent_is_dir _ _ Hclosed) in E.
    rewrite Hparent in E. congruence. }
  assert (Hfile : Cerulean.is_file fs (Cerulean.div basedir "api") = false).
  { destruct (Cerulean.is_file fs (Cerulean.div basedir "api")) eqn:E;
      [|reflexivity].
    assert (existsb (Cerulean.is_file fs)
                    (Cerulean.prefixes (Cerulean.div basedir "api")) = true)
      by (apply existsb_exists; eexists; split; [apply prefixes_self | exact E]).
    congruence. }
  eexists. eexists. split; [|split].
  - unfold RemoteApi.__init__. fold basedir.
    unfold Cerulean.mkdir. rewrite Hapi, Hfile, Hfiles, Hparent, Hbase.
    cbn [bind]. reflexivity.
  - apply is_dir_makedirs. left. rewrite div_api. apply prefixes_app.
  - cbn [RemoteApi._api_dir]. apply is_dir_makedirs. left. apply prefixes_self.
Qed.

Lemma init_creates_missing_base_directory_witness :
  exists self fs',
    RemoteApi.__init__ example_config example_fs = Ok (self, fs')
    /\ Cerulean.is_dir fs' ["home"; "user"; ".cerise"] = true
    /\ Cerulean.is_dir fs' (RemoteApi._api_dir self) = true.
Proof.
  apply (init_creates_missing_base_directory example_config example_fs);
    reflexivity.
Defined.

(** ** Destaging *)

Section Destaging.
Context {ext : Externals}.
Variable work_dir : Cerulean.Path.

Let pfx : string := "file://" ++ Cerulean.str work_dir ++ "/".

Lemma inside_startswith (f : InputFile) (loc : string) :
  if_location f = JStr loc ->
  (startswith loc pfx = true <-> inside pfx f).
Proof.
  intro Hloc. unfold inside. rewrite Hloc, startswith_iff.
  split; intros [r Hr]; exists r; congruence.
Qed.

(** A location outside the work directory ends the loop with the
    unexpected-location error, whatever came before it. *)
Lemma destage_files_stray (resolved : list InputFile) :
  Forall has_string_location resolved ->
  Exists (fun f => ~ inside pfx f) resolved ->
  exists loc,
    RemoteJobFiles.destage_files work_dir resolved
    = Raise (UnexpectedOutputLocation loc pfx)
    /\ startswith loc pfx = false
    /\ In (JStr loc) (map if_location resolved).
Proof.
  induction 1 as [|f rest [loc Hloc] Hrest IH]; intro Hex.
  - inversion Hex.
  - cbn [RemoteJobFiles.destage_files]. rewrite Hloc. fold pfx.
    destruct (startswith loc pfx) eqn:Hs; cbn [negb].
    + assert (Hin : Exists (fun f => ~ inside pfx f) rest).
      { inversion Hex as [? ? Hbad | ? ? Hlater]; subst; [|exact Hlater].
        exfalso. apply Hbad. now apply (inside_startswith f loc Hloc). }
      destruct (IH Hin) as (loc' & Hraise & Hno & Hmem).
      exists loc'. rewrite Hraise. cbn [bind map].
      repeat split; [exact Hno | now right].
    + exists loc. cbn [map]. rewrite Hloc. repeat split; [exact Hs | now left].
Qed.

(** Whatever the type of the locations, one file outside the work
    directory is enough for the loop to raise. *)
Lemma destage_files_stray_raises (resolved : list InputFile) :
  Exists (fun f => ~ inside pfx f) resolved ->
  exists e, RemoteJobFiles.destage_files work_dir resolved = Raise e.
Proof.
  induction resolved as [|f rest IH]; intro Hex; [inversion Hex|].
  cbn [RemoteJobFiles.destage_files]. fold pfx.
  destruct (if_location f) as [| | | |loc| |] eqn:Hloc; eauto.
  destruct (startswith loc pfx) eqn:Hs; cbn [negb]; eauto.
  assert (Hin : Exists (fun f => ~ inside pfx f) rest).
  { inversion Hex as [? ? Hbad | ? ? Hlater]; subst; [|exact Hlater].
    exfalso. apply Hbad. now apply (inside_startswith f loc Hloc). }
  destruct (IH Hin) as [e He]. rewrite He. cbn [bind]. eauto.
Qed.

Lemma destage_files_inside (resolved : list InputFile) :
  Forall (inside pfx) resolved ->
  exists outs,
    RemoteJobFiles.destage_files work_dir resolved = Ok outs
    /\ Forall2 (destaged pfx work_dir) resolved outs.
Proof.
  induction 1 as [|f rest [rel Hloc] _ (outs & Hok & Hall)].
  - exists []. split; [reflexivity | constructor].
  - cbn [RemoteJobFiles.destage_files]. rewrite Hloc. fold pfx.
    rewrite startswith_append, drop_append_length. cbn [negb].
    rewrite Hok. cbn [bind].
    eexists. split; [reflexivity|].
    constructor; [|exact Hall].
    unfold destaged. cbn. now rewrite Hloc.
Qed.

End Destaging.

Section DestageJobOutput.
Context {ext : Externals}.

(** C3: for a job with a non-empty recorded remote output that resolves
    to a list of output files: when the location of some file does not
    start with [file://<workdir>/], [destage_job_output] raises and so
    returns no list, not even of the files before the bad one, and the
    error is the unexpected-location error when the locations are
    strings; when all locations start with the prefix, it returns one
    file per resolved file, in order, with the location made relative to
    the work directory and the remote source path attached. *)
Theorem destage_job_output_all_or_nothing
        (self : RemoteJobFiles.t) (job_id : string) (job : RemoteJobFiles.Job)
        (outputs : json) (resolved : list InputFile) :
  RemoteJobFiles.remote_output job <> "" ->
  json_loads (RemoteJobFiles.remote_output job) = Ok outputs ->
  get_files_from_binding outputs = Ok resolved ->
  (Exists (fun f => ~ inside (output_prefix self job_id) f) resolved ->
   (exists e, RemoteJobFiles.destage_job_output self job_id job = Raise e)
   /\ (Forall has_string_location resolved ->
       exists loc,
         RemoteJobFiles.destage_job_output self job_id job
         = Raise (UnexpectedOutputLocation loc (output_prefix self job_id))
         /\ startswith loc (output_prefix self job_id) = false
         /\ In (JStr loc) (map if_location resolved)))
  /\
  (Forall (inside (output_prefix self job_id)) resolved ->
   exists outs,
     RemoteJobFiles.destage_job_output self job_id job = Ok outs
     /\ Forall2 (destaged (output_prefix self job_id)
                          (RemoteJobFiles.work_dir_of self job_id))
                resolved outs).
Proof.
  intros Hne Hloads Hresolved.
  apply String.eqb_neq in Hne.
  unfold RemoteJobFiles.destage_job_output.
  rewrite Hne, Hloads. cbn [negb bind]. rewrite Hresolved. cbn [bind].
  split; [intro H; split; [|intro Hstr] | intro H].
  - exact (destage_files_stray_raises _ _ H).
  - exact (destage_files_stray _ _ Hstr H).
  - exact (destage_files_inside _ _ H).
Qed.

End DestageJobOutput.

Lemma destage_job_output_all_or_nothing_witness :
  (exists loc,
      RemoteJobFiles.destage_job_output (ext := example_externals)
        example_job_files "job1"
        (RemoteJobFiles.mkJob "wc" "<stray output>" "" [])
      = Raise (UnexpectedOutputLocation
                 loc (output_prefix example_job_files "job1"))
      /\ startswith loc (output_prefix example_job_files "job1") = false
      /\ In (JStr loc)
            [JStr "file:///home/cerise/jobs/job1/work/out.txt";
             JStr "file:///etc/passwd"])
  /\
  (exists outs,
      RemoteJobFiles.destage_job_output (ext := example_externals)
        example_job_files "job1"
        (RemoteJobFiles.mkJob "wc" "<output>" "" [])
      = Ok outs
      /\ Forall2 (destaged (output_prefix example_job_files "job1")
                           ["home"; "cerise"; "jobs"; "job1"; "work"])
                 [mkInputFile (Some "out")
                    (JStr "file:///home/cerise/jobs/job1/work/result/out.txt")
                    None []]
                 outs).
Proof.
  split.
  - apply (destage_job_output_all_or_nothing (ext := example_externals)
             example_job_files "job1"
             (RemoteJobFiles.mkJob "wc" "<stray output>" "" [])
             example_stray_output
             [mkInputFile (Some "out")
                (JStr "file:///home/cerise/jobs/job1/work/out.txt") None [];
              mkInputFile (Some "log") (JStr "file:///etc/passwd") None []]).
    + discriminate.
    + reflexivity.
    + reflexivity.
    + apply Exists_cons_tl. apply Exists_cons_hd.
      intros [rel Hrel]. vm_compute in Hrel. discriminate.
    + repeat constructor; eexists; reflexivity.
  - apply (destage_job_output_all_or_nothing (ext := example_externals)
             example_job_files "job1"
             (RemoteJobFiles.mkJob "wc" "<output>" "" [])
             example_output
             [mkInputFile (Some "out")
                (JStr "file:///home/cerise/jobs/job1/work/result/out.txt")
                None []]).
    + discriminate.
    + reflexivity.
    + reflexivity.
    + repeat constructor. exists "result/out.txt". reflexivity.
Defined.

(** ** Polling *)

(** A line feed ends the current line: the lines of what follows do not
    depend on what came before it. *)
Lemma splitlines_from_linefeed (a : string) :
  forall (after_cr : bool) (cur b : string),
    (after_cr = true -> cur = "") ->
    splitlines_from after_cr cur (a ++ String LF b)
    = (splitlines_from after_cr cur (a ++ String LF "")
       ++ splitlines_from false "" b)%list.
Proof.
  induction a as [|c a IH]; intros after_cr cur b Hinv.
  - destruct after_cr.
    + rewrite (Hinv eq_refl). reflexivity.
    + reflexivity.
  - cbn [append splitlines_from].
    destruct (after_cr && Ascii.eqb c LF).
    + apply IH. discriminate.
    + destruct (is_linebreak c).
      * cbn [app]. f_equal. apply IH. reflexivity.
      * apply IH. discriminate.
Qed.

Lemma splitlines_after_linefeed (pre extra : string) :
  splitlines ((pre ++ NEWLINE) ++ extra)
  = (splitlines (pre ++ NEWLINE) ++ splitlines extra)%list.
Proof.
  unfold splitlines, NEWLINE. rewrite append_assoc. cbn [append].
  apply splitlines_from_linefeed. discriminate.
Qed.

(** The lines past the old line count are the lines of the appended text,
    when the old text ended with a line feed. *)
Lemma new_lines_of_appended (pre extra : string) :
  skipn (List.length (splitlines (pre ++ NEWLINE)))
        (splitlines ((pre ++ NEWLINE) ++ extra))
  = splitlines extra.
Proof.
  rewrite splitlines_after_linefeed, skipn_app, skipn_all, Nat.sub_diag.
  reflexivity.
Qed.

Lemma length_zero_ltb (s : string) :
  (0 <? String.length s)%nat = negb (String.eqb s "").
Proof. now destruct s. Qed.

Lemma walk_app (fs : Cerulean.FileSystem) (a b : list string) :
  forall cur,
    Cerulean.walk fs cur (a ++ b)%list
    = match Cerulean.walk fs cur a with
      | Cerulean.At q => Cerulean.walk fs q b
      | Cerulean.NoEntry => Cerulean.NoEntry
      | Cerulean.NotADirectory => Cerulean.NotADirectory
      end.
Proof.
  induction a as [|seg a IH]; intro cur; [reflexivity|].
  cbn [app Cerulean.walk].
  destruct (Cerulean.is_dir fs cur); [apply IH|].
  now destruct (Cerulean.is_file fs cur).
Qed.

Lemma read_missing (fs : Cerulean.FileSystem) (p : Cerulean.Path) :
  Cerulean.exists_ fs p = false ->
  blocked fs p = false ->
  Cerulean.read_bytes fs p = Raise FileNotFoundError.
Proof.
  unfold Cerulean.exists_, Cerulean.is_file, Cerulean.read_bytes, blocked.
  destruct (Cerulean.resolve fs p) as [q| |]; intros H Hb;
    [|reflexivity|discriminate].
  apply orb_false_iff in H as [Hd Hf].
  destruct (Cerulean.lookup_file q (Cerulean.files fs)); [discriminate|].
  now rewrite Hd.
Qed.

Lemma read_blocked (fs : Cerulean.FileSystem) (p : Cerulean.Path) :
  blocked fs p = true ->
  Cerulean.read_bytes fs p = Raise NotADirectoryError.
Proof.
  unfold Cerulean.read_bytes, blocked.
  now destruct (Cerulean.resolve fs p).
Qed.

(** Whether a path is blocked does not depend on its last segment. *)
Lemma blocked_sibling (fs : Cerulean.FileSystem) (p : Cerulean.Path)
      (x y : string) :
  blocked fs (p ++ [x])%list = blocked fs (p ++ [y])%list.
Proof.
  unfold blocked, Cerulean.resolve. rewrite !walk_app.
  destruct (Cerulean.walk fs [] p) as [q| |]; try reflexivity.
  cbn [Cerulean.walk].
  destruct (Cerulean.is_dir fs q); [reflexivity|].
  now destruct (Cerulean.is_file fs q).
Qed.

Section Polling.
Context {ext : Externals}.
Variables (self : RemoteJobFiles.t) (fs : Cerulean.FileSystem)
          (job_id : string).

(** The files the runner writes sit side by side in the job directory:
    one is blocked when the other is. *)
Lemma blocked_in_job_dir :
  blocked fs (RemoteJobFiles._abs_path self job_id "stderr.txt")
  = blocked fs (RemoteJobFiles._abs_path self job_id "stdout.txt").
Proof.
  unfold RemoteJobFiles._abs_path. cbn [String.eqb Ascii.eqb Bool.eqb negb].
  unfold Cerulean.div at 1 3.
  change (Cerulean.segments "stderr.txt") with ["stderr.txt"].
  change (Cerulean.segments "stdout.txt") with ["stdout.txt"].
  apply blocked_sibling.
Qed.

Lemma read_missing_or_empty (rel_path : string) :
  missing_or_empty fs (RemoteJobFiles._abs_path self job_id rel_path) ->
  (blocked fs (RemoteJobFiles._abs_path self job_id rel_path) = false
   /\ RemoteJobFiles._read_remote_file self fs job_id rel_path = Ok "")
  \/ (blocked fs (RemoteJobFiles._abs_path self job_id rel_path) = true
      /\ RemoteJobFiles._read_remote_file self fs job_id rel_path
         = Raise NotADirectoryError).
Proof.
  unfold RemoteJobFiles._read_remote_file. intro Hm.
  destruct (blocked fs (RemoteJobFiles._abs_path self job_id rel_path)) eqn:Hb.
  - right. split; [reflexivity|]. now rewrite (read_blocked _ _ Hb).
  - left. split; [reflexivity|]. destruct Hm as [H|H].
    + now rewrite (read_missing _ _ H Hb).
    + unfold Cerulean.read_bytes. unfold content_at in H.
      destruct (Cerulean.resolve fs _); try discriminate. now rewrite H.
Qed.

(** C10, as amended: a missing remote file reads as empty bytes when no
    regular file stands in the place of a directory of its path; when
    [stdout.txt] is missing or empty [update_job] leaves [remote_output]
    as it was, when [stderr.txt] is missing or empty it leaves
    [remote_error] as it was and hands nothing to the job's log; with
    both missing or empty and no regular file in the place of the job
    directory or of a directory on the way to it, the call ends normally
    and the job record is unchanged; with such a regular file the call
    raises [NotADirectoryError] and the job record is unchanged. *)
Theorem update_job_without_remote_files (job : RemoteJobFiles.Job) :
  (forall rel_path,
      Cerulean.exists_ fs (RemoteJobFiles._abs_path self job_id rel_path) = false ->
      blocked fs (RemoteJobFiles._abs_path self job_id rel_path) = false ->
      RemoteJobFiles._read_remote_file self fs job_id rel_path = Ok "")
  /\
  (missing_or_empty fs (RemoteJobFiles._abs_path self job_id "stdout.txt") ->
   RemoteJobFiles.remote_output
     (fst (RemoteJobFiles.update_job self fs job_id job))
   = RemoteJobFiles.remote_output job)
  /\
  (missing_or_empty fs (RemoteJobFiles._abs_path self job_id "stderr.txt") ->
   RemoteJobFiles.remote_error
     (fst (RemoteJobFiles.update_job self fs job_id job))
   = RemoteJobFiles.remote_error job
   /\ RemoteJobFiles.debug_calls
        (fst (RemoteJobFiles.update_job self fs job_id job))
      = RemoteJobFiles.debug_calls job)
  /\
  (missing_or_empty fs (RemoteJobFiles._abs_path self job_id "stdout.txt") ->
   missing_or_empty fs (RemoteJobFiles._abs_path self job_id "stderr.txt") ->
   blocked fs (RemoteJobFiles._abs_path self job_id "stdout.txt") = false ->
   RemoteJobFiles.update_job self fs job_id job = (job, Ok tt))
  /\
  (blocked fs (RemoteJobFiles._abs_path self job_id "stdout.txt") = true ->
   RemoteJobFiles.update_job self fs job_id job
   = (job, Raise NotADirectoryError)).
Proof.
  split; [|split; [|split; [|split]]].
  - intros rel_path H Hb. unfold RemoteJobFiles._read_remote_file.
    now rewrite (read_missing _ _ H Hb).
  - intro Hout. unfold RemoteJobFiles.update_job.
    destruct (read_missing_or_empty _ Hout) as [[_ Hr]|[_ Hr]]; rewrite Hr;
      [|reflexivity].
    change (0 <? String.length "")%nat with false. cbv iota.
    destruct (RemoteJobFiles._read_remote_file self fs job_id "stderr.txt")
      as [log|e]; [|reflexivity].
    destruct (0 <? String.length log)%nat; [|reflexivity].
    destruct (decode_utf8 log); reflexivity.
  - intro Hlog. unfold RemoteJobFiles.update_job.
    destruct (read_missing_or_empty _ Hlog) as [[_ Hr]|[_ Hr]]; rewrite Hr;
      (destruct (RemoteJobFiles._read_remote_file self fs job_id "stdout.txt")
        as [output|e]; [|split; reflexivity];
       destruct (0 <? String.length output)%nat; [|split; reflexivity];
       destruct (decode_utf8 output); split; reflexivity).
  - intros Hout Hlog Hway. unfold RemoteJobFiles.update_job.
    destruct (read_missing_or_empty _ Hout) as [[_ Hr]|[Hb _]];
      [|congruence].
    destruct (read_missing_or_empty _ Hlog) as [[_ Hr']|[Hb _]].
    + rewrite Hr, Hr'. reflexivity.
    + rewrite blocked_in_job_dir in Hb. congruence.
  - intro Hway. unfold RemoteJobFiles.update_job, RemoteJobFiles._read_remote_file.
    now rewrite (read_blocked _ _ Hway).
Qed.

End Polling.

Lemma update_job_without_remote_files_witness :
  RemoteJobFiles.update_job (ext := example_externals) example_job_files
    example_fresh_job_dir "job1" example_job
  = (example_job, Ok tt).
Proof.
  apply (update_job_without_remote_files (ext := example_externals)
           example_job_files example_fresh_job_dir "job1" example_job).
  - right. reflexivity.
  - left. reflexivity.
  - reflexivity.
Defined.

(** C10 as stated fails: where the job directory is a regular file,
    [stdout.txt] and [stderr.txt] are missing, yet reading them does not
    give empty bytes: the read raises [NotADirectoryError], which
    [_read_remote_file] lets through, and [update_job] raises. *)
Lemma update_job_raises_below_a_regular_file :
  missing_or_empty example_job_dir_is_a_file
    (RemoteJobFiles._abs_path example_job_files "job1" "stdout.txt")
  /\ missing_or_empty example_job_dir_is_a_file
       (RemoteJobFiles._abs_path example_job_files "job1" "stderr.txt")
  /\ RemoteJobFiles._read_remote_file example_job_files
       example_job_dir_is_a_file "job1" "stdout.txt"
     = Raise NotADirectoryError
  /\ RemoteJobFiles.update_job (ext := example_externals) example_job_files
       example_job_dir_is_a_file "job1" example_job
     = (example_job, Raise NotADirectoryError).
Proof. repeat split; try (left; reflexivity); reflexivity. Qed.

Section PollingLog.
Context {ext : Externals}.
Variables (self : RemoteJobFiles.t) (fs : Cerulean.FileSystem)
          (job_id : string).

Lemma set_remote_output_same (job : RemoteJobFiles.Job) :
  RemoteJobFiles.set_remote_output (RemoteJobFiles.remote_output job) job = job.
Proof. now destruct job. Qed.

Lemma set_remote_error_same (job : RemoteJobFiles.Job) :
  RemoteJobFiles.set_remote_error (RemoteJobFiles.remote_error job) job = job.
Proof. now destruct job. Qed.

(** The second half of [update_job], once [stdout.txt] has been dealt
    with and left the record [job1]. *)
Lemma update_job_log_step (job : RemoteJobFiles.Job) (out log text : string) :
  RemoteJobFiles._read_remote_file self fs job_id "stdout.txt" = Ok out ->
  (out = "" \/ decode_utf8 out = Ok (RemoteJobFiles.remote_output job)) ->
  RemoteJobFiles._read_remote_file self fs job_id "stderr.txt" = Ok log ->
  log <> "" ->
  decode_utf8 log = Ok text ->
  RemoteJobFiles.update_job self fs job_id job
  = (RemoteJobFiles.set_remote_error text
       (RemoteJobFiles.debug
          (skipn (List.length (splitlines (RemoteJobFiles.remote_error job)))
                 (splitlines text))
          job),
     Ok tt).
Proof.
  intros Hout Hdec_out Hlog Hne Hdec.
  unfold RemoteJobFiles.update_job.
  rewrite Hout, Hlog, (length_zero_ltb log).
  apply String.eqb_neq in Hne. rewrite Hne. cbn [negb]. rewrite Hdec.
  destruct out as [|c out].
  - reflexivity.
  - destruct Hdec_out as [Hempty|Hdo]; [discriminate|].
    rewrite (length_zero_ltb (String c out)). cbn [String.eqb negb].
    rewrite Hdo, set_remote_output_same. reflexivity.
Qed.

(** C4, as amended: when the remote [stderr.txt] is not empty,
    [update_job] stores its whole decoded content as [remote_error] (and
    leaves [remote_error] alone otherwise), so the text stored before
    remains a prefix of the stored text whenever the file still starts
    with it; the lines handed to the job's log are those of the new text
    past the number of lines stored before, which are the lines of the
    appended text when the stored text ended with a line feed; and
    polling again while the file is unchanged leaves [remote_error] as it
    is and hands over no line. *)
Theorem update_job_mirrors_remote_log
        (job : RemoteJobFiles.Job) (out log text : string) :
  RemoteJobFiles._read_remote_file self fs job_id "stdout.txt" = Ok out ->
  (out = "" \/ exists o, decode_utf8 out = Ok o) ->
  RemoteJobFiles._read_remote_file self fs job_id "stderr.txt" = Ok log ->
  log <> "" ->
  decode_utf8 log = Ok text ->
  let job' := fst (RemoteJobFiles.update_job self fs job_id job) in
  snd (RemoteJobFiles.update_job self fs job_id job) = Ok tt
  /\ RemoteJobFiles.remote_error job' = text
  /\ RemoteJobFiles.debug_calls job'
     = (RemoteJobFiles.debug_calls job
        ++ [skipn (List.length (splitlines (RemoteJobFiles.remote_error job)))
                  (splitlines text)])%list
  /\ (forall extra,
         text = RemoteJobFiles.remote_error job ++ extra ->
         startswith (RemoteJobFiles.remote_error job')
                    (RemoteJobFiles.remote_error job) = true)
  /\ (forall pre extra,
         RemoteJobFiles.remote_error job = pre ++ NEWLINE ->
         text = RemoteJobFiles.remote_error job ++ extra ->
         RemoteJobFiles.debug_calls job'
         = (RemoteJobFiles.debug_calls job ++ [splitlines extra])%list)
  /\ RemoteJobFiles.update_job self fs job_id job'
     = (RemoteJobFiles.debug [] job', Ok tt).
Proof.
  intros Hout Hdec_out Hlog Hne Hdec job'.
  assert (Hfirst :
            exists job1,
              RemoteJobFiles.update_job self fs job_id job
              = (RemoteJobFiles.set_remote_error text
                   (RemoteJobFiles.debug
                      (skipn (List.length
                                (splitlines (RemoteJobFiles.remote_error job)))
                             (splitlines text))
                      job1),
                 Ok tt)
              /\ RemoteJobFiles.remote_error job1 = RemoteJobFiles.remote_error job
              /\ RemoteJobFiles.debug_calls job1 = RemoteJobFiles.debug_calls job
              /\ (out = ""
                  \/ decode_utf8 out = Ok (RemoteJobFiles.remote_output job1))).
  { unfold RemoteJobFiles.update_job.
    rewrite Hout, Hlog, (length_zero_ltb log).
    apply String.eqb_neq in Hne. rewrite Hne. cbn [negb]. rewrite Hdec.
    destruct out as [|c out].
    - exists job. repeat split. now left.
    - destruct Hdec_out as [Hempty|[o Hdo]]; [discriminate|].
      rewrite (length_zero_ltb (String c out)). cbn [String.eqb negb].
      rewrite Hdo.
      exists (RemoteJobFiles.set_remote_output o job). repeat split.
      now right. }
  destruct Hfirst as (job1 & Hupd & Herr1 & Hcalls1 & Hout1).
  subst job'. rewrite Hupd. cbn [fst snd].
  repeat split.
  - cbn. now rewrite Hcalls1.
  - intros extra Hext. cbn. rewrite Hext. apply startswith_append.
  - intros pre extra Hpre Hext. cbn. rewrite Hcalls1.
    rewrite Hext, Hpre. now rewrite new_lines_of_appended.
  - rewrite (update_job_log_step _ out log text Hout);
      [| destruct Hout1 as [H|H]; [now left | right; exact H]
       | exact Hlog | exact Hne | exact Hdec].
    cbn [RemoteJobFiles.remote_error RemoteJobFiles.set_remote_error].
    rewrite skipn_all. reflexivity.
Qed.

End PollingLog.

Lemma update_job_mirrors_remote_log_witness :
  RemoteJobFiles.debug_calls
    (fst (RemoteJobFiles.update_job (ext := example_externals)
            example_job_files example_grown_log "job1" example_job))
  = [["line three"]]
  /\ RemoteJobFiles.remote_error
       (fst (RemoteJobFiles.update_job (ext := example_externals)
               example_job_files example_grown_log "job1" example_job))
     = "line one" ++ NEWLINE ++ "line two" ++ NEWLINE ++ "line three" ++ NEWLINE.
Proof.
  pose proof (update_job_mirrors_remote_log (ext := example_externals)
                example_job_files example_grown_log "job1" example_job
                ""
                ("line one" ++ NEWLINE ++ "line two" ++ NEWLINE
                 ++ "line three" ++ NEWLINE)
                ("line one" ++ NEWLINE ++ "line two" ++ NEWLINE
                 ++ "line three" ++ NEWLINE)
                eq_refl (or_introl eq_refl) eq_refl
                ltac:(discriminate) eq_refl)
    as (_ & Herr & _ & _ & Hnew & _).
  split.
  - apply (Hnew ("line one" ++ NEWLINE ++ "line two") ("line three" ++ NEWLINE));
      reflexivity.
  - exact Herr.
Defined.

(** C4 as stated fails: when the remote [stderr.txt] no longer starts
    with the text stored before (here it was replaced by a shorter file),
    the stored text is not extended but replaced, and is shorter than
    before. *)
Lemma update_job_can_truncate_remote_error :
  startswith
    (RemoteJobFiles.remote_error
       (fst (RemoteJobFiles.update_job (ext := example_externals)
               example_job_files example_replaced_log "job1" example_job)))
    (RemoteJobFiles.remote_error example_job)
  = false
  /\ String.length
       (RemoteJobFiles.remote_error
          (fst (RemoteJobFiles.update_job (ext := example_externals)
                  example_job_files example_replaced_log "job1" example_job)))
     < String.length (RemoteJobFiles.remote_error example_job).
Proof. split; vm_compute; [reflexivity | lia]. Qed.

(** * Further properties *)

(** ** Workflow inspection *)

Lemma json_eqb_str (v : json) (s : string) :
  json_eqb v (JStr s) = true <-> v = JStr s.
Proof.
  destruct v; simpl; split; intro H; try discriminate.
  - apply String.eqb_eq in H. now subst.
  - injection H as ->. apply String.eqb_refl.
Qed.

Section WorkflowInspectionFacts.
Context {ext : Externals}.

(** X1: [is_workflow] answers [True] exactly for a mapping whose [class] is the
    string [Workflow]; it raises [AttributeError] for a document that is not a
    mapping. *)
Theorem is_workflow_iff (workflow_content : string) (doc : json) :
  yaml_safe_load workflow_content = Ok doc ->
  (is_workflow workflow_content = Ok true
   <-> exists d, doc = JDict d /\ Dict.get "class" d = Some (JStr "Workflow"))
  /\ ((forall d, doc <> JDict d) ->
      is_workflow workflow_content = Raise AttributeError).
Proof.
  intro Hy. unfold is_workflow. rewrite Hy. cbn [bind]. split.
  - split.
    + destruct doc; cbn [py_get bind]; try discriminate.
      intro H. injection H as H. apply json_eqb_str in H.
      exists entries. split; [reflexivity|].
      destruct (Dict.get "class" entries); [now subst | discriminate].
    + intros (d & -> & Hc). cbn [py_get bind]. now rewrite Hc.
  - intro Hnd. destruct doc; try reflexivity. now elim (Hnd entries).
Qed.

(** X2: [get_required_num_cores] returns the [coresMin] hint when it is
    present and not null, whatever [coresMax] is; otherwise the [coresMax]
    hint when present and not null; otherwise 0, also when [hints] or its
    [ResourceRequirement] entry is absent or null.  Hints written as a
    list make it raise [AttributeError]. *)
Theorem get_required_num_cores_precedence (workflow_content : string)
        (d : Dict.t) :
  yaml_safe_load workflow_content = Ok (JDict d) ->
  (get_or_null "hints" d = JNull ->
   get_required_num_cores workflow_content = Ok (JInt 0))
  /\ (forall l, get_or_null "hints" d = JList l ->
      get_required_num_cores workflow_content = Raise AttributeError)
  /\ (forall hints,
         get_or_null "hints" d = JDict hints ->
         (get_or_null "ResourceRequirement" hints = JNull ->
          get_required_num_cores workflow_content = Ok (JInt 0))
         /\ (forall rr,
                get_or_null "ResourceRequirement" hints = JDict rr ->
                get_required_num_cores workflow_content
                = Ok (if negb (is_null (get_or_null "coresMin" rr))
                      then get_or_null "coresMin" rr
                      else if negb (is_null (get_or_null "coresMax" rr))
                           then get_or_null "coresMax" rr
                           else JInt 0))).
Proof.
  intro Hy. unfold get_required_num_cores. rewrite Hy.
  cbn [bind py_get]. fold (get_or_null "hints" d).
  split; [|split].
  - now intros ->.
  - now intros l ->.
  - intros hints ->. cbn [bind py_get].
    fold (get_or_null "ResourceRequirement" hints). split.
    + now intros ->.
    + intros rr ->. cbn [bind py_get].
      fold (get_or_null "coresMin" rr) (get_or_null "coresMax" rr).
      destruct (get_or_null "coresMin" rr); try reflexivity.
      destruct (get_or_null "coresMax" rr); reflexivity.
Qed.

End WorkflowInspectionFacts.

Lemma is_workflow_iff_witness :
  is_workflow (ext := inspection_externals) "<workflow>" = Ok true
  /\ is_workflow (ext := inspection_externals) "<empty>" = Raise AttributeError.
Proof.
  split.
  - apply (is_workflow_iff (ext := inspection_externals) "<workflow>"
             example_workflow eq_refl).
    eexists. split; reflexivity.
  - apply (is_workflow_iff (ext := inspection_externals) "<empty>" JNull eq_refl).
    discriminate.
Defined.

Lemma get_required_num_cores_precedence_witness :
  get_required_num_cores (ext := inspection_externals) "<both>" = Ok (JInt 2)
  /\ get_required_num_cores (ext := inspection_externals) "<list>"
     = Raise AttributeError.
Proof.
  split.
  - refine (proj2 (proj2 (proj2 (get_required_num_cores_precedence
                                  (ext := inspection_externals) "<both>" _ eq_refl))
                          _ eq_refl) _ eq_refl).
  - refine (proj1 (proj2 (get_required_num_cores_precedence
                            (ext := inspection_externals) "<list>" _ eq_refl))
                  _ eq_refl).
Defined.

(** ** Input resolver, continued *)

(** X3: Every File object that is the value of a key gives one entry, in the
    order of the keys, named after its key, with the location as written
    and no content; nothing else gives an entry. *)
Theorem get_files_from_binding_sound (items : Dict.t) (fs : list InputFile) :
  get_files_from_binding (JDict items) = Ok fs ->
  Forall2 resolves (scalar_file_entries items) fs.
Proof.
  cbn [get_files_from_binding].
  revert fs. induction items as [|[k v] rest IH]; intros fs H.
  - injection H as <-. constructor.
  - cbn [files_from_items] in H.
    destruct v; cbn [bind scalar_file_entries] in *;
      try (destruct (files_from_items rest) as [tl|]; [|discriminate];
           cbn [bind app] in H; injection H as <-; now apply IH).
    + destruct (files_from_list k 0 items) as [here|] eqn:Hl; [|discriminate].
      apply files_from_list_no_file in Hl. subst here.
      destruct (files_from_items rest) as [tl|]; [|discriminate].
      cbn [bind app] in H. injection H as <-. now apply IH.
    + destruct (class_is "File" entries).
      * destruct (secondary_files_of entries) as [sec|] eqn:Hsec;
          [|discriminate].
        cbn [bind] in H.
        unfold Dict.getitem in H.
        destruct (Dict.get "location" entries) as [loc|] eqn:Hloc;
          [|discriminate].
        cbn [bind InputFile_init] in H.
        destruct (files_from_items rest) as [tl|]; [|discriminate].
        cbn [bind app] in H. injection H as <-.
        constructor; [|now apply IH].
        repeat split; assumption.
      * cbn [bind] in H.
        destruct (files_from_items rest) as [tl|]; [|discriminate].
        cbn [bind app] in H. injection H as <-. now apply IH.
Qed.

Lemma files_from_list_without_files (name : string) (vals : list json) (i : nat) :
  forallb (fun x => negb (is_file_object x)) vals = true ->
  files_from_list name i vals = Ok [].
Proof.
  revert i. induction vals as [|val rest IH]; intros i H; [reflexivity|].
  cbn [forallb] in H. apply andb_true_iff in H as [Hv H].
  cbn [files_from_list].
  destruct val; try (now apply IH).
  cbn [is_file_object] in Hv. apply negb_true_iff in Hv. rewrite Hv.
  now apply IH.
Qed.

(** X4: The resolver returns, without raising, whenever no list value holds a
    File object and every File object that is the value of a key has a
    [location] and resolvable secondary files; values of any other shape
    are passed over. *)
Theorem get_files_from_binding_succeeds (items : Dict.t) :
  forallb (fun kv => list_without_files (snd kv)) items = true ->
  Forall (fun kd => (exists loc, Dict.get "location" (snd kd) = Some loc)
                    /\ exists sec, secondary_files_of (snd kd) = Ok sec)
         (scalar_file_entries items) ->
  exists fs,
    get_files_from_binding (JDict items) = Ok fs
    /\ List.length fs = List.length (scalar_file_entries items).
Proof.
  cbn [get_files_from_binding].
  induction items as [|[k v] rest IH]; intros Hl Hs.
  - exists []. split; reflexivity.
  - cbn [forallb snd] in Hl. apply andb_true_iff in Hl as [Hv Hl].
    cbn [files_from_items].
    destruct v; cbn [scalar_file_entries] in Hs;
      try (destruct (IH Hl Hs) as (tl & -> & Hlen); exists tl;
           split; [reflexivity | exact Hlen]).
    + cbn [list_without_files] in Hv.
      rewrite (files_from_list_without_files _ _ _ Hv).
      destruct (IH Hl Hs) as (tl & -> & Hlen). exists tl.
      split; [reflexivity | exact Hlen].
    + cbn [scalar_file_entries]. destruct (class_is "File" entries).
      * inversion Hs as [|? ? [[loc Hloc] [sec Hsec]] Hs']; subst.
        cbn [snd] in *.
        destruct (IH Hl Hs') as (tl & Htl & Hlen).
        rewrite Hsec. unfold Dict.getitem. rewrite Hloc.
        cbn [bind InputFile_init]. rewrite Htl. cbn [bind app].
        eexists. split; [reflexivity|]. cbn [List.length]. now rewrite Hlen.
      * destruct (IH Hl Hs) as (tl & -> & Hlen). exists tl.
        split; [reflexivity | exact Hlen].
Qed.

Lemma get_files_from_binding_sound_witness :
  Forall2 resolves [("a", [("class", JStr "File"); ("location", JStr "f1")])]
          [mkInputFile (Some "a") (JStr "f1") None []].
Proof.
  apply (get_files_from_binding_sound
           [("n", JInt 3); ("a", File_object "f1"); ("s", JStr "text")]
           [mkInputFile (Some "a") (JStr "f1") None []]).
  reflexivity.
Defined.

Lemma get_files_from_binding_succeeds_witness :
  exists fs,
    get_files_from_binding
      (JDict [("n", JInt 3); ("a", File_object "f1");
              ("l", JList [JInt 1; JStr "x"])]) = Ok fs
    /\ List.length fs = 1.
Proof.
  apply (get_files_from_binding_succeeds
           [("n", JInt 3); ("a", File_object "f1");
            ("l", JList [JInt 1; JStr "x"])]).
  - reflexivity.
  - repeat constructor; eexists; reflexivity.
Defined.

(** Induction over a document with the hypothesis available for every
    item of a list and every value of a mapping. *)
Section JsonInduction.
Variable P : json -> Prop.
Hypothesis HNull : P JNull.
Hypothesis HBool : forall b, P (JBool b).
Hypothesis HInt : forall z, P (JInt z).
Hypothesis HFloat : forall r, P (JFloat r).
Hypothesis HStr : forall s, P (JStr s).
Hypothesis HList : forall items, Forall P items -> P (JList items).
Hypothesis HDict :
  forall entries, Forall (fun kv => P (snd kv)) entries -> P (JDict entries).

Lemma json_nested_ind : forall j, P j.
Proof.
  fix IH 1. intros [| b | z | r | s | items | entries].
  - exact HNull.
  - apply HBool.
  - apply HInt.
  - apply HFloat.
  - apply HStr.
  - apply HList. revert items. fix IHl 1.
    intros [|x xs]; constructor; [apply IH | apply IHl].
  - apply HDict. revert entries. fix IHl 1.
    intros [|[k x] xs]; constructor; [apply IH | apply IHl].
Qed.

End JsonInduction.

Lemma dict_get_in (key : string) (d : Dict.t) (v : json) :
  Dict.get key d = Some v -> In (key, v) d.
Proof.
  induction d as [|[k w] d IH]; simpl; [discriminate|].
  destruct (String.eqb_spec k key) as [->|_].
  - intro H. injection H as ->. now left.
  - intro H. right. now apply IH.
Qed.

Lemma get_secondary_files_nameless (v : json) :
  (forall fs, get_secondary_files v = Ok fs -> forallb nameless fs = true)
  /\ match v with
     | JDict d =>
         forall sub fs,
           Dict.get "secondaryFiles" d = Some sub ->
           get_secondary_files sub = Ok fs -> forallb nameless fs = true
     | _ => True
     end.
Proof.
  induction v as [| | | | | items IH | entries IH] using json_nested_ind;
    try (split; [intros fs H; simpl in H; try discriminate;
                 now injection H as <- | exact I]).
  - split; [|exact I].
    induction items as [|x items IHi]; intros fs H.
    + now injection H as <-.
    + inversion IH as [|? ? Hx Hrest]; subst. specialize (IHi Hrest).
      rewrite get_secondary_files_cons in H.
      destruct x; try (now apply IHi).
      destruct (class_is "File" entries).
      * destruct (Dict.getitem "location" entries) as [loc|]; [|discriminate].
        cbn [bind] in H. rewrite get_with_get in H.
        destruct Hx as [_ Hsub].
        destruct (Dict.get "secondaryFiles" entries) as [sub|] eqn:Hget.
        -- destruct (get_secondary_files sub) as [sec|] eqn:Hsec;
             [|discriminate].
           cbn [bind] in H.
           destruct (get_secondary_files (JList items)) as [tl|];
             [|discriminate].
           cbn [bind] in H. injection H as <-.
           cbn [forallb nameless].
           now rewrite (Hsub sub sec eq_refl Hsec), (IHi tl eq_refl).
        -- cbn [bind] in H.
           destruct (get_secondary_files (JList items)) as [tl|];
             [|discriminate].
           cbn [bind] in H. injection H as <-.
           cbn [forallb nameless]. now rewrite (IHi tl eq_refl).
      * destruct (class_is "Directory" entries); discriminate.
  - split.
    + intros fs H. now injection H as <-.
    + intros sub fs Hget Hsub.
      apply dict_get_in in Hget.
      rewrite Forall_forall in IH. specialize (IH _ Hget).
      cbn [snd] in IH. now apply (proj1 IH).
Qed.

(** X5: When [get_secondary_files] returns, every entry of the list was
    either a File object or no object at all; there is one node per File
    object, and every node, at every depth, has neither a name nor a
    content. *)
Theorem get_secondary_files_result (items : list json) (fs : list InputFile) :
  get_secondary_files (JList items) = Ok fs ->
  forallb nameless fs = true
  /\ List.length fs = List.length (filter is_file_object items)
  /\ Forall (fun v => is_file_object v = true \/ forall d, v <> JDict d) items.
Proof.
  intro H. split; [exact (proj1 (get_secondary_files_nameless _) fs H)|].
  revert fs H. induction items as [|x items IH]; intros fs H.
  - injection H as <-. split; [reflexivity | constructor].
  - rewrite get_secondary_files_cons in H.
    destruct x;
      try (destruct (IH fs H) as [Hlen Hall]; split;
           [exact Hlen | constructor; [right; discriminate | exact Hall]]).
    cbn [filter is_file_object].
    destruct (class_is "File" entries) eqn:Hc.
    + destruct (Dict.getitem "location" entries); [|discriminate].
      cbn [bind] in H.
      destruct (Dict.get_with _ _ _ entries); [|discriminate].
      cbn [bind] in H.
      destruct (get_secondary_files (JList items)) as [tl|] eqn:Htl;
        [|discriminate].
      cbn [bind] in H. injection H as <-.
      destruct (IH tl eq_refl) as [Hlen Hall]. split.
      * cbn [List.length]. now rewrite Hlen.
      * constructor; [left; exact Hc | exact Hall].
    + destruct (class_is "Directory" entries); discriminate.
Qed.

Lemma get_secondary_files_result_witness :
  forallb nameless
    [mkInputFile None (JStr "x") None [mkInputFile None (JStr "y") None []]]
  = true.
Proof.
  apply (get_secondary_files_result
           [JDict [("class", JStr "File"); ("location", JStr "x");
                   ("secondaryFiles", JList [File_object "y"])]]
           [mkInputFile None (JStr "x") None
                        [mkInputFile None (JStr "y") None []]]).
  reflexivity.
Defined.

(** ** Filename sanitizer, continued *)

Lemma all_safe_append (a b : string) :
  all_safe (a ++ b) = all_safe a && all_safe b.
Proof.
  induction a as [|c a IH]; [reflexivity|].
  simpl. rewrite IH. now rewrite andb_assoc.
Qed.

Lemma all_safe_take (n : nat) (s : string) :
  all_safe s = true -> all_safe (take n s) = true.
Proof.
  revert s. induction n as [|n IH]; intros [|c s] H; try reflexivity.
  simpl in *. apply andb_true_iff in H as [Hc H]. now rewrite Hc, IH.
Qed.

Lemma all_safe_drop (n : nat) (s : string) :
  all_safe s = true -> all_safe (drop n s) = true.
Proof.
  revert s. induction n as [|n IH]; intros [|c s] H; try assumption.
  simpl in *. apply andb_true_iff in H as [_ H]. now apply IH.
Qed.

Lemma all_safe_sub_unsafe (in_run : bool) (s : string) :
  all_safe (sub_unsafe in_run s) = true.
Proof.
  revert in_run. induction s as [|c s IH]; intro in_run; [reflexivity|].
  cbn [sub_unsafe]. destruct (safe_char c) eqn:Hc.
  - cbn [all_safe]. now rewrite Hc, IH.
  - destruct in_run; [apply IH|]. cbn [all_safe]. now rewrite IH.
Qed.

Lemma sub_unsafe_safe (in_run : bool) (s : string) :
  all_safe s = true -> sub_unsafe in_run s = s.
Proof.
  revert in_run. induction s as [|c s IH]; intros in_run H; [reflexivity|].
  simpl in H. apply andb_true_iff in H as [Hc H].
  cbn [sub_unsafe]. now rewrite Hc, (IH false H).
Qed.

Lemma length_sub_unsafe (in_run : bool) (s : string) :
  String.length (sub_unsafe in_run s) <= String.length s.
Proof.
  revert in_run. induction s as [|c s IH]; intro in_run; [reflexivity|].
  cbn [sub_unsafe]. destruct (safe_char c); cbn [String.length].
  - specialize (IH false). lia.
  - destruct in_run; cbn [String.length]; specialize (IH true); lia.
Qed.

Lemma create_input_filename_tail (unique_prefix orig_path : string) :
  exists tail,
    _create_input_filename unique_prefix orig_path = unique_prefix ++ "_" ++ tail
    /\ all_safe tail = true
    /\ String.length tail <= 39
    /\ String.length tail <= String.length orig_path
    /\ (all_safe unique_prefix = true ->
        all_safe (_create_input_filename unique_prefix orig_path) = true).
Proof.
  unfold _create_input_filename.
  pose proof (all_safe_sub_unsafe false orig_path) as Hsafe.
  pose proof (length_sub_unsafe false orig_path) as Hlen.
  destruct (39 <? String.length (sub_unsafe false orig_path))%nat eqn:E.
  - apply Nat.ltb_lt in E.
    assert (Ht : all_safe (take 18 (sub_unsafe false orig_path) ++ "___"
                           ++ take_last 18 (sub_unsafe false orig_path)) = true).
    { rewrite !all_safe_append, all_safe_take by exact Hsafe.
      unfold take_last. now rewrite all_safe_drop by exact Hsafe. }
    eexists. split; [reflexivity|]. repeat split.
    + exact Ht.
    + rewrite !length_append, length_take, length_take_last by lia.
      simpl. lia.
    + rewrite !length_append, length_take, length_take_last by lia.
      simpl. lia.
    + intro Hp. rewrite !all_safe_append in *. rewrite Hp.
      simpl. exact Ht.
  - apply Nat.ltb_ge in E.
    eexists. split; [reflexivity|]. repeat split; try assumption.
    intro Hp. rewrite !all_safe_append, Hp, Hsafe. reflexivity.
Qed.

(** X6: What follows the prefix and its underscore in a staged file name has
    only characters of [[a-zA-Z0-9_.-]] (so no slash) and at most 39 of
    them, whatever the original path; with a prefix of such characters
    the whole name is made of them. *)
Theorem create_input_filename_safe (unique_prefix orig_path : string) :
  exists tail,
    _create_input_filename unique_prefix orig_path = unique_prefix ++ "_" ++ tail
    /\ all_safe tail = true
    /\ String.length tail <= 39
    /\ String.length tail <= String.length orig_path
    /\ (all_safe unique_prefix = true ->
        all_safe (_create_input_filename unique_prefix orig_path) = true).
Proof. exact (create_input_filename_tail unique_prefix orig_path). Qed.

(** X7: A path that is already made of safe characters and has at most 39 of
    them is kept as it is, and collapsing a collapsed path changes
    nothing. *)
Theorem create_input_filename_keeps_safe_names (unique_prefix orig_path : string) :
  (all_safe orig_path = true -> String.length orig_path <= 39 ->
   _create_input_filename unique_prefix orig_path
   = unique_prefix ++ "_" ++ orig_path)
  /\ sub_unsafe false (sub_unsafe false orig_path) = sub_unsafe false orig_path.
Proof.
  split.
  - intros Hs Hl. unfold _create_input_filename.
    rewrite (sub_unsafe_safe false _ Hs).
    apply Nat.ltb_ge in Hl. now rewrite Hl.
  - apply sub_unsafe_safe, all_safe_sub_unsafe.
Qed.

Lemma create_input_filename_keeps_safe_names_witness :
  _create_input_filename "03" "input_data.v2.txt" = "03_input_data.v2.txt".
Proof.
  apply (create_input_filename_keeps_safe_names "03" "input_data.v2.txt").
  - reflexivity.
  - vm_compute. lia.
Defined.

(** ** Workflow translator, continued *)

Section WorkflowTranslatorErrors.
Context {ext : Externals}.
Variable self : RemoteApi.t.

(** While the loop runs, a step object keeps a [run] entry, and the
    entry stays a string or stays something else: the loop only ever
    replaces a string by a string, also in an object that several steps
    share. *)
Lemma translate_steps_inline (h0 : Objects.store)
      (steps : list (Objects.key * Objects.value)) :
  Forall (step_object_has_run h0) steps ->
  Exists (inline_step_object h0) steps ->
  forall h,
    (forall a sd v,
        Objects.deref h0 a = Some (Objects.ODict sd) ->
        Objects.lookup "run" sd = Some v ->
        exists sd' v',
          Objects.deref h a = Some (Objects.ODict sd')
          /\ Objects.lookup "run" sd' = Some v'
          /\ ((exists r, v' = Objects.VStr r) -> exists r, v = Objects.VStr r)) ->
    RemoteApi.translate_steps self steps h
    = Raise (RuntimeError "Invalid step in workflow").
Proof.
  induction 1 as [|[name step] rest (a & sd & v & Hstep & Ha & Hrun) _ IH];
    intros Hex h Hinv.
  - inversion Hex.
  - cbn [snd] in Hstep. subst step. cbn [RemoteApi.translate_steps].
    destruct (Hinv a sd v Ha Hrun) as (sd' & v' & Ha' & Hrun' & Hkind).
    unfold RemoteApi.translate_step at 1.
    unfold Objects.getitem, Objects.setitem. rewrite Ha', Hrun'. cbn [bind].
    destruct v' as [| | | |r'| |]; try reflexivity.
    cbn [bind].
    assert (Hlater : Exists (inline_step_object h0) rest).
    { inversion Hex as [? ? (a1 & sd1 & v1 & E & Ha1 & Hrun1 & Hns) | ? ? Hl];
        subst; [|exact Hl].
      cbn [snd] in E. injection E as <-.
      rewrite Ha in Ha1. injection Ha1 as <-.
      rewrite Hrun in Hrun1. injection Hrun1 as <-.
      destruct (Hkind (ex_intro _ r' eq_refl)) as [r Hr]. now elim (Hns r). }
    apply (IH Hlater). intros b sdb vb Hb Hrunb.
    destruct (Nat.eq_dec b a) as [->|Hne].
    + rewrite Ha in Hb. injection Hb as <-.
      rewrite Hrun in Hrunb. injection Hrunb as <-.
      eexists. eexists. split; [apply (deref_put_same _ _ _ _ Ha')|].
      split; [apply lookup_assign_same|].
      intros _. apply Hkind. now exists r'.
    + destruct (Hinv b sdb vb Hb Hrunb) as (sdb' & vb' & Hb' & Hrunb' & Hk).
      exists sdb', vb'. split; [|split; assumption].
      now rewrite deref_put_other.
Qed.

(** The loop on the objects of a workflow of which a step has a [run]
    that is no string. *)
Lemma translate_workflow_inline_objects
      (workflow_content text : string) (h : Objects.store)
      (root s : Objects.ref) (d steps : list (Objects.key * Objects.value)) :
  decode_utf8 workflow_content = Ok text ->
  yaml_safe_load_objects text = Ok (h, Objects.VRef root) ->
  Objects.deref h root = Some (Objects.ODict d) ->
  Objects.lookup "steps" d = Some (Objects.VRef s) ->
  Objects.deref h s = Some (Objects.ODict steps) ->
  Forall (step_object_has_run h) steps ->
  Exists (inline_step_object h) steps ->
  RemoteApi.translate_workflow self workflow_content
  = Raise (RuntimeError "Invalid step in workflow").
Proof.
  intros Hdec Hyaml Hroot Hsteps Hs Hall Hex.
  unfold RemoteApi.translate_workflow.
  rewrite Hdec. cbn [bind]. rewrite Hyaml. cbn [bind].
  unfold Objects.contains_key, Objects.getitem, Objects.items.
  rewrite Hroot, Hsteps. cbn [bind negb]. rewrite Hs. cbn [bind].
  rewrite (translate_steps_inline h steps Hall Hex); [reflexivity|].
  intros a sd v Ha Hrun. exists sd, v. repeat split; auto.
Qed.

(** The tree that is read off a dict object has the entries of the
    object, in their order. *)
Lemma tree_entries (fuel : nat) (h : Objects.store)
      (od : list (Objects.key * Objects.value)) (d : Dict.t) :
  mapM (fun kv => match fst kv with
                  | Objects.KStr k =>
                      t <- Objects.tree fuel h (snd kv) ;; Ok (k, t)
                  | Objects.KOther _ => Raise TypeError
                  end) od
  = Ok d ->
  Forall2 (entry_view fuel h) od d.
Proof.
  revert d. induction od as [|[[k|repr] v] od IH]; intros d H; cbn [mapM] in H.
  - injection H as <-. constructor.
  - cbn [fst snd] in H.
    destruct (Objects.tree fuel h v) as [t|e] eqn:Ht; [|discriminate].
    cbn [bind] in H.
    destruct (mapM _ od) as [d'|e] eqn:Hd'; [|discriminate].
    cbn [bind] in H. injection H as <-.
    constructor; [split; [reflexivity | exact Ht] | now apply IH].
  - discriminate.
Qed.

(** Only a dict object is read as a mapping. *)
Lemma tree_dict (fuel : nat) (h : Objects.store) (v : Objects.value)
      (d : Dict.t) :
  Objects.tree fuel h v = Ok (JDict d) ->
  exists r od fuel',
    v = Objects.VRef r
    /\ Objects.deref h r = Some (Objects.ODict od)
    /\ Forall2 (entry_view fuel' h) od d.
Proof.
  destruct v as [| | | | | |r], fuel as [|fuel']; cbn [Objects.tree];
    try discriminate.
  destruct (Objects.deref h r) as [[od|l|l|l]|] eqn:Hr; try discriminate.
  - destruct (mapM _ od) as [entries|e] eqn:Hm; [|discriminate].
    cbn [bind]. intro H. injection H as <-.
    exists r, od, fuel'.
    split; [reflexivity|]. split; [exact Hr|]. now apply tree_entries.
  - destruct (mapM _ l); discriminate.
  - destruct (mapM _ l); discriminate.
Qed.

(** Only a string is read as a string, and only [None] as null. *)
Lemma tree_of_str (fuel : nat) (h : Objects.store) (r : string) (t : json) :
  Objects.tree fuel h (Objects.VStr r) = Ok t -> t = JStr r.
Proof. destruct fuel; cbn [Objects.tree]; now intros [= <-]. Qed.

Lemma tree_null (fuel : nat) (h : Objects.store) (v : Objects.value) :
  Objects.tree fuel h v = Ok JNull -> v = Objects.VNull.
Proof.
  destruct v as [| | | | | |r], fuel; cbn [Objects.tree]; try discriminate;
    try reflexivity.
  destruct (Objects.deref h r) as [[od|l|l|l]|]; try discriminate;
    destruct (mapM _ _); discriminate.
Qed.

Lemma entries_get_none (fuel : nat) (h : Objects.store) (key : string)
      (od : list (Objects.key * Objects.value)) (d : Dict.t) :
  Forall2 (entry_view fuel h) od d ->
  Dict.get key d = None -> Objects.lookup key od = None.
Proof.
  induction 1 as [|[k v] [k' t] od d [Hk Ht] _ IH]; [reflexivity|].
  cbn [fst snd] in Hk, Ht. subst k.
  cbn [Dict.get Objects.lookup Objects.key_is].
  destruct (String.eqb k' key); [discriminate | exact IH].
Qed.

Lemma entries_get_some (fuel : nat) (h : Objects.store) (key : string)
      (od : list (Objects.key * Objects.value)) (d : Dict.t) (t : json) :
  Forall2 (entry_view fuel h) od d ->
  Dict.get key d = Some t ->
  exists v, Objects.lookup key od = Some v
            /\ Objects.tree fuel h v = Ok t.
Proof.
  induction 1 as [|[k v] [k' t'] od d [Hk Ht] _ IH]; [discriminate|].
  cbn [fst snd] in Hk, Ht. subst k.
  cbn [Dict.get Objects.lookup Objects.key_is].
  destruct (String.eqb k' key); [|exact IH].
  intros [= <-]. now exists v.
Qed.

(** A step that the tree shows with a [run] entry is an object with
    that entry, and an entry that the tree shows as no string is no
    string. *)
Lemma step_view (fuel : nat) (h : Objects.store)
      (kv : Objects.key * Objects.value) (kt : string * json) :
  entry_view fuel h kv kt ->
  (step_has_run kt -> step_object_has_run h kv)
  /\ (inline_step kt -> inline_step_object h kv).
Proof.
  intros [_ Ht]. split.
  - intros (sd & v & Hsd & Hrun). rewrite Hsd in Ht.
    destruct (tree_dict _ _ _ _ Ht) as (a & od & fuel' & Hv & Ha & Hview).
    destruct (entries_get_some _ _ _ _ _ _ Hview Hrun) as (ov & Hov & _).
    now exists a, od, ov.
  - intros (sd & v & Hsd & Hrun & Hns). rewrite Hsd in Ht.
    destruct (tree_dict _ _ _ _ Ht) as (a & od & fuel' & Hv & Ha & Hview).
    destruct (entries_get_some _ _ _ _ _ _ Hview Hrun) as (ov & Hov & Htv).
    exists a, od, ov. repeat split; try assumption.
    intros r ->. apply (Hns r). exact (tree_of_str _ _ _ _ Htv).
Qed.

Lemma steps_view (fuel : nat) (h : Objects.store)
      (osteps : list (Objects.key * Objects.value)) (steps : Dict.t) :
  Forall2 (entry_view fuel h) osteps steps ->
  (Forall step_has_run steps -> Forall (step_object_has_run h) osteps)
  /\ (Exists inline_step steps -> Exists (inline_step_object h) osteps).
Proof.
  induction 1 as [|kv kt osteps steps Hview _ [IHall IHex]].
  - split; [constructor | intro H; inversion H].
  - destruct (step_view _ _ _ _ Hview) as [Hrun Hinline]. split.
    + intro H. inversion H; subst. constructor; auto.
    + intro H. inversion H; subst;
        [apply Exists_cons_hd | apply Exists_cons_tl]; auto.
Qed.

(** X8: A document without a [steps] entry is refused with
    [RuntimeError('Workflow contains no steps')], and an empty document
    with a [TypeError]. *)
Theorem translate_workflow_without_steps (workflow_content text : string) :
  decode_utf8 workflow_content = Ok text ->
  (forall d, yaml_safe_load text = Ok (JDict d) ->
             Dict.get "steps" d = None ->
             RemoteApi.translate_workflow self workflow_content
             = Raise (RuntimeError "Workflow contains no steps"))
  /\ (yaml_safe_load text = Ok JNull ->
      RemoteApi.translate_workflow self workflow_content = Raise TypeError).
Proof.
  intro Hdec. unfold RemoteApi.translate_workflow. rewrite Hdec. cbn [bind].
  split.
  - intros d Hyaml Hnone.
    destruct (yaml_safe_load_view _ _ Hyaml) as (h & v & -> & Htree).
    destruct (tree_dict _ _ _ _ Htree) as (root & od & fuel' & -> & Hroot & Hview).
    cbn [bind]. unfold Objects.contains_key.
    now rewrite Hroot, (entries_get_none _ _ _ _ _ Hview Hnone).
  - intro Hyaml.
    destruct (yaml_safe_load_view _ _ Hyaml) as (h & v & -> & Htree).
    now rewrite (tree_null _ _ _ Htree).
Qed.

(** X9: When every step is a mapping with a [run] entry and the [run] of at
    least one of them is not a string, the workflow is refused with
    [RuntimeError('Invalid step in workflow')], wherever that step
    stands. *)
Theorem translate_workflow_inline_step
        (workflow_content text : string) (d steps : Dict.t) :
  decode_utf8 workflow_content = Ok text ->
  yaml_safe_load text = Ok (JDict d) ->
  Dict.get "steps" d = Some (JDict steps) ->
  Forall step_has_run steps ->
  Exists inline_step steps ->
  RemoteApi.translate_workflow self workflow_content
  = Raise (RuntimeError "Invalid step in workflow").
Proof.
  intros Hdec Hyaml Hsteps Hall Hex.
  destruct (yaml_safe_load_view _ _ Hyaml) as (h & v & Hobjects & Htree).
  destruct (tree_dict _ _ _ _ Htree) as (root & od & fuel' & -> & Hroot & Hview).
  destruct (entries_get_some _ _ _ _ _ _ Hview Hsteps) as (vs & Hvs & Hts).
  destruct (tree_dict _ _ _ _ Hts) as (s & osteps & fuel'' & -> & Hs & Hsview).
  destruct (steps_view _ _ _ _ Hsview) as [Hall' Hex'].
  exact (translate_workflow_inline_objects workflow_content text h root s od
           osteps Hdec Hobjects Hroot Hvs Hs (Hall' Hall) (Hex' Hex)).
Qed.

End WorkflowTranslatorErrors.

Lemma create_input_filename_safe_witness :
  all_safe (_create_input_filename "01" "file:///tmp/my data/in put.txt") = true.
Proof.
  destruct (create_input_filename_safe "01" "file:///tmp/my data/in put.txt")
    as (tail & _ & _ & _ & _ & H).
  apply H. reflexivity.
Defined.

Lemma translate_workflow_without_steps_witness :
  RemoteApi.translate_workflow (ext := translator_externals) example_api "<tool>"
  = Raise (RuntimeError "Workflow contains no steps")
  /\ RemoteApi.translate_workflow (ext := translator_externals) example_api
       "<empty>"
     = Raise TypeError.
Proof.
  split.
  - apply (proj1 (translate_workflow_without_steps
                    (ext := translator_externals)
                    example_api "<tool>" "<tool>" eq_refl) example_step);
      reflexivity.
  - apply (proj2 (translate_workflow_without_steps
                    (ext := translator_externals)
                    example_api "<empty>" "<empty>" eq_refl)).
    reflexivity.
Defined.

Lemma translate_workflow_inline_step_witness :
  RemoteApi.translate_workflow (ext := translator_externals) example_api
                               "<inline>"
  = Raise (RuntimeError "Invalid step in workflow").
Proof.
  apply (translate_workflow_inline_step (ext := translator_externals)
           example_api "<inline>" "<inline>" example_inline_workflow
           [("step1", JDict [("run", JStr "projA/tool1.cwl")]);
            ("step2", JDict [("run", JDict [("class", JStr "CommandLineTool")])])]);
    try reflexivity.
  - repeat constructor; eexists; eexists; split; reflexivity.
  - apply Exists_cons_tl, Exists_cons_hd.
    eexists. eexists. repeat split; try reflexivity. discriminate.
Defined.

(** ** API steps and runner location, continued *)

Section ApiStepFacts.
Context {ext : Externals}.

(** X10: A step document that is not a [CommandLineTool] is returned as it
    was read. *)
Theorem translate_api_step_other_class
        (text : string) (d : Dict.t) (remote_project_dir : Cerulean.Path) :
  yaml_safe_load text = Ok (JDict d) ->
  Dict.get "class" d <> Some (JStr "CommandLineTool") ->
  RemoteApi._translate_api_step text remote_project_dir = Ok (JDict d).
Proof.
  intros Hy Hc. unfold RemoteApi._translate_api_step.
  rewrite Hy. cbn [bind py_get].
  destruct (json_eqb _ (JStr "CommandLineTool")) eqn:E; [|reflexivity].
  apply json_eqb_str in E.
  destruct (Dict.get "class" d); [|discriminate]. now subst.
Qed.

(** X11: In a [CommandLineTool] without [arguments], a [baseCommand] string
    that does not start with the files macro (leading white space aside)
    is left alone, also when the macro occurs further on; a [baseCommand]
    written as a list makes the translation raise [AttributeError]. *)
Theorem translate_api_step_base_command
        (text : string) (d : Dict.t) (remote_project_dir : Cerulean.Path) :
  yaml_safe_load text = Ok (JDict d) ->
  Dict.get "class" d = Some (JStr "CommandLineTool") ->
  (forall bc,
      Dict.get "baseCommand" d = Some (JStr bc) ->
      startswith (lstrip bc) CERISE_API_FILES = false ->
      Dict.get "arguments" d = None ->
      RemoteApi._translate_api_step text remote_project_dir = Ok (JDict d))
  /\ (forall l,
         Dict.get "baseCommand" d = Some (JList l) ->
         RemoteApi._translate_api_step text remote_project_dir
         = Raise AttributeError).
Proof.
  intros Hy Hc. unfold RemoteApi._translate_api_step.
  rewrite Hy. cbn [bind py_get]. rewrite Hc.
  cbn [json_eqb]. rewrite (String.eqb_refl "CommandLineTool").
  split.
  - intros bc Hbc Hs Hargs. rewrite Hbc, Hs. cbn [bind]. now rewrite Hargs.
  - intros l Hbc. now rewrite Hbc.
Qed.

End ApiStepFacts.

(** X12: A runner location without a dollar sign is returned unchanged,
    whatever the API directory and the user name are. *)
Theorem translate_runner_location_plain (self : RemoteApi.t)
        (runner_location : string) :
  no_dollar runner_location = true ->
  RemoteApi.translate_runner_location self runner_location = runner_location.
Proof.
  intro H. unfold RemoteApi.translate_runner_location, CERISE_API.
  rewrite (replace_no_dollar_id _ _ _ H).
  destruct (RemoteApi._username self) as [[|c u]|]; try reflexivity.
  apply (replace_no_dollar_id _ _ _ H).
Qed.

Lemma translate_api_step_other_class_witness :
  RemoteApi._translate_api_step (ext := translator_externals) "<workflow>"
    ["home"; "cerise"; "api"; "projA"]
  = Ok example_workflow.
Proof.
  apply (translate_api_step_other_class (ext := translator_externals)
           "<workflow>" _ ["home"; "cerise"; "api"; "projA"] eq_refl).
  discriminate.
Defined.

Lemma translate_api_step_base_command_witness :
  RemoteApi._translate_api_step (ext := translator_externals) "<plain tool>"
    ["home"; "cerise"; "api"; "projA"]
  = Ok (JDict example_plain_tool)
  /\ RemoteApi._translate_api_step (ext := translator_externals) "<list tool>"
       ["home"; "cerise"; "api"; "projA"]
     = Raise AttributeError.
Proof.
  split.
  - apply (proj1 (translate_api_step_base_command
                    (ext := translator_externals)
                    "<plain tool>" example_plain_tool
                    ["home"; "cerise"; "api"; "projA"] eq_refl eq_refl)
                 "python3 $CERISE_API_FILES/run.py"); reflexivity.
  - apply (proj2 (translate_api_step_base_command
                    (ext := translator_externals)
                    "<list tool>" example_list_tool
                    ["home"; "cerise"; "api"; "projA"] eq_refl eq_refl)
                 [JStr "$CERISE_API_FILES/run.sh"; JStr "-v"]); reflexivity.
Defined.

Lemma translate_runner_location_plain_witness :
  RemoteApi.translate_runner_location example_api "/usr/bin/cwltool"
  = "/usr/bin/cwltool".
Proof.
  apply (translate_runner_location_plain example_api "/usr/bin/cwltool").
  reflexivity.
Defined.

(** ** Staging: counters and file names *)

Lemma all_digits_string_of_uint (d : Decimal.uint) :
  all_digits (DecimalString.NilEmpty.string_of_uint d) = true.
Proof. induction d; simpl; try reflexivity; exact IHd. Qed.

Lemma all_digits_str_of_nat (n : nat) :
  all_digits (Staging.str_of_nat n) = true.
Proof.
  unfold Staging.str_of_nat, DecimalString.NilZero.string_of_uint.
  destruct (Nat.to_uint n); try reflexivity;
    apply (all_digits_string_of_uint (_ u)).
Qed.

Lemma all_digits_append (a b : string) :
  all_digits (a ++ b) = all_digits a && all_digits b.
Proof.
  induction a as [|c a IH]; [reflexivity|].
  simpl. rewrite IH. now rewrite andb_assoc.
Qed.

Lemma all_digits_zeros (k : nat) : all_digits (Staging.zeros k) = true.
Proof. induction k; [reflexivity | exact IHk]. Qed.

(** On a string of digits [zfill] only puts zeros in front. *)
Lemma zfill_digits (width : nat) (s : string) :
  all_digits s = true ->
  Staging.zfill width s = Staging.zeros (width - String.length s) ++ s.
Proof.
  intro H. unfold Staging.zfill. destruct s as [|c s].
  - now rewrite append_nil_r.
  - simpl in H. apply andb_true_iff in H as [Hc _].
    destruct (Ascii.eqb_spec c "+") as [->|_]; [discriminate|].
    destruct (Ascii.eqb_spec c "-") as [->|_]; [discriminate|].
    reflexivity.
Qed.

Lemma digits_value_zeros (k : nat) (s : string) :
  digits_value (Staging.zeros k ++ s) = digits_value s.
Proof.
  induction k as [|k IH]; [reflexivity|].
  unfold digits_value in *. cbn [Staging.zeros append].
  cbn [DecimalString.NilEmpty.uint_of_string].
  destruct (DecimalString.NilEmpty.uint_of_string (Staging.zeros k ++ s)) as [d|];
    destruct (DecimalString.NilEmpty.uint_of_string s) as [d'|];
    cbn in *; try discriminate; try reflexivity.
  exact IH.
Qed.

(** Reading back what [str] wrote gives the number. *)
Lemma digits_value_str_of_nat (n : nat) :
  digits_value (Staging.str_of_nat n) = Some n.
Proof.
  unfold digits_value, Staging.str_of_nat,
    DecimalString.NilZero.string_of_uint.
  rewrite <- (DecimalNat.Unsigned.of_to n) at 2.
  destruct (Nat.to_uint n) eqn:E; try reflexivity;
    rewrite DecimalString.NilEmpty.usu; reflexivity.
Qed.

(** Different counts are written differently, padded or not. *)
Lemma zfill_str_of_nat_inj (width a b : nat) :
  Staging.zfill width (Staging.str_of_nat a)
  = Staging.zfill width (Staging.str_of_nat b) -> a = b.
Proof.
  intro H.
  rewrite !zfill_digits in H by apply all_digits_str_of_nat.
  apply (f_equal digits_value) in H.
  rewrite !digits_value_zeros, !digits_value_str_of_nat in H.
  now injection H.
Qed.

Lemma all_digits_zfill_str_of_nat (width n : nat) :
  all_digits (Staging.zfill width (Staging.str_of_nat n)) = true.
Proof.
  rewrite zfill_digits by apply all_digits_str_of_nat.
  now rewrite all_digits_append, all_digits_zeros, all_digits_str_of_nat.
Qed.

(** A prefix of digits ends where the first underscore stands. *)
Lemma digit_prefix_cancel (p1 p2 r1 r2 : string) :
  all_digits p1 = true -> all_digits p2 = true ->
  p1 ++ "_" ++ r1 = p2 ++ "_" ++ r2 -> p1 = p2.
Proof.
  revert p2. induction p1 as [|c p1 IH]; intros [|c2 p2] H1 H2 H;
    simpl in *.
  - reflexivity.
  - injection H as Hc _. subst c2. discriminate.
  - injection H as Hc _. subst c. discriminate.
  - injection H as Hc H. subst c2.
    apply andb_true_iff in H1 as [_ H1]. apply andb_true_iff in H2 as [_ H2].
    f_equal. now apply IH.
Qed.

Lemma is_digit_safe (c : ascii) : is_digit c = true -> safe_char c = true.
Proof.
  unfold is_digit, safe_char. intro H. rewrite H.
  now rewrite !orb_true_r.
Qed.

Lemma all_digits_safe (s : string) : all_digits s = true -> all_safe s = true.
Proof.
  induction s as [|c s IH]; [reflexivity|].
  simpl. intro H. apply andb_true_iff in H as [Hc H].
  now rewrite (is_digit_safe _ Hc), IH.
Qed.

Lemma split_safe (s : string) : all_safe s = true -> split "/" s = [s].
Proof.
  induction s as [|c s IH]; [reflexivity|].
  simpl. intro H. apply andb_true_iff in H as [Hc H].
  destruct (Ascii.eqb_spec c "/") as [->|_]; [discriminate|].
  now rewrite (IH H).
Qed.

Section StagedNames.
Variable self : RemoteJobFiles.t.
Variable job_id : string.

(** The counter can be read off a staged name, whatever the location. *)
Lemma staged_name_inj (c c' : nat) (loc loc' : string) :
  staged_name c loc = staged_name c' loc' -> c = c'.
Proof.
  unfold staged_name, _create_input_filename. intro H.
  apply digit_prefix_cancel in H; try apply all_digits_zfill_str_of_nat.
  now apply zfill_str_of_nat_inj in H.
Qed.

Lemma all_safe_staged_name (c : nat) (loc : string) :
  all_safe (staged_name c loc) = true.
Proof.
  destruct (create_input_filename_tail
              (Staging.zfill 2 (Staging.str_of_nat c)) loc)
    as (tail & _ & _ & _ & _ & H).
  apply H, all_digits_safe, all_digits_zfill_str_of_nat.
Qed.

Lemma staged_name_proper (c : nat) (loc : string) :
  staged_name c loc <> "" /\ staged_name c loc <> ".".
Proof.
  pose proof (all_digits_zfill_str_of_nat 2 c) as Hd.
  unfold staged_name, _create_input_filename.
  destruct (Staging.zfill 2 (Staging.str_of_nat c)) as [|d p];
    cbn [append]; split; try discriminate.
  intro E. injection E as -> _. discriminate.
Qed.

Lemma abs_path_in_work (name : string) :
  all_safe name = true -> name <> "" -> name <> "." ->
  RemoteJobFiles._abs_path self job_id ("work/" ++ name)
  = (RemoteJobFiles._abs_path self job_id "" ++ ["work"; name])%list.
Proof.
  intros Hs He Hd. unfold RemoteJobFiles._abs_path.
  cbn [append String.eqb Ascii.eqb Bool.eqb negb].
  unfold Cerulean.div at 1. cbn [append startswith Ascii.eqb Bool.eqb andb].
  f_equal. unfold Cerulean.segments.
  cbn [append split Ascii.eqb Bool.eqb].
  rewrite (split_safe _ Hs).
  apply String.eqb_neq in He, Hd.
  cbn [filter String.eqb Ascii.eqb Bool.eqb negb andb].
  now rewrite He, Hd.
Qed.

(** A staged file sits directly in the [work] directory of the job,
    under its staged name. *)
Lemma staged_target_in_work (c : nat) (loc : string) :
  staged_target self job_id c loc
  = (RemoteJobFiles._abs_path self job_id "" ++ ["work"; staged_name c loc])%list.
Proof.
  unfold staged_target.
  apply abs_path_in_work;
    [apply all_safe_staged_name | apply staged_name_proper
     | apply staged_name_proper].
Qed.

Lemma staged_target_inj (c c' : nat) (loc loc' : string) :
  staged_target self job_id c loc = staged_target self job_id c' loc' -> c = c'.
Proof.
  rewrite !staged_target_in_work. intro H.
  apply app_inv_head in H. injection H as H.
  now apply staged_name_inj in H.
Qed.

(** X13: Two files staged with different counts get different names and
    different remote paths, whatever their locations are: the padded
    count in front of the name tells them apart. *)
Theorem staged_names_differ (c c' : nat) (loc loc' : string) :
  c <> c' ->
  _create_input_filename (Staging.zfill 2 (Staging.str_of_nat c)) loc
  <> _create_input_filename (Staging.zfill 2 (Staging.str_of_nat c')) loc'
  /\ RemoteJobFiles._abs_path self job_id
       ("work/" ++ _create_input_filename
                      (Staging.zfill 2 (Staging.str_of_nat c)) loc)
     <> RemoteJobFiles._abs_path self job_id
          ("work/" ++ _create_input_filename
                         (Staging.zfill 2 (Staging.str_of_nat c')) loc').
Proof.
  intro Hne. split; intro H; apply Hne.
  - exact (staged_name_inj _ _ _ _ H).
  - exact (staged_target_inj _ _ _ _ H).
Qed.

End StagedNames.

Lemma staged_names_differ_witness :
  _create_input_filename (Staging.zfill 2 (Staging.str_of_nat 1)) "a b"
  <> _create_input_filename (Staging.zfill 2 (Staging.str_of_nat 10)) "b".
Proof.
  apply (staged_names_differ example_job_files "job1" 1 10 "a b" "b").
  discriminate.
Defined.

(** ** Staging: what [_stage_input_file] asks of the remote side *)

(** Induction over an input file with the hypothesis available for all
    its secondary files. *)
Section FileInduction.
Variable P : Staging.File -> Prop.
Hypothesis HFile :
  forall name index location source secs,
    Forall P secs -> P (Staging.mkFile name index location source secs).

Lemma File_nested_ind : forall f, P f.
Proof.
  fix IH 1. intros [name index location source secs].
  apply HFile. revert secs. fix IHl 1.
  intros [|x xs]; constructor; [apply IH | apply IHl].
Qed.

End FileInduction.

Section StagingTrace.
Context {rem : Staging.Remote}.
Variable self : RemoteJobFiles.t.
Variable job_id : string.

Lemma planned_copies_unfold name index location source secs (count : nat) :
  planned_copies self job_id count
                 (Staging.mkFile name index location source secs)
  = (source, staged_target self job_id count location)
      :: planned_copies_list self job_id (S count) secs.
Proof. reflexivity. Qed.

Lemma do_copy_done (src dst : Cerulean.Path) (st st' : Staging.state) :
  Staging.do_copy src dst st = Staging.Done st' ->
  Staging.copied st' = (Staging.copied st ++ [(src, dst)])%list
  /\ Staging.written st' = Staging.written st
  /\ Staging.info_calls st' = Staging.info_calls st.
Proof.
  unfold Staging.do_copy.
  destruct (Staging.copy src dst (Staging.remote st)); cbn; [|discriminate].
  intro H. injection H as <-. repeat split.
Qed.

Lemma stage_secondary_files_trace
      (stage_one : nat -> Staging.File -> json -> Staging.state
                   -> Staging.outcome (nat * json * Staging.state))
      (files : list Staging.File) :
  Forall (fun f => forall c d s r,
              stage_one c f d s = Staging.Done r ->
              staged_as self job_id c f s r) files ->
  forall i count desc st count' desc' st',
    Staging.stage_secondary_files stage_one i files count desc st
    = Staging.Done (count', desc', st') ->
    count' = count + list_sum (map tree_size files)
    /\ Staging.copied st'
       = (Staging.copied st ++ planned_copies_list self job_id count files)%list
    /\ Staging.written st' = Staging.written st.
Proof.
  induction 1 as [|f rest Hf _ IH]; intros i count desc st count' desc' st' H.
  - injection H as <- _ <-. cbn. rewrite app_nil_r. repeat split. lia.
  - cbn [Staging.stage_secondary_files] in H.
    destruct (Staging.lift (py_getitem "secondaryFiles" desc)) as [sfs|];
      [|discriminate].
    cbn [Staging.and_then] in H.
    destruct (Staging.py_index i sfs) as [sec|]; [|discriminate].
    cbn [Staging.and_then] in H.
    destruct (stage_one count f sec st) as [[[c1 d1] s1]|] eqn:Hone;
      [|discriminate].
    cbn [Staging.and_then] in H.
    destruct (Staging.py_setitem "secondaryFiles" _ desc) as [desc1|];
      [|discriminate].
    cbn [Staging.and_then] in H.
    apply Hf in Hone. destruct Hone as (Hc1 & Hcp1 & Hw1).
    apply IH in H. destruct H as (Hc & Hcp & Hw).
    cbn [map planned_copies_list]. unfold list_sum in *. cbn [fold_right].
    repeat split.
    + lia.
    + rewrite Hcp, Hcp1, Hc1, <- app_assoc. reflexivity.
    + congruence.
Qed.

Lemma stage_input_file_staged_as (input_file : Staging.File) :
  forall count input_desc st r,
    Staging._stage_input_file self count job_id input_file input_desc st
    = Staging.Done r ->
    staged_as self job_id count input_file st r.
Proof.
  induction input_file as [name index location source secs IH]
    using File_nested_ind.
  intros count desc st [[count' desc'] st'] H.
  cbn [Staging._stage_input_file] in H.
  destruct (Staging.do_copy _ _ _) as [st1|] eqn:Hcopy; [|discriminate].
  cbn [Staging.and_then] in H.
  destruct (Staging.py_setitem "location" _ desc) as [desc1|]; [|discriminate].
  cbn [Staging.and_then] in H.
  apply do_copy_done in Hcopy. destruct Hcopy as (Hcp1 & Hw1 & _).
  apply (stage_secondary_files_trace _ secs) in H.
  - destruct H as (Hc & Hcp & Hw).
    unfold staged_as. rewrite planned_copies_unfold.
    cbn [tree_size]. unfold list_sum in *. repeat split.
    + lia.
    + rewrite Hcp, Hcp1. cbn [Staging.copied Staging.info].
      now rewrite <- app_assoc.
    + rewrite Hw, Hw1. reflexivity.
  - rewrite Forall_forall in *. intros f Hin c d s r Hr.
    exact (IH f Hin c d s r Hr).
Qed.

(** X14: On return, [_stage_input_file] has raised the count by the number of
    files in the tree of the input file, has asked for exactly one copy
    per file, depth first, each to the staged name made from the count
    the file got, and has written no file. *)
Theorem stage_input_file_trace
        (input_file : Staging.File) (count : nat) (input_desc : json)
        (st : Staging.state) (count' : nat) (desc' : json)
        (st' : Staging.state) :
  Staging._stage_input_file self count job_id input_file input_desc st
  = Staging.Done (count', desc', st') ->
  count' = count + tree_size input_file
  /\ Staging.copied st'
     = (Staging.copied st ++ planned_copies self job_id count input_file)%list
  /\ Staging.written st' = Staging.written st.
Proof. intro H. exact (stage_input_file_staged_as _ _ _ _ _ H). Qed.

End StagingTrace.

(** ** Staging: one name per file *)

Section StagedTargets.
Variable self : RemoteJobFiles.t.
Variable job_id : string.

Let targets (c : nat) (f : Staging.File) : list Cerulean.Path :=
  map snd (planned_copies self job_id c f).
Let targets_list (c : nat) (l : list Staging.File) : list Cerulean.Path :=
  map snd (planned_copies_list self job_id c l).

(** [t] is the target of a file staged with a counter in [[lo, hi)]. *)
Let staged_within (lo hi : nat) (t : Cerulean.Path) : Prop :=
  exists c loc, lo <= c < hi /\ t = staged_target self job_id c loc.

Lemma targets_list_within (files : list Staging.File) :
  Forall (fun f => forall c t, In t (targets c f) ->
                               staged_within c (c + tree_size f) t) files ->
  forall c t, In t (targets_list c files) ->
              staged_within c (c + list_sum (map tree_size files)) t.
Proof.
  induction 1 as [|f rest Hf _ IH]; intros c t Hin; [contradiction|].
  unfold targets_list in Hin. cbn [planned_copies_list] in Hin.
  rewrite map_app in Hin. apply in_app_or in Hin as [Hin|Hin].
  - destruct (Hf c t Hin) as (c' & loc & Hr & ->).
    exists c', loc. split; [|reflexivity].
    cbn [map]. unfold list_sum. cbn [fold_right]. lia.
  - destruct (IH _ t Hin) as (c' & loc & Hr & ->).
    exists c', loc. split; [|reflexivity].
    cbn [map]. unfold list_sum in *. cbn [fold_right]. lia.
Qed.

Lemma targets_within (f : Staging.File) :
  forall c t, In t (targets c f) -> staged_within c (c + tree_size f) t.
Proof.
  induction f as [name index location source secs IH] using File_nested_ind.
  intros c t Hin. unfold targets in Hin.
  rewrite planned_copies_unfold in Hin. cbn [map snd] in Hin.
  destruct Hin as [<-|Hin].
  - exists c, location. split; [|reflexivity]. cbn [tree_size]. lia.
  - destruct (targets_list_within secs IH (S c) t Hin) as (c' & loc & Hr & ->).
    exists c', loc. split; [|reflexivity]. cbn [tree_size]. lia.
Qed.

Lemma staged_within_apart (lo mid hi : nat) (t : Cerulean.Path) :
  staged_within lo mid t -> staged_within mid hi t -> False.
Proof.
  intros (c & loc & Hr & ->) (c' & loc' & Hr' & E).
  apply staged_target_inj in E. lia.
Qed.

Lemma NoDup_targets_list (files : list Staging.File) :
  Forall (fun f => forall c, NoDup (targets c f)) files ->
  forall c, NoDup (targets_list c files).
Proof.
  induction 1 as [|f rest Hf _ IH]; intro c; [constructor|].
  unfold targets_list. cbn [planned_copies_list]. rewrite map_app.
  apply NoDup_app; [apply Hf | apply IH |].
  intros t Hin Hin'.
  apply targets_within in Hin.
  apply (targets_list_within rest) in Hin';
    [| rewrite Forall_forall; intros; now apply targets_within].
  exact (staged_within_apart _ _ _ _ Hin Hin').
Qed.

Lemma NoDup_targets (f : Staging.File) : forall c, NoDup (targets c f).
Proof.
  induction f as [name index location source secs IH] using File_nested_ind.
  intro c. unfold targets. rewrite planned_copies_unfold. cbn [map snd].
  constructor; [|exact (NoDup_targets_list secs IH (S c))].
  intro Hin.
  apply (targets_list_within secs) in Hin;
    [| rewrite Forall_forall; intros; now apply targets_within].
  apply (staged_within_apart c (S c) _ _ ) in Hin; [exact Hin|].
  exists c, location. split; [lia | reflexivity].
Qed.

(** The files of one job never share a remote name: the targets of the
    copies planned for a list of input files and all their secondary
    files are pairwise distinct, whatever their locations, and each lies
    directly in the [work] directory of the job. *)
Lemma planned_targets_distinct (files : list Staging.File) (count : nat) :
  NoDup (map snd (planned_copies_list self job_id count files))
  /\ forall t, In t (map snd (planned_copies_list self job_id count files)) ->
               exists c loc,
                 count <= c < count + list_sum (map tree_size files)
                 /\ t = (RemoteJobFiles._abs_path self job_id ""
                         ++ ["work"; staged_name c loc])%list.
Proof.
  split.
  - apply NoDup_targets_list. rewrite Forall_forall. intros.
    apply NoDup_targets.
  - intros t Hin.
    apply (targets_list_within files) in Hin;
      [| rewrite Forall_forall; intros; now apply targets_within].
    destruct Hin as (c & loc & Hr & ->).
    exists c, loc. split; [exact Hr | apply staged_target_in_work].
Qed.

End StagedTargets.

(** ** Staging: the input description and the job record *)

Section StagingDescription.
Context {rem : Staging.Remote}.
Variable self : RemoteJobFiles.t.
Variable job_id : string.

Lemma stage_secondary_files_keeps
      (stage_one : nat -> Staging.File -> json -> Staging.state
                   -> Staging.outcome (nat * json * Staging.state))
      (files : list Staging.File) :
  forall i count d0 st count' desc' st',
    Staging.stage_secondary_files stage_one i files count (JDict d0) st
    = Staging.Done (count', desc', st') ->
    exists d1, desc' = JDict d1
               /\ forall key, key <> "secondaryFiles" ->
                              Dict.get key d1 = Dict.get key d0.
Proof.
  induction files as [|f rest IH]; intros i count d0 st count' desc' st' H.
  - injection H as _ <- _. now exists d0.
  - cbn [Staging.stage_secondary_files] in H.
    destruct (Staging.lift (py_getitem "secondaryFiles" (JDict d0)))
      as [sfs|]; [|discriminate].
    cbn [Staging.and_then] in H.
    destruct (Staging.py_index i sfs) as [sec|]; [|discriminate].
    cbn [Staging.and_then] in H.
    destruct (stage_one count f sec st) as [[[c1 x1] s1]|]; [|discriminate].
    cbn [Staging.and_then Staging.py_setitem] in H.
    apply IH in H. destruct H as (d1 & -> & Hkeep).
    exists d1. split; [reflexivity|].
    intros key Hne. rewrite (Hkeep key Hne).
    apply get_set_other. congruence.
Qed.

Lemma stage_input_file_description
        (input_file : Staging.File) (count : nat) (input_desc : json)
        (st : Staging.state) (count' : nat) (desc' : json)
        (st' : Staging.state) :
  Staging._stage_input_file self count job_id input_file input_desc st
  = Staging.Done (count', desc', st') ->
  exists d0 d1,
    input_desc = JDict d0 /\ desc' = JDict d1
    /\ Dict.get "location" d1
       = Some (JStr (Cerulean.str
                       (staged_target self job_id count
                                      (Staging.file_location input_file))))
    /\ forall key, key <> "location" -> key <> "secondaryFiles" ->
                   Dict.get key d1 = Dict.get key d0.
Proof.
  destruct input_file as [name index location source secs].
  cbn [Staging._stage_input_file Staging.file_location]. intro H.
  destruct (Staging.do_copy _ _ _) as [st1|]; [|discriminate].
  cbn [Staging.and_then] in H.
  destruct input_desc as [| | | | | |d0]; try discriminate.
  cbn [Staging.py_setitem Staging.and_then] in H.
  apply stage_secondary_files_keeps in H. destruct H as (d1 & -> & Hkeep).
  exists d0, d1. repeat split.
  - rewrite Hkeep by discriminate. apply get_set_same.
  - intros key Hl Hs. rewrite (Hkeep key Hs).
    apply get_set_other. congruence.
Qed.

(** X15: On return, the input description is still a mapping, its [location]
    is the remote path the file was copied to, and every entry other
    than [location] and [secondaryFiles] is as it was. *)
Theorem stage_input_file_rewrites_location
        (input_file : Staging.File) (count : nat) (input_desc : json)
        (st : Staging.state) (count' : nat) (desc' : json)
        (st' : Staging.state) :
  Staging._stage_input_file self count job_id input_file input_desc st
  = Staging.Done (count', desc', st') ->
  exists d0 d1,
    input_desc = JDict d0 /\ desc' = JDict d1
    /\ Dict.get "location" d1
       = Some (JStr (Cerulean.str
                       (staged_target self job_id count
                                      (Staging.file_location input_file))))
    /\ forall key, key <> "location" -> key <> "secondaryFiles" ->
                   Dict.get key d1 = Dict.get key d0.
Proof.
  exact (stage_input_file_description input_file count input_desc st
                                      count' desc' st').
Qed.

Lemma nth_error_list_put_other {A} (l : list A) (i j : nat) (x : A) :
  i <> j -> nth_error (Staging.list_put i x l) j = nth_error l j.
Proof.
  revert i j. induction l as [|y l IH]; intros [|i] [|j] H; cbn;
    try reflexivity; try congruence.
  apply IH. congruence.
Qed.

Hypothesis copy_succeeds :
  forall src dst w, exists w', Staging.copy src dst w = Ok w'.

Lemma stage_secondary_files_succeeds
      (stage_one : nat -> Staging.File -> json -> Staging.state
                   -> Staging.outcome (nat * json * Staging.state))
      (files : list Staging.File) :
  Forall (fun f => forall c d s, describes f d = true ->
                                 exists r, stage_one c f d s = Staging.Done r)
         files ->
  forall i count d sfs st,
    Dict.get "secondaryFiles" d = Some (JList sfs) ->
    describes_all files (skipn i sfs) = true ->
    exists r,
      Staging.stage_secondary_files stage_one i files count (JDict d) st
      = Staging.Done r.
Proof.
  induction 1 as [|f rest Hf _ IH]; intros i count d sfs st Hget Hall.
  - eexists. reflexivity.
  - cbn [Staging.stage_secondary_files py_getitem].
    unfold Dict.getitem. rewrite Hget. cbn [Staging.lift Staging.and_then].
    destruct (skipn i sfs) as [|x tl] eqn:Hskip; [discriminate|].
    cbn [describes_all] in Hall. apply andb_true_iff in Hall as [Hx Htl].
    assert (Hnth : nth_error sfs i = Some x).
    { rewrite <- (firstn_skipn i sfs), Hskip.
      assert (Hi : i <= List.length sfs).
      { destruct (Nat.le_gt_cases i (List.length sfs)) as [|Hgt]; [assumption|].
        rewrite skipn_all2 in Hskip by lia. discriminate. }
      rewrite nth_error_app2 by (rewrite length_firstn; lia).
      rewrite length_firstn, Nat.min_l by exact Hi.
      now rewrite Nat.sub_diag. }
    cbn [Staging.py_index]. rewrite Hnth. cbn [Staging.and_then].
    destruct (Hf count x st Hx) as [[[c1 x1] s1] Hone]. rewrite Hone.
    cbn [Staging.and_then Staging.py_setitem Staging.put_index].
    apply (IH (S i) c1 _ (Staging.list_put i x1 sfs) s1).
    + apply get_set_same.
    + assert (Hs : skipn (S i) (Staging.list_put i x1 sfs) = tl);
        [|now rewrite Hs].
      clear -Hskip. revert i Hskip.
      induction sfs as [|y sfs IHs]; intros [|i] Hskip; cbn in *;
        try discriminate.
      * now injection Hskip.
      * now apply IHs.
Qed.

Lemma describes_unfold name index location source secs (d : Dict.t) :
  describes (Staging.mkFile name index location source secs) (JDict d)
  = match secs with
    | [] => true
    | _ :: _ =>
        match Dict.get "secondaryFiles" d with
        | Some (JList sfs) => describes_all secs sfs
        | _ => false
        end
    end.
Proof.
  destruct secs; [reflexivity|].
  cbn [describes]. destruct (Dict.get "secondaryFiles" d) as [[]|];
    reflexivity.
Qed.

(** X16: Staging a file does return when every copy succeeds and the input
    description has the shape of the file tree: a mapping for the file
    and, in its [secondaryFiles] list, one for each secondary file, and so
    on downwards. *)
Theorem stage_input_file_succeeds (input_file : Staging.File) :
  forall count input_desc st,
    describes input_file input_desc = true ->
    exists r,
      Staging._stage_input_file self count job_id input_file input_desc st
      = Staging.Done r.
Proof.
  induction input_file as [name index location source secs IH]
    using File_nested_ind.
  intros count desc st Hd.
  destruct desc as [| | | | | |d]; try discriminate.
  rewrite describes_unfold in Hd.
  cbn [Staging._stage_input_file]. unfold Staging.do_copy.
  destruct (copy_succeeds source
              (RemoteJobFiles._abs_path self job_id
                 ("work/" ++ _create_input_filename
                                (Staging.zfill 2 (Staging.str_of_nat count))
                                location))
              (Staging.remote
                 (Staging.info ("Staging input file " ++ location) st)))
    as [w' Hw].
  rewrite Hw. cbn [Staging.lift Staging.and_then Staging.py_setitem].
  destruct secs as [|s secs'].
  - eexists. reflexivity.
  - destruct (Dict.get "secondaryFiles" d) as [[| | | | |sfs|]|] eqn:Hget;
      try discriminate.
    apply (stage_secondary_files_succeeds _ (s :: secs')) with (sfs := sfs).
    + rewrite Forall_forall in *. intros f Hin c x st0 Hx.
      exact (IH f Hin c x st0 Hx).
    + rewrite get_set_other by discriminate. exact Hget.
    + exact Hd.
Qed.

End StagingDescription.

Section StageJob.
Context {ext : Externals} {rem : Staging.Remote}.
Variable self : RemoteJobFiles.t.
Variable job_id : string.

Lemma stage_input_files_trace (files : list Staging.File) :
  forall count inputs st count' inputs' st',
    Staging.stage_input_files self count job_id files inputs st
    = Staging.Done (count', inputs', st') ->
    count' = count + list_sum (map tree_size files)
    /\ Staging.copied st'
       = (Staging.copied st ++ planned_copies_list self job_id count files)%list
    /\ Staging.written st' = Staging.written st.
Proof.
  induction files as [|f rest IH]; intros count inputs st count' inputs' st' H.
  - injection H as <- _ <-. cbn. rewrite app_nil_r. repeat split. lia.
  - cbn [Staging.stage_input_files] in H.
    destruct (Staging.file_name f) as [name|];
      [|destruct inputs; discriminate].
    destruct (Staging.lift (py_getitem name inputs)) as [entry|];
      [|discriminate].
    cbn [Staging.and_then] in H.
    assert (Hstep :
              forall r, (match Staging.file_index f with
                         | Some index =>
                             Staging.and_then (Staging.py_index index entry)
                               (fun input_desc =>
                                  Staging.and_then
                                    (Staging._stage_input_file
                                       self count job_id f input_desc st)
                                    (fun x => let '(c, d, s) := x in
                                              Staging.Done
                                                (c, Staging.put_index index d entry, s)))
                         | None =>
                             Staging._stage_input_file self count job_id f entry st
                         end) = Staging.Done r ->
                        staged_as self job_id count f st r).
    { intros [[c1 d1] s1] Hr. destruct (Staging.file_index f) as [index|].
      - destruct (Staging.py_index index entry) as [desc|]; [|discriminate].
        cbn [Staging.and_then] in Hr.
        destruct (Staging._stage_input_file self count job_id f desc st)
          as [[[c2 d2] s2]|] eqn:Hone; [|discriminate].
        cbn [Staging.and_then] in Hr. injection Hr as <- _ <-.
        exact (stage_input_file_staged_as self job_id f _ _ _ _ Hone).
      - exact (stage_input_file_staged_as self job_id f _ _ _ _ Hr). }
    destruct (match Staging.file_index f with
              | Some index => _
              | None => _
              end) as [[[c1 d1] s1]|] eqn:Hone; [|discriminate].
    cbn [Staging.and_then] in H.
    destruct (Staging.py_setitem name d1 inputs) as [inputs1|]; [|discriminate].
    cbn [Staging.and_then] in H.
    destruct (Hstep _ eq_refl) as (Hc1 & Hcp1 & Hw1).
    apply IH in H. destruct H as (Hc & Hcp & Hw).
    cbn [map planned_copies_list]. unfold list_sum in *. cbn [fold_right].
    repeat split.
    + lia.
    + rewrite Hcp, Hcp1, Hc1, <- app_assoc. reflexivity.
    + congruence.
Qed.

(** One turn of the loop of [stage_job], read backwards from its
    success. *)
Lemma stage_input_files_cons (f : Staging.File) (rest : list Staging.File)
      (count : nat) (inputs : json) (st : Staging.state)
      (r : nat * json * Staging.state) :
  Staging.stage_input_files self count job_id (f :: rest) inputs st
  = Staging.Done r ->
  exists name d entry desc c1 desc1 st1,
    Staging.file_name f = Some name
    /\ inputs = JDict d
    /\ Dict.get name d = Some entry
    /\ match Staging.file_index f with
       | None => desc = entry
       | Some i => Staging.py_index i entry = Staging.Done desc
       end
    /\ Staging._stage_input_file self count job_id f desc st
       = Staging.Done (c1, desc1, st1)
    /\ Staging.stage_input_files self c1 job_id rest
         (JDict (Dict.set name
                   (match Staging.file_index f with
                    | None => desc1
                    | Some i => Staging.put_index i desc1 entry
                    end) d))
         st1
       = Staging.Done r.
Proof.
  cbn [Staging.stage_input_files]. intro H.
  destruct (Staging.file_name f) as [name|];
    [|destruct inputs; discriminate].
  destruct inputs as [| | | | | |d]; try discriminate.
  cbn [py_getitem] in H. unfold Dict.getitem in H.
  destruct (Dict.get name d) as [entry|] eqn:Hentry; [|discriminate].
  cbn [Staging.lift Staging.and_then] in H.
  destruct (Staging.file_index f) as [i|].
  - destruct (Staging.py_index i entry) as [desc|] eqn:Hidx; [|discriminate].
    cbn [Staging.and_then] in H.
    destruct (Staging._stage_input_file self count job_id f desc st)
      as [[[c1 desc1] st1]|] eqn:Hone; [|discriminate].
    cbn [Staging.and_then Staging.py_setitem] in H.
    exists name, d, entry, desc, c1, desc1, st1. repeat split; assumption.
  - destruct (Staging._stage_input_file self count job_id f entry st)
      as [[[c1 desc1] st1]|] eqn:Hone; [|discriminate].
    cbn [Staging.and_then Staging.py_setitem] in H.
    exists name, d, entry, entry, c1, desc1, st1. repeat split; assumption.
Qed.

Lemma stage_input_files_app (before rest : list Staging.File) :
  forall count inputs st r,
    Staging.stage_input_files self count job_id (before ++ rest)%list inputs st
    = Staging.Done r ->
    exists c1 in1 st1,
      Staging.stage_input_files self count job_id before inputs st
      = Staging.Done (c1, in1, st1)
      /\ Staging.stage_input_files self c1 job_id rest in1 st1 = Staging.Done r.
Proof.
  induction before as [|f before IH]; intros count inputs st r H.
  - now exists count, inputs, st.
  - cbn [app Staging.stage_input_files] in H |- *.
    destruct (Staging.file_name f) as [name|];
      [|destruct inputs; discriminate].
    destruct (Staging.lift (py_getitem name inputs)) as [entry|];
      [|discriminate].
    cbn [Staging.and_then] in H |- *.
    destruct (match Staging.file_index f with
              | Some index => _
              | None => _
              end) as [[[c1 d1] s1]|]; [|discriminate].
    cbn [Staging.and_then] in H |- *.
    destruct (Staging.py_setitem name d1 inputs) as [inputs1|]; [|discriminate].
    cbn [Staging.and_then] in H |- *. now apply IH.
Qed.

Lemma stage_input_files_keys (files : list Staging.File) :
  forall count d st count' inputs' st',
    Staging.stage_input_files self count job_id files (JDict d) st
    = Staging.Done (count', inputs', st') ->
    exists d', inputs' = JDict d' /\ map fst d' = map fst d.
Proof.
  induction files as [|f rest IH]; intros count d st count' inputs' st' H.
  - injection H as _ <- _. now exists d.
  - apply stage_input_files_cons in H.
    destruct H as (name & d0 & entry & desc & c1 & desc1 & st1
                   & _ & Hd & Hentry & _ & _ & Hrest).
    injection Hd as <-. apply IH in Hrest. destruct Hrest as (d' & -> & Hk).
    exists d'. split; [reflexivity|].
    now rewrite Hk, (keys_set_present _ _ _ _ Hentry).
Qed.

Lemma stage_input_files_other (files : list Staging.File) (key : string) :
  (forall f, In f files -> Staging.file_name f <> Some key) ->
  forall count inputs st count' inputs' st',
    Staging.stage_input_files self count job_id files inputs st
    = Staging.Done (count', inputs', st') ->
    entry_of key inputs' = entry_of key inputs.
Proof.
  induction files as [|f rest IH];
    intros Hkey count inputs st count' inputs' st' H.
  - now injection H as _ <- _.
  - apply stage_input_files_cons in H.
    destruct H as (name & d0 & entry & desc & c1 & desc1 & st1
                   & Hname & -> & _ & _ & _ & Hrest).
    apply IH in Hrest; [|intros g Hg; apply Hkey; now right].
    rewrite Hrest. cbn [entry_of]. apply get_set_other.
    intros ->. now apply (Hkey f (or_introl eq_refl)).
Qed.

Lemma nth_error_list_put_same {A} (l : list A) (i : nat) (x y : A) :
  nth_error l i = Some y -> nth_error (Staging.list_put i x l) i = Some x.
Proof.
  revert i. induction l as [|z l IH]; intros [|i] H; try discriminate.
  - reflexivity.
  - cbn. now apply IH.
Qed.

(** A description that holds a mapping stays as it is while the files
    staged are other files. *)
Lemma stage_input_files_slot (files : list Staging.File) (name : string)
      (index : option nat) (dd : Dict.t) :
  (forall g, In g files ->
             ~ (Staging.file_name g = Some name /\ Staging.file_index g = index)) ->
  forall count inputs st count' inputs' st',
    Staging.stage_input_files self count job_id files inputs st
    = Staging.Done (count', inputs', st') ->
    slot_of name index inputs = Some (JDict dd) ->
    slot_of name index inputs' = Some (JDict dd).
Proof.
  induction files as [|g rest IH];
    intros Hother count inputs st count' inputs' st' H Hslot.
  - now injection H as _ <- _.
  - apply stage_input_files_cons in H.
    destruct H as (name' & d0 & entry & desc & c1 & desc1 & st1
                   & Hname & -> & Hentry & Hdesc & Hone & Hrest).
    apply (IH (fun x Hx => Hother x (or_intror Hx))) in Hrest; [exact Hrest|].
    destruct (stage_input_file_description _ _ _ _ _ _ _ _ _ Hone)
      as (dsc0 & dsc1 & -> & -> & _).
    destruct (String.eqb name' name) eqn:Hn.
    + apply String.eqb_eq in Hn. subst name'.
      assert (Hidx : Staging.file_index g <> index)
        by (intro E; apply (Hother g (or_introl eq_refl)); now split).
      unfold slot_of, entry_of in Hslot |- *. rewrite get_set_same.
      rewrite Hentry in Hslot.
      destruct index as [i|], (Staging.file_index g) as [j|];
        try congruence.
      * destruct entry as [| | | | |items|]; try discriminate.
        cbn [Staging.put_index].
        rewrite nth_error_list_put_other by congruence. exact Hslot.
      * destruct entry as [| | | | |items|]; discriminate.
      * injection Hslot as ->. discriminate.
    + apply String.eqb_neq in Hn.
      unfold slot_of, entry_of in Hslot |- *.
      rewrite get_set_other by congruence. exact Hslot.
Qed.

(** The description of a file at the time the loop comes to it. *)
Lemma slot_of_entry (name : string) (index : option nat) (d : Dict.t)
      (entry desc : json) (dd : Dict.t) :
  Dict.get name d = Some entry ->
  match index with
  | None => desc = entry
  | Some i => Staging.py_index i entry = Staging.Done desc
  end ->
  desc = JDict dd ->
  slot_of name index (JDict d) = Some (JDict dd).
Proof.
  intros Hentry Hdesc ->. unfold slot_of, entry_of. rewrite Hentry.
  destruct index as [i|]; [|now rewrite Hdesc].
  destruct entry as [| | | |s0|items|]; try discriminate.
  - cbn [Staging.py_index] in Hdesc. destruct (String.get i s0); discriminate.
  - cbn [Staging.py_index] in Hdesc.
    destruct (nth_error items i) as [x|]; [|discriminate].
    now injection Hdesc as ->.
Qed.

(** A description that is a mapping after the loop was a mapping before
    it, with the same entries but for [location] and [secondaryFiles],
    whichever files were staged. *)
Lemma stage_input_files_slot_before (files : list Staging.File)
      (name : string) (index : option nat) :
  forall count inputs st count' inputs' st' d',
    Staging.stage_input_files self count job_id files inputs st
    = Staging.Done (count', inputs', st') ->
    slot_of name index inputs' = Some (JDict d') ->
    exists d0,
      slot_of name index inputs = Some (JDict d0)
      /\ forall key, key <> "location" -> key <> "secondaryFiles" ->
                     Dict.get key d' = Dict.get key d0.
Proof.
  induction files as [|g rest IH];
    intros count inputs st count' inputs' st' d' H Hslot.
  - injection H as _ <- _. now exists d'.
  - apply stage_input_files_cons in H.
    destruct H as (name' & d & entry & desc & c1 & desc1 & st1
                   & Hname & -> & Hentry & Hdesc & Hone & Hrest).
    destruct (IH _ _ _ _ _ _ _ Hrest Hslot) as (d1 & H1 & Hkeep1).
    destruct (stage_input_file_description _ _ _ _ _ _ _ _ _ Hone)
      as (dsc0 & dsc1 & -> & -> & _ & Hkeep).
    assert (Hhere := slot_of_entry name' (Staging.file_index g) d entry
                       (JDict dsc0) dsc0 Hentry Hdesc eq_refl).
    destruct (String.eqb name' name) eqn:Hn.
    + apply String.eqb_eq in Hn. subst name'.
      unfold slot_of, entry_of in H1, Hhere |- *.
      rewrite get_set_same in H1. rewrite Hentry in Hhere |- *.
      destruct index as [i|], (Staging.file_index g) as [j|].
      * destruct entry as [| | | | |items|]; try discriminate.
        cbn [Staging.put_index] in H1.
        destruct (Nat.eq_dec j i) as [->|Hji].
        -- rewrite (nth_error_list_put_same _ _ _ _ Hhere) in H1.
           injection H1 as <-. exists dsc0. split; [exact Hhere|].
           intros key Hl Hs. now rewrite (Hkeep1 key Hl Hs), (Hkeep key Hl Hs).
        -- rewrite nth_error_list_put_other in H1 by exact Hji.
           now exists d1.
      * injection Hhere as ->. discriminate.
      * destruct entry as [| | | | |items|]; discriminate.
      * injection Hhere as ->. injection H1 as <-.
        exists dsc0. split; [reflexivity|].
        intros key Hl Hs. now rewrite (Hkeep1 key Hl Hs), (Hkeep key Hl Hs).
    + apply String.eqb_neq in Hn.
      unfold slot_of, entry_of in H1 |- *.
      rewrite get_set_other in H1 by congruence. now exists d1.
Qed.

(** What a successful loop over the input files has made of the input
    description. *)
Lemma stage_input_files_rewritten (files : list Staging.File) :
  forall inputs st count' inputs' st',
    Staging.stage_input_files self 1 job_id files inputs st
    = Staging.Done (count', inputs', st') ->
    rewritten_inputs self job_id files inputs inputs'.
Proof.
  intros inputs st count' inputs' st' H. split; [|split; [|split]].
  - intros ->. now injection H as _ <- _.
  - intros d ->. exact (stage_input_files_keys _ _ _ _ _ _ _ H).
  - intros key Hkey. exact (stage_input_files_other _ _ Hkey _ _ _ _ _ _ H).
  - intros before f after name -> Hname Hafter.
    apply stage_input_files_app in H.
    destruct H as (c1 & in1 & s1 & Hbefore & H).
    assert (Hcount := stage_input_files_trace _ _ _ _ _ _ _ Hbefore).
    destruct Hcount as (-> & _ & _).
    apply stage_input_files_cons in H.
    destruct H as (name' & d0 & entry & desc & c2 & desc1 & st1
                   & Hname' & -> & Hentry & Hdesc & Hone & Hrest).
    rewrite Hname in Hname'. injection Hname' as <-.
    destruct (stage_input_file_description _ _ _ _ _ _ _ _ _ Hone)
      as (dsc0 & dsc1 & -> & -> & Hloc & Hkeep).
    assert (Hhere := slot_of_entry name (Staging.file_index f) d0 entry
                       (JDict dsc0) dsc0 Hentry Hdesc eq_refl).
    destruct (stage_input_files_slot_before _ _ _ _ _ _ _ _ _ _ Hbefore Hhere)
      as (d00 & Hfirst & Hkeep0).
    exists d00, dsc1. split; [exact Hfirst|]. split; [|split; [exact Hloc|]].
    + apply (stage_input_files_slot _ _ _ _ Hafter _ _ _ _ _ _ Hrest).
      unfold slot_of, entry_of in Hhere |- *. rewrite get_set_same.
      rewrite Hentry in Hhere.
      destruct (Staging.file_index f) as [i|]; [|reflexivity].
      destruct entry as [| | | | |items|]; try discriminate.
      cbn [Staging.put_index]. exact (nth_error_list_put_same _ _ _ _ Hhere).
    + intros key Hl Hs. now rewrite (Hkeep key Hl Hs), (Hkeep0 key Hl Hs).
Qed.

Lemma add_file_done (rel_path data : string) (st st' : Staging.state) :
  Staging._add_file_to_job self job_id rel_path data st = Staging.Done st' ->
  Staging.copied st' = Staging.copied st
  /\ Staging.written st'
     = (Staging.written st
        ++ [(RemoteJobFiles._abs_path self job_id rel_path, data)])%list.
Proof.
  unfold Staging._add_file_to_job.
  destruct (Staging.write_bytes _ _ _); cbn; [|discriminate].
  intro H. injection H as <-. split; reflexivity.
Qed.

Lemma do_mkdir_done (p : Cerulean.Path) (mode : nat) (parents exists_ok : bool)
      (st st' : Staging.state) :
  Staging.do_mkdir p mode parents exists_ok st = Staging.Done st' ->
  Staging.copied st' = Staging.copied st
  /\ Staging.written st' = Staging.written st.
Proof.
  unfold Staging.do_mkdir.
  destruct (Staging.mkdir _ _ _ _ _); cbn; [|discriminate].
  intro H. injection H as <-. split; reflexivity.
Qed.

Lemma stage_job_done
        (input_files : list Staging.File) (workflow_content : string)
        (job job' : Staging.Job) (st st' : Staging.state) :
  Staging.stage_job self job_id input_files workflow_content job st
  = Staging.Done (job', st') ->
  let path rel := RemoteJobFiles._abs_path self job_id rel in
  Staging.copied st'
  = (Staging.copied st ++ planned_copies_list self job_id 1 input_files)%list
  /\ (Staging.copied st = [] -> NoDup (map snd (Staging.copied st')))
  /\ (exists inputs inputs',
         json_loads (Staging.local_input job) = Ok inputs
         /\ rewritten_inputs self job_id input_files inputs inputs'
         /\ Staging.written st'
            = (Staging.written st
               ++ [(path "name.txt", Staging.encode_utf8 (Staging.name job));
                   (path "workflow.cwl", workflow_content);
                   (path "input.json",
                    Staging.encode_utf8 (json_dumps inputs'))])%list)
  /\ job' = Staging.mkJob (Staging.name job) (Staging.local_input job)
                          (Cerulean.str (path "work"))
                          (Cerulean.str (path "workflow.cwl"))
                          (Cerulean.str (path "input.json"))
                          (Cerulean.str (path "stdout.txt"))
                          (Cerulean.str (path "stderr.txt"))
                          (Cerulean.str (path "sysout.txt"))
                          (Cerulean.str (path "syserr.txt")).
Proof.
  intro H. cbv zeta. unfold Staging.stage_job in H.
  destruct (Staging.do_mkdir _ _ _ _ st) as [s1|] eqn:H1; [|discriminate].
  cbn [Staging.and_then] in H.
  destruct (Staging.do_mkdir _ _ _ _ s1) as [s2|] eqn:H2; [|discriminate].
  cbn [Staging.and_then] in H.
  destruct (Staging._add_file_to_job self job_id "name.txt" _ s2) as [s3|] eqn:H3;
    [|discriminate].
  cbn [Staging.and_then] in H.
  destruct (Staging._add_file_to_job self job_id "workflow.cwl" _ s3)
    as [s4|] eqn:H4; [|discriminate].
  cbn [Staging.and_then] in H.
  destruct (json_loads (Staging.local_input job)) as [inputs|] eqn:Hloads;
    [|discriminate].
  cbn [Staging.lift Staging.and_then] in H.
  destruct (Staging.stage_input_files self 1 job_id input_files inputs s4)
    as [[[c5 inputs'] s5]|] eqn:H5; [|discriminate].
  cbn [Staging.and_then] in H.
  destruct (Staging._add_file_to_job self job_id "input.json" _ s5)
    as [s6|] eqn:H6; [|discriminate].
  cbn [Staging.and_then] in H. injection H as <- <-.
  apply do_mkdir_done in H1, H2. apply add_file_done in H3, H4, H6.
  pose proof (stage_input_files_rewritten _ _ _ _ _ _ H5) as Hrewritten.
  apply stage_input_files_trace in H5.
  destruct H1 as [C1 W1], H2 as [C2 W2], H3 as [C3 W3], H4 as [C4 W4],
    H5 as (_ & C5 & W5), H6 as [C6 W6].
  assert (Hcopied : Staging.copied s6
                    = (Staging.copied st
                       ++ planned_copies_list self job_id 1 input_files)%list)
    by congruence.
  repeat split.
  - exact Hcopied.
  - intro Hnil. rewrite Hcopied, Hnil. cbn [app].
    apply NoDup_targets_list. rewrite Forall_forall. intros.
    apply NoDup_targets.
  - exists inputs, inputs'. split; [reflexivity|]. split; [exact Hrewritten|].
    rewrite W6, W5, W4, W3, W2, W1, <- !app_assoc. reflexivity.
Qed.


(** X17: When [stage_job] returns, it has asked for one copy per input file
    and secondary file, counted from 1 through the whole job, so that no
    two files of the job share a target; it has written [name.txt],
    [workflow.cwl] and, last, [input.json] in the job directory, the
    last with the serialisation of the input description of the job
    record rewritten for the staged files: the same keys, the entries
    that name no input file as they were, and in the description of each
    input file the remote path it was copied to as [location] and every
    entry but [location] and [secondaryFiles] as it was; and the job
    record holds the
    paths of [work], [workflow.cwl], [input.json], [stdout.txt],
    [stderr.txt], [sysout.txt] and [syserr.txt] in that directory. *)
Theorem stage_job_effects
        (input_files : list Staging.File) (workflow_content : string)
        (job job' : Staging.Job) (st st' : Staging.state) :
  Staging.stage_job self job_id input_files workflow_content job st
  = Staging.Done (job', st') ->
  let path rel := RemoteJobFiles._abs_path self job_id rel in
  Staging.copied st'
  = (Staging.copied st ++ planned_copies_list self job_id 1 input_files)%list
  /\ (Staging.copied st = [] -> NoDup (map snd (Staging.copied st')))
  /\ (exists inputs inputs',
         json_loads (Staging.local_input job) = Ok inputs
         /\ rewritten_inputs self job_id input_files inputs inputs'
         /\ Staging.written st'
            = (Staging.written st
               ++ [(path "name.txt", Staging.encode_utf8 (Staging.name job));
                   (path "workflow.cwl", workflow_content);
                   (path "input.json",
                    Staging.encode_utf8 (json_dumps inputs'))])%list)
  /\ job' = Staging.mkJob (Staging.name job) (Staging.local_input job)
                          (Cerulean.str (path "work"))
                          (Cerulean.str (path "workflow.cwl"))
                          (Cerulean.str (path "input.json"))
                          (Cerulean.str (path "stdout.txt"))
                          (Cerulean.str (path "stderr.txt"))
                          (Cerulean.str (path "sysout.txt"))
                          (Cerulean.str (path "syserr.txt")).
Proof. exact (stage_job_done input_files workflow_content job job' st st'). Qed.

End StageJob.

Lemma obliging_copy_succeeds (src dst : Cerulean.Path)
      (w : Staging.world (Remote := obliging_remote)) :
  exists w', Staging.copy (Remote := obliging_remote) src dst w = Ok w'.
Proof. now exists w. Qed.

Lemma stage_input_file_succeeds_witness :
  exists r,
    Staging._stage_input_file (rem := obliging_remote) example_job_files 1
      "job1" example_input_file example_input_desc fresh_state
    = Staging.Done r.
Proof.
  apply (stage_input_file_succeeds (rem := obliging_remote) example_job_files
           "job1" obliging_copy_succeeds example_input_file 1
           example_input_desc fresh_state).
  reflexivity.
Defined.

Lemma stage_input_file_trace_witness :
  exists count' desc' st',
    Staging._stage_input_file (rem := obliging_remote) example_job_files 1
      "job1" example_input_file example_input_desc fresh_state
    = Staging.Done (count', desc', st')
    /\ count' = 3
    /\ map snd (Staging.copied st')
       = [["home"; "cerise"; "jobs"; "job1"; "work"; "01_file_data_genome.fa"];
          ["home"; "cerise"; "jobs"; "job1"; "work";
           "02_file_data_genome.fa.fai"]].
Proof.
  eexists. eexists. eexists. split; [vm_compute; reflexivity|].
  destruct (stage_input_file_trace (rem := obliging_remote) example_job_files
              "job1" example_input_file 1 example_input_desc fresh_state
              _ _ _ eq_refl) as (Hc & Hcp & _).
  split; [exact Hc | reflexivity].
Defined.

Lemma stage_input_file_rewrites_location_witness :
  exists d0 d1,
    example_input_desc = JDict d0
    /\ JDict [("class", JStr "File");
              ("location",
               JStr "/home/cerise/jobs/job1/work/01_file_data_genome.fa");
              ("secondaryFiles",
               JList
                 [JDict
                    [("class", JStr "File");
                     ("location",
                      JStr "/home/cerise/jobs/job1/work/02_file_data_genome.fa.fai")]])]
       = JDict d1
    /\ Dict.get "location" d1
       = Some (JStr (Cerulean.str
                       (staged_target example_job_files "job1" 1
                                      "file:///data/genome.fa")))
    /\ forall key, key <> "location" -> key <> "secondaryFiles" ->
                   Dict.get key d1 = Dict.get key d0.
Proof.
  apply (stage_input_file_rewrites_location (rem := obliging_remote)
           example_job_files "job1" example_input_file 1 example_input_desc
           fresh_state 3 _
           (Staging.mkState (rem := obliging_remote) tt
              [(["data"; "genome.fa"],
                ["home"; "cerise"; "jobs"; "job1"; "work";
                 "01_file_data_genome.fa"]);
               (["data"; "genome.fa.fai"],
                ["home"; "cerise"; "jobs"; "job1"; "work";
                 "02_file_data_genome.fa.fai"])]
              []
              ["Staging input file file:///data/genome.fa";
               "Staging input file file:///data/genome.fa.fai"])).
  reflexivity.
Defined.

Lemma stage_job_effects_witness :
  exists job' st',
    Staging.stage_job (ext := staging_externals) (rem := obliging_remote)
      example_job_files "job1" [example_input_file] "<translated workflow>"
      example_staging_job fresh_state
    = Staging.Done (job', st')
    /\ NoDup (map snd (Staging.copied st'))
    /\ Staging.remote_stdout_path job' = "/home/cerise/jobs/job1/stdout.txt"
    /\ exists inputs' d,
         nth_error (Staging.written st') 2
         = Some (["home"; "cerise"; "jobs"; "job1"; "input.json"],
                 render inputs')
         /\ entry_of "threads" inputs' = Some (JInt 4)
         /\ entry_of "genome" inputs' = Some (JDict d)
         /\ Dict.get "location" d
            = Some (JStr "/home/cerise/jobs/job1/work/01_file_data_genome.fa")
         /\ Dict.get "class" d = Some (JStr "File").
Proof.
  eexists. eexists. split; [vm_compute; reflexivity|].
  destruct (stage_job_effects (ext := staging_externals) (rem := obliging_remote)
              example_job_files "job1" [example_input_file]
              "<translated workflow>" example_staging_job _ fresh_state _
              eq_refl)
    as (_ & Hnodup & (inputs & inputs' & Hloads & Hrw & Hwritten) & Hjob).
  split; [apply Hnodup; reflexivity|]. split; [reflexivity|].
  destruct Hrw as (_ & _ & Hother & Hfiles).
  destruct (Hfiles [] example_input_file [] "genome" eq_refl eq_refl)
    as (d0 & d & Hfirst & Hslot & Hloc & Hkeep); [intros g []|].
  exists inputs', d. split; [|split; [|split; [|split]]].
  - exact (f_equal (fun l => nth_error l 2) Hwritten).
  - rewrite (Hother "threads").
    + injection Hloads as <-. reflexivity.
    + intros f [<-|[]]. discriminate.
  - exact Hslot.
  - exact Hloc.
  - rewrite (Hkeep "class") by discriminate.
    injection Hloads as <-. now injection Hfirst as <-.
Defined.

(** ** Directories: projects and job directories *)

Lemma split_no_slash (s : string) :
  contains "/" s = false -> split "/" s = [s].
Proof.
  induction s as [|c s IH]; [reflexivity|].
  cbn [contains startswith]. intro H.
  apply orb_false_iff in H as [Hc H].
  rewrite andb_true_r, Ascii.eqb_sym in Hc.
  cbn [split]. rewrite Hc. now rewrite (IH H).
Qed.

Lemma div_plain_segment (p : Cerulean.Path) (s : string) :
  plain_segment s = true -> Cerulean.div p s = (p ++ [s])%list.
Proof.
  unfold plain_segment. intro H.
  apply andb_true_iff in H as [H Hd]. apply andb_true_iff in H as [Hs He].
  apply negb_true_iff in Hs.
  unfold Cerulean.div, Cerulean.segments.
  rewrite (split_no_slash _ Hs). cbn [filter]. now rewrite He, Hd.
Qed.

Lemma canonical_app (p q : Cerulean.Path) :
  canonical (p ++ q)%list = canonical p && canonical q.
Proof. apply forallb_app. Qed.

Lemma files_add_dir (p : Cerulean.Path) (fs : Cerulean.FileSystem) :
  Cerulean.files (Cerulean.add_dir p fs) = Cerulean.files fs.
Proof. unfold Cerulean.add_dir. now destruct (Cerulean.is_dir fs p). Qed.

Lemma files_makedirs (l : list Cerulean.Path) (fs : Cerulean.FileSystem) :
  Cerulean.files (fold_left (fun acc p => Cerulean.add_dir p acc) l fs)
  = Cerulean.files fs.
Proof.
  revert fs. induction l as [|p l IH]; intro fs; [reflexivity|].
  cbn [fold_left]. now rewrite IH, files_add_dir.
Qed.

(** A [mkdir] that returns has made the directory, has kept every
    directory that was there, and has touched no file. *)
Lemma mkdir_ok (fs fs' : Cerulean.FileSystem) (p : Cerulean.Path) (mode : nat)
      (parents exists_ok : bool) :
  Cerulean.mkdir fs p mode parents exists_ok = Ok fs' ->
  Cerulean.is_dir fs' p = true
  /\ (forall q, Cerulean.is_dir fs q = true -> Cerulean.is_dir fs' q = true)
  /\ Cerulean.files fs' = Cerulean.files fs.
Proof.
  unfold Cerulean.mkdir.
  destruct (Cerulean.is_dir fs p) eqn:Hp.
  - destruct exists_ok; [|discriminate]. intro H. injection H as <-.
    repeat split; auto.
  - destruct (Cerulean.is_file fs p); [discriminate|].
    destruct (existsb _ _); [discriminate|].
    destruct (Cerulean.is_dir fs (Cerulean.parent p)).
    + intro H. injection H as <-. repeat split.
      * apply is_dir_add_dir_same.
      * intros q Hq. now apply is_dir_add_dir_mono.
      * apply files_add_dir.
    + destruct parents; [|discriminate]. intro H. injection H as <-.
      repeat split.
      * apply is_dir_makedirs. left. apply prefixes_self.
      * intros q Hq. apply is_dir_makedirs. now right.
      * apply files_makedirs.
Qed.

Section Projects.
Context {ext : Externals}.

(** X18: After the installer is set up, [_make_remote_project] with a plain
    project name and no file in the way returns the path [<api>/<name>]
    and leaves it a directory, next to everything that was there; a
    second call returns the same path and changes nothing.  Where the
    API directory itself is missing the call raises instead of creating
    it. *)
Theorem make_remote_project_after_init
        (config : RemoteApi.Config) (fs fs1 : Cerulean.FileSystem)
        (self : RemoteApi.t) (name : string) :
  RemoteApi.__init__ config fs = Ok (self, fs1) ->
  plain_segment name = true ->
  existsb (Cerulean.is_file fs1)
          (Cerulean.prefixes (RemoteApi._api_dir self ++ [name])%list) = false ->
  (exists fs2,
      RemoteApi._make_remote_project self name fs1
      = Ok ((RemoteApi._api_dir self ++ [name])%list, fs2)
      /\ Cerulean.is_dir fs2 (RemoteApi._api_dir self ++ [name])%list = true
      /\ (forall q, Cerulean.is_dir fs1 q = true -> Cerulean.is_dir fs2 q = true)
      /\ Cerulean.files fs2 = Cerulean.files fs1
      /\ RemoteApi._make_remote_project self name fs2
         = Ok ((RemoteApi._api_dir self ++ [name])%list, fs2))
  /\ (forall fs0,
         Cerulean.is_dir fs0 (RemoteApi._api_dir self) = false ->
         Cerulean.is_dir fs0 (RemoteApi._api_dir self ++ [name])%list = false ->
         exists e, RemoteApi._make_remote_project self name fs0 = Raise e).
Proof.
  intros Hinit Hname Hfiles.
  unfold RemoteApi.__init__ in Hinit.
  destruct (Cerulean.mkdir fs _ 488 true true) as [fs1'|] eqn:Hmk;
    [|discriminate].
  cbn [bind] in Hinit. injection Hinit as <- <-.
  apply mkdir_ok in Hmk. destruct Hmk as (Hapi & _ & _).
  cbn [RemoteApi._api_dir] in *.
  set (api := Cerulean.div (RemoteApi.get_basedir config) "api") in *.
  assert (Hparent : Cerulean.parent (api ++ [name])%list = api)
    by (unfold Cerulean.parent; apply removelast_last).
  split.
  - unfold RemoteApi._make_remote_project. cbn [RemoteApi._api_dir].
    rewrite (div_plain_segment _ _ Hname).
    destruct (Cerulean.mkdir fs1' (api ++ [name])%list 448 false true)
      as [fs2|e] eqn:Hmk2.
    + exists fs2. cbn [bind]. pose proof (mkdir_ok _ _ _ _ _ _ Hmk2) as (Hd & Hm & Hf).
      repeat split; try assumption.
      unfold Cerulean.mkdir. now rewrite Hd.
    + exfalso. unfold Cerulean.mkdir in Hmk2.
      destruct (Cerulean.is_dir fs1' (api ++ [name])%list); [discriminate|].
      assert (Hfile : Cerulean.is_file fs1' (api ++ [name])%list = false).
      { destruct (Cerulean.is_file fs1' (api ++ [name])%list) eqn:E;
          [|reflexivity].
        assert (existsb (Cerulean.is_file fs1')
                        (Cerulean.prefixes (api ++ [name])%list) = true)
          by (apply existsb_exists; eexists; split;
              [apply prefixes_self | exact E]).
        congruence. }
      rewrite Hfile, Hfiles, Hparent, Hapi in Hmk2. discriminate.
  - intros fs0 Hno Hnop.
    unfold RemoteApi._make_remote_project. cbn [RemoteApi._api_dir].
    rewrite (div_plain_segment _ _ Hname).
    destruct (mkdir_without_parents_refuses fs0 (api ++ [name])%list 448 true Hnop)
      as [e He]; [now rewrite Hparent|].
    rewrite He. cbn [bind]. eauto.
Qed.

End Projects.

Lemma make_remote_project_after_init_witness :
  exists fs2,
    RemoteApi._make_remote_project
      (RemoteApi.mkRemoteApi None ["home"; "user"; ".cerise"]
                             ["home"; "user"; ".cerise"; "api"])
      "projA"
      (Cerulean.mkFS [["home"; "user"; ".cerise"; "api"];
                      ["home"; "user"; ".cerise"]; ["home"; "user"]; ["home"]]
                     [])
    = Ok (["home"; "user"; ".cerise"; "api"; "projA"], fs2)
    /\ Cerulean.is_dir fs2 ["home"; "user"; ".cerise"; "api"; "projA"] = true.
Proof.
  destruct (make_remote_project_after_init example_config example_fs
              (Cerulean.mkFS [["home"; "user"; ".cerise"; "api"];
                              ["home"; "user"; ".cerise"]; ["home"; "user"];
                              ["home"]] [])
              (RemoteApi.mkRemoteApi None ["home"; "user"; ".cerise"]
                                     ["home"; "user"; ".cerise"; "api"])
              "projA" eq_refl eq_refl eq_refl)
    as [(fs2 & Hmk & Hdir & _) _].
  exists fs2. split; [exact Hmk | exact Hdir].
Defined.

(** X19: Setting up the installer removes nothing: when it returns, the API
    directory [<base>/api] is a directory, every directory that existed
    still does, the files are untouched, and setting up again on the
    result changes nothing. *)
Theorem init_keeps_what_exists
        (config : RemoteApi.Config) (fs fs1 : Cerulean.FileSystem)
        (self : RemoteApi.t) :
  RemoteApi.__init__ config fs = Ok (self, fs1) ->
  RemoteApi._api_dir self = (RemoteApi.get_basedir config ++ ["api"])%list
  /\ Cerulean.is_dir fs1 (RemoteApi._api_dir self) = true
  /\ (forall q, Cerulean.is_dir fs q = true -> Cerulean.is_dir fs1 q = true)
  /\ Cerulean.files fs1 = Cerulean.files fs
  /\ RemoteApi.__init__ config fs1 = Ok (self, fs1).
Proof.
  unfold RemoteApi.__init__. intro H.
  destruct (Cerulean.mkdir fs _ 488 true true) as [fs'|] eqn:Hmk;
    [|discriminate].
  cbn [bind] in H. injection H as <- <-.
  destruct (mkdir_ok _ _ _ _ _ _ Hmk) as (Hd & Hm & Hf).
  cbn [RemoteApi._api_dir]. repeat split; try assumption.
  unfold Cerulean.mkdir. now rewrite Hd.
Qed.

Lemma init_keeps_what_exists_witness :
  RemoteApi.__init__ example_config
    (Cerulean.mkFS [["home"; "user"; ".cerise"; "api"];
                    ["home"; "user"; ".cerise"]; ["home"; "user"]; ["home"]]
                   [])
  = Ok (RemoteApi.mkRemoteApi None ["home"; "user"; ".cerise"]
                              ["home"; "user"; ".cerise"; "api"],
        Cerulean.mkFS [["home"; "user"; ".cerise"; "api"];
                       ["home"; "user"; ".cerise"]; ["home"; "user"]; ["home"]]
                      []).
Proof.
  apply (init_keeps_what_exists example_config example_fs _ _ eq_refl).
Defined.

Lemma is_prefix_app_same (a b c : Cerulean.Path) :
  CeruleanTree.is_prefix (a ++ b)%list (a ++ c)%list = CeruleanTree.is_prefix b c.
Proof.
  induction a as [|x a IH]; [reflexivity|].
  cbn [app CeruleanTree.is_prefix]. now rewrite String.eqb_refl, IH.
Qed.

Lemma is_prefix_refl (p : Cerulean.Path) : CeruleanTree.is_prefix p p = true.
Proof.
  rewrite <- (app_nil_r p) at 2. rewrite <- (app_nil_r p) at 1.
  now rewrite is_prefix_app_same.
Qed.

Lemma is_prefix_split (p q : Cerulean.Path) :
  CeruleanTree.is_prefix p q = true -> exists rest, q = (p ++ rest)%list.
Proof.
  revert q. induction p as [|a p IH]; intros q H.
  - now exists q.
  - destruct q as [|b q]; [discriminate|].
    cbn [CeruleanTree.is_prefix] in H. apply andb_true_iff in H as [Hab H].
    apply String.eqb_eq in Hab. subst b.
    destruct (IH _ H) as [rest ->]. now exists rest.
Qed.

(** What is not at or below [p] has nothing above it that is. *)
Lemma is_prefix_shorter (p a b : Cerulean.Path) :
  CeruleanTree.is_prefix p (a ++ b)%list = false ->
  CeruleanTree.is_prefix p a = false.
Proof.
  intro H. destruct (CeruleanTree.is_prefix p a) eqn:E; [|reflexivity].
  apply is_prefix_split in E as [rest ->].
  rewrite <- app_assoc, <- (app_nil_r p) in H at 1.
  now rewrite is_prefix_app_same in H.
Qed.

Lemma existsb_filter {A} (f g : A -> bool) (l : list A) :
  existsb f (filter g l) = existsb (fun x => g x && f x) l.
Proof.
  induction l as [|x l IH]; [reflexivity|].
  cbn [filter existsb]. destruct (g x); cbn [existsb andb]; now rewrite IH.
Qed.

Lemma is_dir_pruned (fs : Cerulean.FileSystem) (p q : Cerulean.Path) :
  q <> [] ->
  Cerulean.is_dir (CeruleanTree.prune fs p) q
  = Cerulean.is_dir fs q && negb (CeruleanTree.is_prefix p q).
Proof.
  intro Hq. destruct q as [|seg q]; [congruence|].
  unfold Cerulean.is_dir, CeruleanTree.prune. cbn [Cerulean.dirs].
  rewrite existsb_filter.
  induction (Cerulean.dirs fs) as [|d l IH]; [reflexivity|].
  cbn [existsb]. rewrite IH.
  destruct (Cerulean.path_eqb (seg :: q) d) eqn:E.
  - apply path_eqb_eq in E. subst d.
    destruct (CeruleanTree.is_prefix p (seg :: q)); cbn;
      [|reflexivity].
    now rewrite andb_false_r.
  - rewrite andb_false_r. reflexivity.
Qed.

Lemma lookup_file_pruned (fs : Cerulean.FileSystem) (p q : Cerulean.Path) :
  Cerulean.lookup_file q (Cerulean.files (CeruleanTree.prune fs p))
  = if CeruleanTree.is_prefix p q then None
    else Cerulean.lookup_file q (Cerulean.files fs).
Proof.
  unfold CeruleanTree.prune. cbn [Cerulean.files].
  destruct (CeruleanTree.is_prefix p q) eqn:Hp;
    induction (Cerulean.files fs) as [|[d data] l IH]; try reflexivity;
    cbn [filter fst Cerulean.lookup_file];
    destruct (Cerulean.path_eqb q d) eqn:E.
  - apply path_eqb_eq in E. subst d. rewrite Hp. exact IH.
  - destruct (CeruleanTree.is_prefix p d); cbn [negb]; [exact IH|].
    cbn [Cerulean.lookup_file]. now rewrite E.
  - apply path_eqb_eq in E. subst d. rewrite Hp.
    cbn [negb Cerulean.lookup_file]. now rewrite path_eqb_refl.
  - destruct (CeruleanTree.is_prefix p d); cbn [negb]; [exact IH|].
    cbn [Cerulean.lookup_file]. now rewrite E.
Qed.

Section Pruning.
Variables (fs : Cerulean.FileSystem) (p : Cerulean.Path).
Hypothesis p_not_root : p <> [].

(** Outside the removed directory every entry is as it was. *)
Lemma entries_outside (q : Cerulean.Path) :
  CeruleanTree.is_prefix p q = false ->
  Cerulean.is_dir (CeruleanTree.prune fs p) q = Cerulean.is_dir fs q
  /\ Cerulean.lookup_file q (Cerulean.files (CeruleanTree.prune fs p))
     = Cerulean.lookup_file q (Cerulean.files fs)
  /\ Cerulean.is_file (CeruleanTree.prune fs p) q = Cerulean.is_file fs q.
Proof.
  intro Hq. unfold Cerulean.is_file. rewrite lookup_file_pruned, Hq.
  repeat split.
  destruct q as [|seg q]; [reflexivity|].
  rewrite is_dir_pruned by discriminate. rewrite Hq. apply andb_true_r.
Qed.

(** At and below the removed directory no entry is left. *)
Lemma entries_inside (q : Cerulean.Path) :
  CeruleanTree.is_prefix p q = true ->
  Cerulean.is_dir (CeruleanTree.prune fs p) q = false
  /\ Cerulean.is_file (CeruleanTree.prune fs p) q = false.
Proof.
  intro Hq. unfold Cerulean.is_file. rewrite lookup_file_pruned, Hq.
  split; [|reflexivity].
  rewrite is_dir_pruned.
  - rewrite Hq. apply andb_false_r.
  - intros ->. destruct p; [congruence | discriminate].
Qed.

(** A path without [..] segments that does not come to the removed
    directory is followed as before. *)
Lemma walk_outside (segs : list string) :
  canonical segs = true ->
  forall cur,
    CeruleanTree.is_prefix p (cur ++ segs)%list = false ->
    Cerulean.walk (CeruleanTree.prune fs p) cur segs = Cerulean.walk fs cur segs.
Proof.
  induction segs as [|seg rest IH]; intros Hcan cur Hout; [reflexivity|].
  cbn [canonical forallb] in Hcan. apply andb_true_iff in Hcan as [Hseg Hcan].
  apply negb_true_iff in Hseg.
  destruct (entries_outside cur (is_prefix_shorter _ _ _ Hout)) as (Hd & _ & Hf).
  cbn [Cerulean.walk]. rewrite Hd, Hf, Hseg.
  destruct (Cerulean.is_dir fs cur); [|reflexivity].
  apply (IH Hcan). now rewrite <- app_assoc.
Qed.

End Pruning.

(** A path without [..] segments leads to the place it names, when it
    leads anywhere. *)
Lemma walk_canonical (fs : Cerulean.FileSystem) (segs : list string) :
  canonical segs = true ->
  forall cur q,
    Cerulean.walk fs cur segs = Cerulean.At q -> q = (cur ++ segs)%list.
Proof.
  induction segs as [|seg rest IH]; intros Hcan cur q H.
  - injection H as <-. now rewrite app_nil_r.
  - cbn [canonical forallb] in Hcan. apply andb_true_iff in Hcan as [Hseg Hcan].
    apply negb_true_iff in Hseg. cbn [Cerulean.walk] in H. rewrite Hseg in H.
    destruct (Cerulean.is_dir fs cur).
    + rewrite (IH Hcan _ _ H). now rewrite <- app_assoc.
    + destruct (Cerulean.is_file fs cur); discriminate.
Qed.

(** X20: For a job id that is one path segment other than [..], under a
    base directory without [..] segments: [delete_job] does nothing
    when the job directory does not exist.  When it is a directory,
    nothing exists at or below it afterwards; a path without [..]
    segments that is not at or below it leads to what it led to before,
    the paths of the other jobs among them; and deleting once more does
    nothing. *)
Theorem delete_job_removes_only_the_job
        (self : RemoteJobFiles.t) (job_id : string) (fs : Cerulean.FileSystem) :
  plain_segment job_id = true -> job_id <> ".." ->
  canonical (RemoteJobFiles._basedir self) = true ->
  let job_dir := RemoteJobFiles._abs_path self job_id "" in
  canonical job_dir = true
  /\ (Cerulean.exists_ fs job_dir = false -> delete_job self job_id fs = Ok fs)
  /\ (Cerulean.exists_ fs job_dir = true ->
      Cerulean.is_file fs job_dir = false ->
      exists fs',
        delete_job self job_id fs = Ok fs'
        /\ (forall q, CeruleanTree.is_prefix job_dir q = true ->
                      Cerulean.exists_ fs' q = false)
        /\ (forall q, canonical q = true ->
                      CeruleanTree.is_prefix job_dir q = false ->
                      Cerulean.exists_ fs' q = Cerulean.exists_ fs q
                      /\ Cerulean.is_dir fs' q = Cerulean.is_dir fs q
                      /\ Cerulean.read_bytes fs' q = Cerulean.read_bytes fs q)
        /\ delete_job self job_id fs' = Ok fs')
  /\ (forall other rest,
         plain_segment other = true -> other <> ".." -> other <> job_id ->
         canonical rest = true ->
         canonical (RemoteJobFiles._abs_path self other "" ++ rest)%list = true
         /\ CeruleanTree.is_prefix
              job_dir (RemoteJobFiles._abs_path self other "" ++ rest)%list
            = false).
Proof.
  intros Hid Hup Hbase job_dir.
  assert (Habs : forall id, plain_segment id = true ->
                            RemoteJobFiles._abs_path self id ""
                            = ((RemoteJobFiles._basedir self ++ ["jobs"])
                               ++ [id])%list).
  { intros id H. unfold RemoteJobFiles._abs_path. cbn [String.eqb negb].
    apply (div_plain_segment _ _ H). }
  assert (Hcan : forall id, plain_segment id = true -> id <> ".." ->
                            canonical (RemoteJobFiles._abs_path self id "") = true).
  { intros id H Hne. rewrite (Habs id H), !canonical_app, Hbase.
    cbn [canonical forallb andb]. apply String.eqb_neq in Hne.
    now rewrite Hne. }
  assert (Hdir := Habs job_id Hid). fold job_dir in Hdir.
  assert (Hjob := Hcan job_id Hid Hup). fold job_dir in Hjob.
  assert (Hne : job_dir <> [])
    by (rewrite Hdir; now destruct (RemoteJobFiles._basedir self ++ ["jobs"])%list).
  assert (Hgone : forall q, CeruleanTree.is_prefix job_dir q = true ->
                            Cerulean.exists_ (CeruleanTree.prune fs job_dir) q
                            = false).
  { intros q Hq. apply is_prefix_split in Hq as [rest ->].
    unfold Cerulean.exists_, Cerulean.resolve. rewrite walk_app.
    destruct (Cerulean.walk (CeruleanTree.prune fs job_dir) [] job_dir)
      as [c| |] eqn:Hc; try reflexivity.
    apply (walk_canonical _ _ Hjob) in Hc. cbn [app] in Hc. subst c.
    destruct (entries_inside fs job_dir Hne job_dir (is_prefix_refl _))
      as [Hd Hf].
    destruct rest as [|seg rest]; cbn [Cerulean.walk]; now rewrite Hd, Hf. }
  split; [exact Hjob|]. split; [|split].
  - intro H. unfold delete_job. fold job_dir. now rewrite H.
  - intros He Hf. exists (CeruleanTree.prune fs job_dir).
    split; [|split; [|split]].
    + unfold delete_job. fold job_dir. rewrite He.
      unfold CeruleanTree.rmdir_recursive.
      unfold Cerulean.exists_ in He.
      destruct (Cerulean.resolve fs job_dir) as [c| |] eqn:Hc;
        try discriminate.
      apply (walk_canonical _ _ Hjob) in Hc. cbn [app] in Hc. subst c.
      rewrite Hf in He |- *. rewrite orb_false_r in He. now rewrite He.
    + exact Hgone.
    + intros q Hq Hout.
      assert (Hwalk : Cerulean.resolve (CeruleanTree.prune fs job_dir) q
                      = Cerulean.resolve fs q)
        by (apply (walk_outside fs job_dir q Hq []); exact Hout).
      destruct (entries_outside fs job_dir q Hout) as (Hd & _ & _).
      unfold Cerulean.exists_, Cerulean.read_bytes. rewrite Hwalk.
      split; [|split; [exact Hd|]];
        (destruct (Cerulean.resolve fs q) as [c| |] eqn:Hc; [|reflexivity..];
         apply (walk_canonical _ _ Hq) in Hc; cbn [app] in Hc; subst c;
         destruct (entries_outside fs job_dir q Hout) as (Hd' & Hl' & Hf');
         now rewrite ?Hd', ?Hl', ?Hf').
    + unfold delete_job. fold job_dir.
      now rewrite (Hgone job_dir (is_prefix_refl _)).
  - intros other rest Hother Houp Hneq Hrest. split.
    + now rewrite canonical_app, (Hcan other Hother Houp), Hrest.
    + rewrite Hdir, (Habs other Hother).
      rewrite <- (app_assoc _ [other] rest).
      rewrite is_prefix_app_same. cbn [app CeruleanTree.is_prefix].
      apply String.eqb_neq in Hneq. rewrite String.eqb_sym in Hneq.
      now rewrite Hneq.
Qed.

Lemma delete_job_removes_only_the_job_witness :
  exists fs',
    delete_job example_job_files "job1" example_two_jobs = Ok fs'
    /\ Cerulean.exists_ fs' ["home"; "cerise"; "jobs"; "job1"; "work"; "01_in.txt"]
       = false
    /\ Cerulean.read_bytes fs' ["home"; "cerise"; "jobs"; "job2"; "stdout.txt"]
       = Ok "{}".
Proof.
  destruct (delete_job_removes_only_the_job example_job_files "job1"
              example_two_jobs eq_refl ltac:(discriminate) eq_refl)
    as (_ & _ & Hdel & _).
  destruct (Hdel eq_refl eq_refl) as (fs' & Hok & Hgone & Hkept & _).
  exists fs'. split; [exact Hok|]. split.
  - apply Hgone. reflexivity.
  - destruct (Hkept ["home"; "cerise"; "jobs"; "job2"; "stdout.txt"]
                    eq_refl eq_refl) as (_ & _ & ->).
    reflexivity.
Defined.

(** ** Destaging, continued *)

Section DestagingSources.
Context {ext : Externals}.

Lemma destage_files_ok (work_dir : Cerulean.Path) (resolved : list InputFile)
      (outs : list RemoteJobFiles.OutputFile) :
  RemoteJobFiles.destage_files work_dir resolved = Ok outs ->
  Forall2 (destaged ("file://" ++ Cerulean.str work_dir ++ "/") work_dir)
          resolved outs.
Proof.
  revert outs. induction resolved as [|f rest IH]; intros outs H.
  - injection H as <-. constructor.
  - cbn [RemoteJobFiles.destage_files] in H.
    destruct (if_location f) as [| | | |loc| |] eqn:Hloc; try discriminate.
    destruct (startswith loc _) eqn:Hs; cbn [negb] in H; [|discriminate].
    destruct (RemoteJobFiles.destage_files work_dir rest) as [tl|];
      [|discriminate].
    cbn [bind] in H. injection H as <-.
    constructor; [|now apply IH].
    apply startswith_iff in Hs as [rel ->].
    unfold destaged. cbn. rewrite drop_append_length. now rewrite Hloc.
Qed.

(** X21: A job without recorded remote output destages to no file, without
    the output being parsed.  Whenever [destage_job_output] returns, the
    source of every returned file is the work directory of the job
    followed by the segments of the relative location, whatever they
    are: only the prefix of a location is checked.  For a location
    without [..] segment that is a path at or below the work directory,
    and one without [..] segment when the work directory has none. *)
Theorem destage_job_output_sources
        (self : RemoteJobFiles.t) (job_id : string) (job : RemoteJobFiles.Job)
        (outs : list RemoteJobFiles.OutputFile) :
  RemoteJobFiles.destage_job_output self job_id job = Ok outs ->
  (RemoteJobFiles.remote_output job = "" -> outs = [])
  /\ Forall (fun o =>
               RemoteJobFiles.source o
               = (RemoteJobFiles.work_dir_of self job_id
                  ++ Cerulean.segments (RemoteJobFiles.location o))%list
               /\ (canonical (Cerulean.segments (RemoteJobFiles.location o))
                   = true ->
                   CeruleanTree.is_prefix (RemoteJobFiles.work_dir_of self job_id)
                                          (RemoteJobFiles.source o) = true
                   /\ (canonical (RemoteJobFiles.work_dir_of self job_id) = true ->
                       canonical (RemoteJobFiles.source o) = true)))
            outs.
Proof.
  unfold RemoteJobFiles.destage_job_output. intro H. split.
  - intros He. rewrite He in H. cbn in H. now injection H as <-.
  - destruct (negb _); [|injection H as <-; constructor].
    destruct (json_loads _) as [outputs|]; [|discriminate].
    cbn [bind] in H.
    destruct (get_files_from_binding outputs) as [resolved|]; [|discriminate].
    cbn [bind] in H. apply destage_files_ok in H.
    induction H as [|f o fs os (_ & _ & _ & _ & Hsrc) _ IH]; constructor;
      [|exact IH].
    rewrite Hsrc. unfold Cerulean.div.
    split; [reflexivity|]. intro Hrel. split.
    + rewrite <- (app_nil_r (RemoteJobFiles.work_dir_of self job_id)) at 1.
      now rewrite is_prefix_app_same.
    + intro Hwork. now rewrite canonical_app, Hwork, Hrel.
Qed.

End DestagingSources.

Lemma destage_job_output_sources_witness :
  Forall (fun o =>
            RemoteJobFiles.source o
            = (["home"; "cerise"; "jobs"; "job1"; "work"]
               ++ Cerulean.segments (RemoteJobFiles.location o))%list
            /\ (canonical (Cerulean.segments (RemoteJobFiles.location o)) = true ->
                CeruleanTree.is_prefix ["home"; "cerise"; "jobs"; "job1"; "work"]
                                       (RemoteJobFiles.source o) = true
                /\ (canonical ["home"; "cerise"; "jobs"; "job1"; "work"] = true ->
                    canonical (RemoteJobFiles.source o) = true)))
         [RemoteJobFiles.mkOutputFile (Some "out") "result/out.txt" None []
            ["home"; "cerise"; "jobs"; "job1"; "work"; "result"; "out.txt"];
          RemoteJobFiles.mkOutputFile (Some "log") "../../job2/work/secret.txt"
            None []
            ["home"; "cerise"; "jobs"; "job1"; "work"; ".."; ".."; "job2";
             "work"; "secret.txt"]].
Proof.
  apply (destage_job_output_sources (ext := destaging_externals)
           example_job_files "job1"
           (RemoteJobFiles.mkJob "wc" "<output>" "" [])).
  reflexivity.
Defined.

(** ** Cancelling *)

(** X22: Of the six conditional transitions of [cancel_job_by_id] at most one
    fires: the request takes SUBMITTED and FINISHED to CANCELLED and each
    busy state to its cancel-requested state, and leaves every terminal
    or cancel-requested state as it is; a second request changes
    nothing, and the deletion flag is not touched.  [delete_job_by_id]
    does the same and sets the flag. *)
Theorem cancel_job_by_id_table (job : Controller.Job) :
  Controller.state (Controller.cancel_job_by_id job)
  = cancelled_state (Controller.state job)
  /\ Controller.please_delete (Controller.cancel_job_by_id job)
     = Controller.please_delete job
  /\ Controller.cancel_job_by_id (Controller.cancel_job_by_id job)
     = Controller.cancel_job_by_id job
  /\ (is_terminal (Controller.state job)
      || is_cancel_requested (Controller.state job) = true ->
      Controller.cancel_job_by_id job = job)
  /\ Controller.delete_job_by_id job
     = Controller.mkJob (cancelled_state (Controller.state job)) true.
Proof.
  destruct job as [[] pd]; repeat split; intro H; try reflexivity;
    discriminate.
Qed.

Lemma cancel_job_by_id_table_witness :
  Controller.cancel_job_by_id (Controller.mkJob RUNNING_CR false)
  = Controller.mkJob RUNNING_CR false.
Proof.
  apply (cancel_job_by_id_table (Controller.mkJob RUNNING_CR false)).
  reflexivity.
Defined.

(** ** Staging and the job directory *)

Section StageJobFrame.
Context {ext : Externals} {rem : Staging.Remote}.
Variable self : RemoteJobFiles.t.
Variable job_id : string.

Lemma abs_path_inside (rel : string) :
  CeruleanTree.is_prefix (RemoteJobFiles._abs_path self job_id "")
                         (RemoteJobFiles._abs_path self job_id rel) = true.
Proof.
  unfold RemoteJobFiles._abs_path. cbn [String.eqb negb].
  set (dir := Cerulean.div (Cerulean.div (RemoteJobFiles._basedir self) "jobs")
                           job_id).
  destruct (negb (String.eqb rel "")).
  - unfold Cerulean.div at 1.
    rewrite <- (app_nil_r dir) at 1. now rewrite is_prefix_app_same.
  - rewrite <- (app_nil_r dir). now rewrite is_prefix_app_same.
Qed.

(** X23: Staging stays inside the job directory: every path [stage_job] has
    copied a file to or written a file at, starting from a clean record,
    is at or below [<base>/jobs/<id>], the directory that [delete_job]
    removes. *)
Theorem stage_job_stays_in_job_directory
        (input_files : list Staging.File) (workflow_content : string)
        (job job' : Staging.Job) (st st' : Staging.state) :
  Staging.copied st = [] -> Staging.written st = [] ->
  Staging.stage_job self job_id input_files workflow_content job st
  = Staging.Done (job', st') ->
  Forall (fun p => CeruleanTree.is_prefix
                     (RemoteJobFiles._abs_path self job_id "") p = true)
         (map snd (Staging.copied st') ++ map fst (Staging.written st'))%list.
Proof.
  intros Hc Hw H.
  destruct (stage_job_done self job_id _ _ _ _ _ _ H)
    as (Hcopied & _ & (inputs & inputs' & _ & _ & Hwritten) & _).
  rewrite Hcopied, Hwritten, Hc, Hw. cbn [app map fst].
  apply Forall_app. split.
  - rewrite Forall_forall. intros t Hin.
    apply (targets_list_within self job_id input_files) in Hin;
      [| rewrite Forall_forall; intros; now apply targets_within].
    destruct Hin as (c & loc & _ & ->).
    rewrite staged_target_in_work.
    rewrite <- (app_nil_r (RemoteJobFiles._abs_path self job_id "")) at 1.
    now rewrite is_prefix_app_same.
  - repeat constructor; apply abs_path_inside.
Qed.

End StageJobFrame.

Lemma stage_job_stays_in_job_directory_witness :
  exists job' st',
    Staging.stage_job (ext := staging_externals) (rem := obliging_remote)
      example_job_files "job1" [example_input_file] "<translated workflow>"
      example_staging_job fresh_state
    = Staging.Done (job', st')
    /\ Forall (fun p => CeruleanTree.is_prefix
                          ["home"; "cerise"; "jobs"; "job1"] p = true)
              (map snd (Staging.copied st') ++ map fst (Staging.written st'))%list.
Proof.
  eexists. eexists. split; [vm_compute; reflexivity|].
  apply (stage_job_stays_in_job_directory (ext := staging_externals)
           (rem := obliging_remote) example_job_files "job1"
           [example_input_file] "<translated workflow>" example_staging_job
           _ fresh_state _ eq_refl eq_refl eq_refl).
Defined.
